(** * PCA9685 16-channel PWM controller driver (Pca9685Pwm.cpp / Pca9685Pwm.h)

    A shallow embedding of the driver: binary32 arithmetic on top of the
    Standard Library's [SpecFloat], the I2C transport as an interface, the
    driver object as a record threaded through a state monad whose failure
    case stands for undefined behaviour of the C++ program. *)

From Stdlib Require Import ZArith QArith Qround Lia Bool.
From Stdlib Require Import Floats.SpecFloat.
From stdpp Require Import base option list list_numbers gmap.

Open Scope Z_scope.

(* ===================================================================== *)
(** * Part I: definitions                                                 *)
(* ===================================================================== *)

(** ** Single-precision floating point (the C++ type [float]) *)

Module Float32.

Definition prec : Z := 24.
Definition emax : Z := 128.

(** A [float] is a [spec_float]; the values a C++ [float] can hold are
    those accepted by [valid]. *)
Definition float : Type := spec_float.

Definition valid (x : float) : bool := valid_binary prec emax x.

Definition is_nan (x : float) : bool :=
  match x with S754_nan => true | _ => false end.

(** Conversion of an integer to [float] (round to nearest even). *)
Definition of_Z (n : Z) : float := binary_normalize prec emax n 0 false.

Definition zero : float := S754_zero false.
Definition one : float := of_Z 1.

Definition mul : float -> float -> float := SFmul prec emax.
Definition div : float -> float -> float := SFdiv prec emax.
Definition sub : float -> float -> float := SFsub prec emax.
Definition ltb : float -> float -> bool := SFltb.
Definition leb : float -> float -> bool := SFleb.

(** Magnitude of a finite float with the fraction dropped. *)
Definition trunc_magnitude (m : positive) (e : Z) : Z :=
  if 0 <=? e then Z.pos m * 2 ^ e else Z.pos m / 2 ^ (- e).

(** [static_cast] of a [float] to an unsigned integer type of [w] bits:
    the value is truncated toward zero; the conversion is undefined
    ([None]) when the truncated value does not fit the destination, and
    for infinities and NaN. *)
Definition to_uint (w : Z) (x : float) : option Z :=
  match x with
  | S754_zero _ => Some 0
  | S754_finite s m e =>
      let t := trunc_magnitude m e in
      let v := if s then - t else t in
      if bool_decide (0 <= v < 2 ^ w) then Some v else None
  | S754_infinity _ | S754_nan => None
  end.

(** [std::round]: nearest integer, halfway cases away from zero. *)
Definition round (x : float) : float :=
  match x with
  | S754_finite s m e =>
      if 0 <=? e then x
      else
        let q := (Z.pos m + 2 ^ (- e - 1)) / 2 ^ (- e) in
        if q =? 0 then S754_zero s
        else binary_normalize prec emax (if s then - q else q) 0 s
  | _ => x
  end.

(** The rational number denoted by a finite float. *)
Definition to_Q (x : float) : Q :=
  match x with
  | S754_finite s m e =>
      let n := if s then Z.neg m else Z.pos m in
      match e with
      | Z0 => n # 1
      | Z.pos p => (n * Z.pos (2 ^ p)) # 1
      | Z.neg p => n # (2 ^ p)
      end
  | _ => 0%Q
  end.

End Float32.

Abbreviation float := Float32.float.

(** ** Error codes and the I2C transport *)

(** Modelled from the spec: [HfPwmErr] is declared in BasePwm.h, which is
    not part of the sources; these are the codes the driver returns
    (spec section 7, with the names used in Pca9685Pwm.cpp). *)
Inductive HfPwmErr : Set :=
  | PWM_SUCCESS
  | PWM_NOT_INITIALIZED
  | PWM_INVALID_CHANNEL
  | PWM_INVALID_FREQUENCY
  | PWM_INVALID_DUTY_CYCLE
  | PWM_INVALID_ARGUMENT
  | PWM_HARDWARE_ERROR
  | PWM_NOT_SUPPORTED.

#[global] Instance HfPwmErr_eq_dec : EqDecision HfPwmErr.
Proof. solve_decision. Defined.

(** Modelled from the spec: [HfI2cErr] is declared in BaseI2c.h, which is
    not part of the sources; the driver only compares a status with
    [I2C_SUCCESS], so every other status is one constructor. *)
Inductive HfI2cErr : Set :=
  | I2C_SUCCESS
  | I2C_FAILURE.

#[global] Instance HfI2cErr_eq_dec : EqDecision HfI2cErr.
Proof. solve_decision. Defined.

(** Modelled from the spec: the transport contract [BaseI2c] (BaseI2c.h is
    not part of the sources; spec section 6).  [B] is the state of the bus
    and of whatever sits behind it.  The driver only ever reads one byte,
    so [i2c_WriteRead] yields the byte left in the one-byte input buffer. *)
Class BaseI2c (B : Type) : Type := {
  i2c_Initialize : B -> HfI2cErr * B;
  i2c_Deinitialize : B -> HfI2cErr * B;
  i2c_Write : Z -> list Z -> B -> HfI2cErr * B;
  i2c_WriteRead : Z -> list Z -> B -> HfI2cErr * Z * B
}.

(** Modelled from the spec: [PwmChannelConfig] is declared in BasePwm.h,
    which is not part of the sources; these are the fields the driver and
    the usage example of Pca9685Pwm.h mention. *)
Record PwmChannelConfig : Type := {
  frequency_hz : Z;
  resolution_bits : Z;
  initial_duty_cycle : float
}.

(** ** Constants of Pca9685Pwm.h *)

Definition DEFAULT_I2C_ADDRESS : Z := 0x40.
Definition MAX_CHANNELS : Z := 16.
Definition PWM_RESOLUTION : Z := 12.
Definition MAX_PWM_VALUE : Z := 4095.
Definition MIN_FREQUENCY : Z := 24.
Definition MAX_FREQUENCY : Z := 1526.
Definition INTERNAL_OSC_FREQ : Z := 25000000.

(** [enum class Registers : uint8_t]; a register is its address. *)
Module Registers.
Definition MODE1 : Z := 0x00.
Definition MODE2 : Z := 0x01.
Definition SUBADR1 : Z := 0x02.
Definition SUBADR2 : Z := 0x03.
Definition SUBADR3 : Z := 0x04.
Definition ALLCALLADR : Z := 0x05.
Definition LED0_ON_L : Z := 0x06.
Definition LED0_ON_H : Z := 0x07.
Definition LED0_OFF_L : Z := 0x08.
Definition LED0_OFF_H : Z := 0x09.
Definition ALL_LED_ON_L : Z := 0xFA.
Definition ALL_LED_ON_H : Z := 0xFB.
Definition ALL_LED_OFF_L : Z := 0xFC.
Definition ALL_LED_OFF_H : Z := 0xFD.
Definition PRE_SCALE : Z := 0xFE.
Definition TESTMODE : Z := 0xFF.
End Registers.

Module Mode1Bits.
Definition RESTART : Z := 0x80.
Definition EXTCLK : Z := 0x40.
Definition AI : Z := 0x20.
Definition SLEEP : Z := 0x10.
Definition SUB1 : Z := 0x08.
Definition SUB2 : Z := 0x04.
Definition SUB3 : Z := 0x02.
Definition ALLCALL : Z := 0x01.
End Mode1Bits.

Module Mode2Bits.
Definition INVRT : Z := 0x10.
Definition OCH : Z := 0x08.
Definition OUTDRV : Z := 0x04.
Definition OUTNE1 : Z := 0x02.
Definition OUTNE0 : Z := 0x01.
End Mode2Bits.

(** Conversion to [uint8_t]. *)
Definition u8 (x : Z) : Z := x mod 256.

(** ** The pure calculators *)

(** [Pca9685Pwm::CalculatePrescale].  The member function uses no field of
    the object.  [uint32_t] to [float] is [Float32.of_Z]; the final
    [static_cast<uint8_t>] is where the C++ program can be undefined. *)
Definition CalculatePrescale (frequency_hz : Z) : option Z :=
  let prescale_float :=
    Float32.sub
      (Float32.div (Float32.of_Z INTERNAL_OSC_FREQ)
                   (Float32.mul (Float32.of_Z 4096) (Float32.of_Z frequency_hz)))
      Float32.one in
  prescale ← Float32.to_uint 8 (Float32.round prescale_float);
  Some (Z.max 3 (Z.min 255 prescale)).

(** [Pca9685Pwm::DutyCycleToTiming]; the result is the pair
    [(on_time, off_time)] written through the two reference parameters. *)
Definition DutyCycleToTiming (duty_cycle : float) : option (Z * Z) :=
  if Float32.leb duty_cycle Float32.zero then Some (0, MAX_PWM_VALUE)
  else if Float32.leb Float32.one duty_cycle then Some (MAX_PWM_VALUE, 0)
  else
    off_time ← Float32.to_uint 16
                 (Float32.mul duty_cycle (Float32.of_Z MAX_PWM_VALUE));
    Some (0, off_time).

(** [Pca9685Pwm::IsValidChannel] ([channel_id] is a [uint8_t]). *)
Definition IsValidChannel (channel_id : Z) : bool :=
  bool_decide (channel_id < MAX_CHANNELS).

(** ** The driver object *)

(** [struct ChannelState], with its default member initialisers below. *)
Record ChannelState : Type := {
  is_active : bool;
  duty_cycle : float;
  on_time : Z;
  off_time : Z
}.

Definition ChannelState_default : ChannelState :=
  {| is_active := false; duty_cycle := Float32.zero; on_time := 0; off_time := 0 |}.

Definition set_is_active (v : bool) (c : ChannelState) : ChannelState :=
  {| is_active := v; duty_cycle := duty_cycle c;
     on_time := on_time c; off_time := off_time c |}.

Definition set_duty (d : float) (on off : Z) (c : ChannelState) : ChannelState :=
  {| is_active := is_active c; duty_cycle := d; on_time := on; off_time := off |}.

(** The fields of [class Pca9685Pwm].  [i2c_] is the owning pointer to the
    transport: [None] is the null pointer, [Some b] a transport in state
    [b].  [channels_] is the [std::array] of [MAX_CHANNELS] records. *)
Record Pca9685Pwm (B : Type) : Type := {
  i2c_ : option B;
  i2c_address_ : Z;
  output_enable_pin_ : Z;
  is_initialized_ : bool;
  current_frequency_ : Z;
  prescale_value_ : Z;
  channels_ : list ChannelState
}.

Arguments i2c_ {B} _.
Arguments i2c_address_ {B} _.
Arguments output_enable_pin_ {B} _.
Arguments is_initialized_ {B} _.
Arguments current_frequency_ {B} _.
Arguments prescale_value_ {B} _.
Arguments channels_ {B} _.

(** The constructor. *)
Definition Pca9685Pwm_new {B : Type} (i2c_interface : option B)
    (i2c_address : Z) (output_enable_pin : Z) : Pca9685Pwm B :=
  {| i2c_ := i2c_interface;
     i2c_address_ := i2c_address;
     output_enable_pin_ := output_enable_pin;
     is_initialized_ := false;
     current_frequency_ := 1000;
     prescale_value_ := 0;
     channels_ := replicate (Z.to_nat MAX_CHANNELS) ChannelState_default |}.

Section Driver.
Context {B : Type} `{!BaseI2c B}.

Definition set_i2c (b : B) (s : Pca9685Pwm B) : Pca9685Pwm B :=
  {| i2c_ := Some b; i2c_address_ := i2c_address_ s;
     output_enable_pin_ := output_enable_pin_ s;
     is_initialized_ := is_initialized_ s;
     current_frequency_ := current_frequency_ s;
     prescale_value_ := prescale_value_ s;
     channels_ := channels_ s |}.

Definition set_is_initialized (v : bool) (s : Pca9685Pwm B) : Pca9685Pwm B :=
  {| i2c_ := i2c_ s; i2c_address_ := i2c_address_ s;
     output_enable_pin_ := output_enable_pin_ s;
     is_initialized_ := v;
     current_frequency_ := current_frequency_ s;
     prescale_value_ := prescale_value_ s;
     channels_ := channels_ s |}.

Definition set_frequency (f p : Z) (s : Pca9685Pwm B) : Pca9685Pwm B :=
  {| i2c_ := i2c_ s; i2c_address_ := i2c_address_ s;
     output_enable_pin_ := output_enable_pin_ s;
     is_initialized_ := is_initialized_ s;
     current_frequency_ := f;
     prescale_value_ := p;
     channels_ := channels_ s |}.

Definition set_channels (cs : list ChannelState) (s : Pca9685Pwm B) : Pca9685Pwm B :=
  {| i2c_ := i2c_ s; i2c_address_ := i2c_address_ s;
     output_enable_pin_ := output_enable_pin_ s;
     is_initialized_ := is_initialized_ s;
     current_frequency_ := current_frequency_ s;
     prescale_value_ := prescale_value_ s;
     channels_ := cs |}.

(** A member function is a computation on the object; [None] is
    undefined behaviour of the C++ program. *)
Definition M (A : Type) : Type := Pca9685Pwm B -> option (A * Pca9685Pwm B).

#[global] Instance M_ret : MRet M := fun A a s => Some (a, s).
#[global] Instance M_bind : MBind M := fun A C k m s =>
  match m s with
  | Some (a, s') => k a s'
  | None => None
  end.

Definition undefined {A : Type} : M A := fun _ => None.
Definition gets {A : Type} (f : Pca9685Pwm B -> A) : M A := fun s => Some (f s, s).
Definition modify (f : Pca9685Pwm B -> Pca9685Pwm B) : M unit := fun s => Some (tt, f s).

(** A value computed by a conversion that may be undefined. *)
Definition defined {A : Type} (o : option A) : M A :=
  fun s => match o with Some a => Some (a, s) | None => None end.

(** [channels_[channel_id]] as an rvalue and as the target of field
    assignments; there is no such element outside the array. *)
Definition channel_at (channel_id : Z) : M ChannelState :=
  fun s => c ← channels_ s !! Z.to_nat channel_id; Some (c, s).

Definition channel_assign (channel_id : Z) (f : ChannelState -> ChannelState) : M unit :=
  fun s =>
    c ← channels_ s !! Z.to_nat channel_id;
    Some (tt, set_channels (<[Z.to_nat channel_id := f c]> (channels_ s)) s).

(** A call through the transport pointer, [i2c_->op(...)]; dereferencing
    the null pointer is undefined. *)
Definition i2c_call {A : Type} (op : B -> A * B) : M A :=
  fun s =>
    match i2c_ s with
    | None => None
    | Some b => let '(a, b') := op b in Some (a, set_i2c b' s)
    end.

Definition i2c_is_null : M bool :=
  fun s => Some (match i2c_ s with None => true | Some _ => false end, s).

(** [Pca9685Pwm::WriteRegister] *)
Definition WriteRegister (reg value : Z) : M HfPwmErr :=
  null ← i2c_is_null;
  if (null : bool) then mret PWM_HARDWARE_ERROR else
  address ← gets i2c_address_;
  st ← i2c_call (i2c_Write address [reg; value]);
  if decide (st ≠ I2C_SUCCESS) then mret PWM_HARDWARE_ERROR else
  mret PWM_SUCCESS.

(** [Pca9685Pwm::ReadRegister]; the second component is the reference
    parameter [value], which the callers read only after a success. *)
Definition ReadRegister (reg : Z) : M (HfPwmErr * Z) :=
  null ← i2c_is_null;
  if (null : bool) then mret (PWM_HARDWARE_ERROR, 0) else
  address ← gets i2c_address_;
  '(st, value) ← i2c_call (i2c_WriteRead address [reg]);
  if decide (st ≠ I2C_SUCCESS) then mret (PWM_HARDWARE_ERROR, u8 value) else
  mret (PWM_SUCCESS, u8 value).

(** [Pca9685Pwm::SetChannelTiming] *)
Definition SetChannelTiming (channel_id on_time off_time : Z) : M HfPwmErr :=
  if negb (IsValidChannel channel_id) then mret PWM_INVALID_CHANNEL else
  let base_reg := u8 (Registers.LED0_ON_L + channel_id * 4) in
  result ← WriteRegister base_reg (u8 (Z.land on_time 0xFF));
  if decide (result ≠ PWM_SUCCESS) then mret result else
  result ← WriteRegister (u8 (base_reg + 1)) (u8 (Z.land (Z.shiftr on_time 8) 0xFF));
  if decide (result ≠ PWM_SUCCESS) then mret result else
  result ← WriteRegister (u8 (base_reg + 2)) (u8 (Z.land off_time 0xFF));
  if decide (result ≠ PWM_SUCCESS) then mret result else
  result ← WriteRegister (u8 (base_reg + 3)) (u8 (Z.land (Z.shiftr off_time 8) 0xFF));
  if decide (result ≠ PWM_SUCCESS) then mret result else
  mret PWM_SUCCESS.

(** [Pca9685Pwm::Reset] *)
Definition Reset : M HfPwmErr :=
  null ← i2c_is_null;
  if (null : bool) then mret PWM_HARDWARE_ERROR else
  let reset_cmd := [0x00; 0x06] in
  st ← i2c_call (i2c_Write 0x00 reset_cmd);
  if decide (st ≠ I2C_SUCCESS) then mret PWM_HARDWARE_ERROR else
  modify (set_channels (replicate (Z.to_nat MAX_CHANNELS) ChannelState_default));;
  mret PWM_SUCCESS.

(** [Pca9685Pwm::SetFrequency] *)
Definition SetFrequency (channel_id frequency_hz : Z) : M HfPwmErr :=
  initialized ← gets is_initialized_;
  if negb initialized then mret PWM_NOT_INITIALIZED else
  if negb (IsValidChannel channel_id) then mret PWM_INVALID_CHANNEL else
  if bool_decide (frequency_hz < MIN_FREQUENCY) || bool_decide (frequency_hz > MAX_FREQUENCY)
  then mret PWM_INVALID_FREQUENCY else
  prescale ← defined (CalculatePrescale frequency_hz);
  '(result, mode1) ← ReadRegister Registers.MODE1;
  if decide (result ≠ PWM_SUCCESS) then mret result else
  let mode1 := u8 (Z.lor mode1 Mode1Bits.SLEEP) in
  result ← WriteRegister Registers.MODE1 mode1;
  if decide (result ≠ PWM_SUCCESS) then mret result else
  result ← WriteRegister Registers.PRE_SCALE prescale;
  if decide (result ≠ PWM_SUCCESS) then mret result else
  let mode1 := u8 (Z.land mode1 (Z.lnot Mode1Bits.SLEEP)) in
  result ← WriteRegister Registers.MODE1 mode1;
  if decide (result ≠ PWM_SUCCESS) then mret result else
  modify (set_frequency frequency_hz prescale);;
  mret PWM_SUCCESS.

(** [Pca9685Pwm::Sleep] *)
Definition Sleep : M HfPwmErr :=
  initialized ← gets is_initialized_;
  if negb initialized then mret PWM_NOT_INITIALIZED else
  '(result, mode1) ← ReadRegister Registers.MODE1;
  if decide (result ≠ PWM_SUCCESS) then mret result else
  let mode1 := u8 (Z.lor mode1 Mode1Bits.SLEEP) in
  WriteRegister Registers.MODE1 mode1.

(** [Pca9685Pwm::Wakeup] *)
Definition Wakeup : M HfPwmErr :=
  initialized ← gets is_initialized_;
  if negb initialized then mret PWM_NOT_INITIALIZED else
  '(result, mode1) ← ReadRegister Registers.MODE1;
  if decide (result ≠ PWM_SUCCESS) then mret result else
  let mode1 := u8 (Z.land mode1 (Z.lnot Mode1Bits.SLEEP)) in
  result ← WriteRegister Registers.MODE1 mode1;
  if decide (result ≠ PWM_SUCCESS) then mret result else
  mret result.

(** [Pca9685Pwm::Initialize].  The block for the output-enable pin is
    empty in the source. *)
Definition Initialize : M HfPwmErr :=
  initialized ← gets is_initialized_;
  if (initialized : bool) then mret PWM_SUCCESS else
  null ← i2c_is_null;
  if (null : bool) then mret PWM_INVALID_ARGUMENT else
  st ← i2c_call i2c_Initialize;
  if decide (st ≠ I2C_SUCCESS) then mret PWM_HARDWARE_ERROR else
  result ← Reset;
  if decide (result ≠ PWM_SUCCESS) then mret result else
  frequency ← gets current_frequency_;
  result ← SetFrequency 0 frequency;
  if decide (result ≠ PWM_SUCCESS) then mret result else
  let mode2 := Mode2Bits.OUTDRV in
  result ← WriteRegister Registers.MODE2 mode2;
  if decide (result ≠ PWM_SUCCESS) then mret result else
  result ← Wakeup;
  if decide (result ≠ PWM_SUCCESS) then mret result else
  modify (set_is_initialized true);;
  mret PWM_SUCCESS.

(** [Pca9685Pwm::SetDutyCycle] *)
Definition SetDutyCycle (channel_id : Z) (duty_cycle : float) : M HfPwmErr :=
  initialized ← gets is_initialized_;
  if negb initialized then mret PWM_NOT_INITIALIZED else
  if negb (IsValidChannel channel_id) then mret PWM_INVALID_CHANNEL else
  if Float32.ltb duty_cycle Float32.zero || Float32.ltb Float32.one duty_cycle
  then mret PWM_INVALID_DUTY_CYCLE else
  '(on_time, off_time) ← defined (DutyCycleToTiming duty_cycle);
  result ← SetChannelTiming channel_id on_time off_time;
  (if decide (result = PWM_SUCCESS)
   then channel_assign channel_id (set_duty duty_cycle on_time off_time)
   else mret tt);;
  mret result.

(** [Pca9685Pwm::ConfigureChannel] *)
Definition ConfigureChannel (channel_id : Z) (config : PwmChannelConfig) : M HfPwmErr :=
  initialized ← gets is_initialized_;
  if negb initialized then mret PWM_NOT_INITIALIZED else
  if negb (IsValidChannel channel_id) then mret PWM_INVALID_CHANNEL else
  if bool_decide (frequency_hz config < MIN_FREQUENCY)
     || bool_decide (frequency_hz config > MAX_FREQUENCY)
  then mret PWM_INVALID_FREQUENCY else
  if Float32.ltb (initial_duty_cycle config) Float32.zero
     || Float32.ltb Float32.one (initial_duty_cycle config)
  then mret PWM_INVALID_DUTY_CYCLE else
  result ← SetFrequency channel_id (frequency_hz config);
  if decide (result ≠ PWM_SUCCESS) then mret result else
  result ← SetDutyCycle channel_id (initial_duty_cycle config);
  if decide (result ≠ PWM_SUCCESS) then mret result else
  mret PWM_SUCCESS.

(** [Pca9685Pwm::Start] *)
Definition Start (channel_id : Z) : M HfPwmErr :=
  initialized ← gets is_initialized_;
  if negb initialized then mret PWM_NOT_INITIALIZED else
  if negb (IsValidChannel channel_id) then mret PWM_INVALID_CHANNEL else
  c ← channel_at channel_id;
  result ← SetChannelTiming channel_id (on_time c) (off_time c);
  (if decide (result = PWM_SUCCESS)
   then channel_assign channel_id (set_is_active true)
   else mret tt);;
  mret result.

(** [Pca9685Pwm::Stop] *)
Definition Stop (channel_id : Z) : M HfPwmErr :=
  initialized ← gets is_initialized_;
  if negb initialized then mret PWM_NOT_INITIALIZED else
  if negb (IsValidChannel channel_id) then mret PWM_INVALID_CHANNEL else
  result ← SetChannelTiming channel_id 0 MAX_PWM_VALUE;
  (if decide (result = PWM_SUCCESS)
   then channel_assign channel_id (set_is_active false)
   else mret tt);;
  mret result.

(** [Pca9685Pwm::GetDutyCycle]; the second component is the reference
    parameter, [None] when the function leaves it untouched. *)
Definition GetDutyCycle (channel_id : Z) : M (HfPwmErr * option float) :=
  initialized ← gets is_initialized_;
  if negb initialized then mret (PWM_NOT_INITIALIZED, None) else
  if negb (IsValidChannel channel_id) then mret (PWM_INVALID_CHANNEL, None) else
  c ← channel_at channel_id;
  mret (PWM_SUCCESS, Some (duty_cycle c)).

(** [Pca9685Pwm::GetFrequency] *)
Definition GetFrequency (channel_id : Z) : M (HfPwmErr * option Z) :=
  initialized ← gets is_initialized_;
  if negb initialized then mret (PWM_NOT_INITIALIZED, None) else
  if negb (IsValidChannel channel_id) then mret (PWM_INVALID_CHANNEL, None) else
  frequency ← gets current_frequency_;
  mret (PWM_SUCCESS, Some frequency).

(** [Pca9685Pwm::IsChannelActive] *)
Definition IsChannelActive (channel_id : Z) : M bool :=
  initialized ← gets is_initialized_;
  if negb initialized || negb (IsValidChannel channel_id) then mret false else
  c ← channel_at channel_id;
  mret (is_active c).

(** [Pca9685Pwm::GetMaxChannels] *)
Definition GetMaxChannels : M Z := mret MAX_CHANNELS.

(** The loop of [Deinitialize] over the channels; the result of each
    [Stop] is discarded. *)
Fixpoint stop_all (channel_ids : list Z) : M unit :=
  match channel_ids with
  | [] => mret tt
  | i :: rest => Stop i;; stop_all rest
  end.

(** [Pca9685Pwm::Deinitialize].  The block for the output-enable pin is
    empty in the source; the results of [Stop], [Sleep] and of the
    transport's [Deinitialize] are discarded. *)
Definition Deinitialize : M HfPwmErr :=
  initialized ← gets is_initialized_;
  if negb initialized then mret PWM_NOT_INITIALIZED else
  stop_all (seqZ 0 MAX_CHANNELS);;
  Sleep;;
  null ← i2c_is_null;
  (if (null : bool) then mret tt else i2c_call i2c_Deinitialize;; mret tt);;
  modify (set_is_initialized false);;
  mret PWM_SUCCESS.

(** The destructor. *)
Definition Pca9685Pwm_delete : M unit :=
  initialized ← gets is_initialized_;
  if (initialized : bool) then Deinitialize;; mret tt else mret tt.

(** The unsupported features ignore their arguments. *)
Definition SetPhase (channel_id : Z) (phase_degrees : float) : M HfPwmErr :=
  mret PWM_NOT_SUPPORTED.
Definition ConfigureFade (channel_id : Z) : M HfPwmErr := mret PWM_NOT_SUPPORTED.
Definition StartFade (channel_id : Z) : M HfPwmErr := mret PWM_NOT_SUPPORTED.
Definition ConfigureComplementary (primary_channel secondary_channel : Z) : M HfPwmErr :=
  mret PWM_NOT_SUPPORTED.
Definition SetDeadTime (channel_id dead_time_ns : Z) : M HfPwmErr :=
  mret PWM_NOT_SUPPORTED.
Definition RegisterCallback (channel_id : Z) : M HfPwmErr := mret PWM_NOT_SUPPORTED.
Definition UnregisterCallback (channel_id : Z) : M HfPwmErr := mret PWM_NOT_SUPPORTED.

(** The loop of the three batch operations,
    [for (uint8_t i = 0; i < num_channels; i++)], with [i] the current
    index and [remaining = num_channels - i]; [body i] is the call made
    on the [i]-th array elements. *)
Fixpoint batch_loop (body : nat -> M HfPwmErr) (i remaining : nat) : M HfPwmErr :=
  match remaining with
  | O => mret PWM_SUCCESS
  | S remaining' =>
      result ← body i;
      if decide (result ≠ PWM_SUCCESS) then mret result else
      batch_loop body (S i) remaining'
  end.

(** [Pca9685Pwm::StartMultiple].  A pointer argument is [None] when null
    and otherwise the array it points to; reading past the end of that
    array is undefined. *)
Definition StartMultiple (channel_ids : option (list Z)) (num_channels : Z) : M HfPwmErr :=
  match channel_ids with
  | None => mret PWM_INVALID_ARGUMENT
  | Some ids =>
      if bool_decide (num_channels = 0) then mret PWM_INVALID_ARGUMENT else
      batch_loop (fun i => channel_id ← defined (ids !! i); Start channel_id)
                 0 (Z.to_nat num_channels)
  end.

(** [Pca9685Pwm::StopMultiple] *)
Definition StopMultiple (channel_ids : option (list Z)) (num_channels : Z) : M HfPwmErr :=
  match channel_ids with
  | None => mret PWM_INVALID_ARGUMENT
  | Some ids =>
      if bool_decide (num_channels = 0) then mret PWM_INVALID_ARGUMENT else
      batch_loop (fun i => channel_id ← defined (ids !! i); Stop channel_id)
                 0 (Z.to_nat num_channels)
  end.

(** [Pca9685Pwm::SetDutyCycleMultiple] *)
Definition SetDutyCycleMultiple (channel_ids : option (list Z))
    (duty_cycles : option (list float)) (num_channels : Z) : M HfPwmErr :=
  match channel_ids, duty_cycles with
  | Some ids, Some duties =>
      if bool_decide (num_channels = 0) then mret PWM_INVALID_ARGUMENT else
      batch_loop (fun i => channel_id ← defined (ids !! i);
                           duty ← defined (duties !! i);
                           SetDutyCycle channel_id duty)
                 0 (Z.to_nat num_channels)
  | _, _ => mret PWM_INVALID_ARGUMENT
  end.

(** [Pca9685Pwm::SetOutputEnable]; the pin itself is not driven by the
    source. *)
Definition SetOutputEnable (enabled : bool) : M HfPwmErr :=
  pin ← gets output_enable_pin_;
  if bool_decide (pin < 0) then mret PWM_NOT_SUPPORTED else
  mret PWM_SUCCESS.

(** [Pca9685Pwm::ConfigureExternalClock] *)
Definition ConfigureExternalClock (external_clock_freq : Z) : M HfPwmErr :=
  initialized ← gets is_initialized_;
  if negb initialized then mret PWM_NOT_INITIALIZED else
  '(result, mode1) ← ReadRegister Registers.MODE1;
  if decide (result ≠ PWM_SUCCESS) then mret result else
  let mode1 := u8 (Z.lor mode1 Mode1Bits.EXTCLK) in
  WriteRegister Registers.MODE1 mode1.

(** [Pca9685Pwm::SetOutputDriver] *)
Definition SetOutputDriver (totem_pole : bool) : M HfPwmErr :=
  initialized ← gets is_initialized_;
  if negb initialized then mret PWM_NOT_INITIALIZED else
  '(result, mode2) ← ReadRegister Registers.MODE2;
  if decide (result ≠ PWM_SUCCESS) then mret result else
  let mode2 := if totem_pole then u8 (Z.lor mode2 Mode2Bits.OUTDRV)
               else u8 (Z.land mode2 (Z.lnot Mode2Bits.OUTDRV)) in
  WriteRegister Registers.MODE2 mode2.

(** [Pca9685Pwm::SetOutputInvert] *)
Definition SetOutputInvert (inverted : bool) : M HfPwmErr :=
  initialized ← gets is_initialized_;
  if negb initialized then mret PWM_NOT_INITIALIZED else
  '(result, mode2) ← ReadRegister Registers.MODE2;
  if decide (result ≠ PWM_SUCCESS) then mret result else
  let mode2 := if inverted then u8 (Z.lor mode2 Mode2Bits.INVRT)
               else u8 (Z.land mode2 (Z.lnot Mode2Bits.INVRT)) in
  WriteRegister Registers.MODE2 mode2.

(** ** The public interface as data *)

(** One constructor per public member function, with its arguments. *)
Inductive Call : Type :=
  | CallInitialize
  | CallDeinitialize
  | CallConfigureChannel (channel_id : Z) (config : PwmChannelConfig)
  | CallSetDutyCycle (channel_id : Z) (duty : float)
  | CallSetFrequency (channel_id frequency : Z)
  | CallStart (channel_id : Z)
  | CallStop (channel_id : Z)
  | CallGetDutyCycle (channel_id : Z)
  | CallGetFrequency (channel_id : Z)
  | CallIsChannelActive (channel_id : Z)
  | CallGetMaxChannels
  | CallSetPhase (channel_id : Z) (phase_degrees : float)
  | CallConfigureFade (channel_id : Z)
  | CallStartFade (channel_id : Z)
  | CallConfigureComplementary (primary_channel secondary_channel : Z)
  | CallSetDeadTime (channel_id dead_time_ns : Z)
  | CallRegisterCallback (channel_id : Z)
  | CallUnregisterCallback (channel_id : Z)
  | CallStartMultiple (channel_ids : option (list Z)) (num_channels : Z)
  | CallStopMultiple (channel_ids : option (list Z)) (num_channels : Z)
  | CallSetDutyCycleMultiple (channel_ids : option (list Z))
      (duty_cycles : option (list float)) (num_channels : Z)
  | CallSetOutputEnable (enabled : bool)
  | CallConfigureExternalClock (external_clock_freq : Z)
  | CallSetOutputDriver (totem_pole : bool)
  | CallSetOutputInvert (inverted : bool)
  | CallSleep
  | CallWakeup.

(** The effect of a call on the object, its result dropped. *)
Definition perform (c : Call) : M unit :=
  match c with
  | CallInitialize => Initialize;; mret tt
  | CallDeinitialize => Deinitialize;; mret tt
  | CallConfigureChannel ch cfg => ConfigureChannel ch cfg;; mret tt
  | CallSetDutyCycle ch d => SetDutyCycle ch d;; mret tt
  | CallSetFrequency ch f => SetFrequency ch f;; mret tt
  | CallStart ch => Start ch;; mret tt
  | CallStop ch => Stop ch;; mret tt
  | CallGetDutyCycle ch => GetDutyCycle ch;; mret tt
  | CallGetFrequency ch => GetFrequency ch;; mret tt
  | CallIsChannelActive ch => IsChannelActive ch;; mret tt
  | CallGetMaxChannels => GetMaxChannels;; mret tt
  | CallSetPhase ch p => SetPhase ch p;; mret tt
  | CallConfigureFade ch => ConfigureFade ch;; mret tt
  | CallStartFade ch => StartFade ch;; mret tt
  | CallConfigureComplementary p q => ConfigureComplementary p q;; mret tt
  | CallSetDeadTime ch t => SetDeadTime ch t;; mret tt
  | CallRegisterCallback ch => RegisterCallback ch;; mret tt
  | CallUnregisterCallback ch => UnregisterCallback ch;; mret tt
  | CallStartMultiple ids n => StartMultiple ids n;; mret tt
  | CallStopMultiple ids n => StopMultiple ids n;; mret tt
  | CallSetDutyCycleMultiple ids ds n => SetDutyCycleMultiple ids ds n;; mret tt
  | CallSetOutputEnable e => SetOutputEnable e;; mret tt
  | CallConfigureExternalClock f => ConfigureExternalClock f;; mret tt
  | CallSetOutputDriver t => SetOutputDriver t;; mret tt
  | CallSetOutputInvert i => SetOutputInvert i;; mret tt
  | CallSleep => Sleep;; mret tt
  | CallWakeup => Wakeup;; mret tt
  end.

Fixpoint perform_all (cs : list Call) : M unit :=
  match cs with
  | [] => mret tt
  | c :: rest => perform c;; perform_all rest
  end.

(** The [float] arguments of a call are values of the type [float]. *)
Definition Call_floats_valid (c : Call) : Prop :=
  match c with
  | CallConfigureChannel _ cfg => Float32.valid (initial_duty_cycle cfg) = true
  | CallSetDutyCycle _ d => Float32.valid d = true
  | CallSetDutyCycleMultiple _ (Some ds) _ => Forall (fun d => Float32.valid d = true) ds
  | _ => True
  end.

(** ** What the statements below speak about *)

(** The words of the spec for a batch operation: apply [op] to each
    element in order, stop at the first failure and return it. *)
Fixpoint first_failure {X : Type} (op : X -> M HfPwmErr) (xs : list X) : M HfPwmErr :=
  match xs with
  | [] => mret PWM_SUCCESS
  | x :: rest =>
      result ← op x;
      if decide (result ≠ PWM_SUCCESS) then mret result else first_failure op rest
  end.

(** [op] succeeds on every element of [xs] in turn, taking the object
    from [s] to [s']. *)
Inductive all_succeed {X : Type} (op : X -> M HfPwmErr) :
    list X -> Pca9685Pwm B -> Pca9685Pwm B -> Prop :=
  | all_succeed_nil s : all_succeed op [] s s
  | all_succeed_cons x xs s s1 s2 :
      op x s = Some (PWM_SUCCESS, s1) -> all_succeed op xs s1 s2 ->
      all_succeed op (x :: xs) s s2.

(** Invariant I1 of the spec on one channel record and on the store. *)
Definition timing_in_range (c : ChannelState) : Prop :=
  0 <= on_time c <= MAX_PWM_VALUE ∧ 0 <= off_time c <= MAX_PWM_VALUE.

Definition channels_in_range (s : Pca9685Pwm B) : Prop :=
  Forall timing_in_range (channels_ s).

(** The array has [MAX_CHANNELS] elements. *)
Definition well_formed (s : Pca9685Pwm B) : Prop :=
  length (channels_ s) = Z.to_nat MAX_CHANNELS.

(** Every channel-scoped operation returns [e] on [s] for [channel_id],
    whatever its other arguments, and leaves the object as it is. *)
Definition channel_operations_return (e : HfPwmErr) (s : Pca9685Pwm B) (channel_id : Z) : Prop :=
  (∀ config, ConfigureChannel channel_id config s = Some (e, s))
  ∧ (∀ duty, SetDutyCycle channel_id duty s = Some (e, s))
  ∧ (∀ frequency, SetFrequency channel_id frequency s = Some (e, s))
  ∧ Start channel_id s = Some (e, s)
  ∧ Stop channel_id s = Some (e, s)
  ∧ GetDutyCycle channel_id s = Some ((e, None), s)
  ∧ GetFrequency channel_id s = Some ((e, None), s).

(** A computation keeps a property of the object. *)
Definition preserves {A : Type} (P : Pca9685Pwm B -> Prop) (m : M A) : Prop :=
  ∀ s a s', P s -> m s = Some (a, s') -> P s'.

(** A property of the object that does not look at the transport. *)
Definition bus_independent (P : Pca9685Pwm B -> Prop) : Prop :=
  ∀ s b, P s -> P (set_i2c b s).

(** A property of the channel store that the three ways in which the
    driver writes to the store keep: the reset to the defaults, the
    assignment of the active flag, and the assignment of a duty cycle
    with the timing pair the mapper computed for it. *)
Record store_property (Pc : list ChannelState -> Prop) : Prop := {
  store_reset : Pc (replicate (Z.to_nat MAX_CHANNELS) ChannelState_default);
  store_active : ∀ cs i c v,
    Pc cs -> cs !! i = Some c -> Pc (<[i := set_is_active v c]> cs);
  store_duty : ∀ cs i c d on off,
    Pc cs -> cs !! i = Some c -> Float32.valid d = true ->
    DutyCycleToTiming d = Some (on, off) ->
    Pc (<[i := set_duty d on off c]> cs)
}.

(** A transport none of whose operations ever reports a failure. *)
Class Reliable : Prop := {
  Initialize_succeeds : ∀ b, (i2c_Initialize b).1 = I2C_SUCCESS;
  Deinitialize_succeeds : ∀ b, (i2c_Deinitialize b).1 = I2C_SUCCESS;
  Write_succeeds : ∀ address data b, (i2c_Write address data b).1 = I2C_SUCCESS;
  WriteRead_succeeds : ∀ address out b, (i2c_WriteRead address out b).1.1 = I2C_SUCCESS
}.
End Driver.

Arguments M : clear implicits.
Arguments Reliable B {_}.

(** ** Transports used to observe and to exercise the driver *)

(** What a transport was asked to do, with the status it reported. *)
Inductive I2cEvent : Type :=
  | EvInitialize (st : HfI2cErr)
  | EvDeinitialize (st : HfI2cErr)
  | EvWrite (address : Z) (data : list Z) (st : HfI2cErr)
  | EvWriteRead (address : Z) (out : list Z) (st : HfI2cErr) (value : Z).

#[global] Instance I2cEvent_eq_dec : EqDecision I2cEvent.
Proof. solve_decision. Defined.

Definition event_status (e : I2cEvent) : HfI2cErr :=
  match e with
  | EvInitialize st | EvDeinitialize st | EvWrite _ _ st | EvWriteRead _ _ st _ => st
  end.

(** A transport that forwards every operation to another one and appends
    it to a log, oldest first. *)
#[global] Instance Recorder {B : Type} `{!BaseI2c B} : BaseI2c (list I2cEvent * B) := {|
  i2c_Initialize '(log, b) :=
    let '(st, b') := i2c_Initialize b in (st, (log ++ [EvInitialize st], b'));
  i2c_Deinitialize '(log, b) :=
    let '(st, b') := i2c_Deinitialize b in (st, (log ++ [EvDeinitialize st], b'));
  i2c_Write address data '(log, b) :=
    let '(st, b') := i2c_Write address data b in
    (st, (log ++ [EvWrite address data st], b'));
  i2c_WriteRead address out '(log, b) :=
    let '(st, value, b') := i2c_WriteRead address out b in
    (st, value, (log ++ [EvWriteRead address out st value], b'))
|}.

(** The log of the transport attached to a driver. *)
Definition trace {B : Type} (s : Pca9685Pwm (list I2cEvent * B)) : list I2cEvent :=
  match i2c_ s with
  | Some (log, _) => log
  | None => []
  end.

(** A transport with a budget of data transfers: once the budget is used
    up a transfer fails and does not reach the transport behind. *)
#[global] Instance Flaky {B : Type} `{!BaseI2c B} : BaseI2c (nat * B) := {|
  i2c_Initialize '(n, b) := let '(st, b') := i2c_Initialize b in (st, (n, b'));
  i2c_Deinitialize '(n, b) := let '(st, b') := i2c_Deinitialize b in (st, (n, b'));
  i2c_Write address data '(n, b) :=
    match n with
    | O => (I2C_FAILURE, (O, b))
    | S n' => let '(st, b') := i2c_Write address data b in (st, (n', b'))
    end;
  i2c_WriteRead address out '(n, b) :=
    match n with
    | O => (I2C_FAILURE, 0, (O, b))
    | S n' =>
        let '(st, value, b') := i2c_WriteRead address out b in (st, value, (n', b'))
    end
|}.

(** A device that never fails: it keeps the last byte written to each
    register and hands it back on a read; the software reset sent to the
    general-call address clears it. *)
#[global] Instance RegisterFile : BaseI2c (gmap Z Z) := {|
  i2c_Initialize regs := (I2C_SUCCESS, regs);
  i2c_Deinitialize regs := (I2C_SUCCESS, regs);
  i2c_Write address data regs :=
    if bool_decide (address = 0) then (I2C_SUCCESS, ∅)
    else
      match data with
      | [reg; value] => (I2C_SUCCESS, <[reg := value]> regs)
      | _ => (I2C_SUCCESS, regs)
      end;
  i2c_WriteRead address out regs :=
    match out with
    | [reg] => (I2C_SUCCESS, default 0 (regs !! reg), regs)
    | _ => (I2C_SUCCESS, 0, regs)
    end
|}.

(** ** The calculators in the words of the spec *)

(** [round] of the spec: the nearest integer to a rational number. *)
Definition spec_round (q : Q) : Z := Qfloor (q + (1 # 2)).

(** Spec section 4.2: [round(OSC_FREQ / (4096 * frequency_hz) - 1)]
    clamped to [3, 255], in exact arithmetic. *)
Definition ComputePrescale_spec (frequency_hz : Z) : Z :=
  Z.max 3 (Z.min 255
    (spec_round (inject_Z INTERNAL_OSC_FREQ / inject_Z (4096 * frequency_hz) - 1))).

(** Spec section 4.3: the timing pair for a duty cycle, in exact
    arithmetic on the number the float denotes. *)
Definition ComputeTiming_spec (duty_cycle : float) : Z * Z :=
  let d := Float32.to_Q duty_cycle in
  if Qle_bool d 0 then (0, 4095)
  else if Qle_bool 1 d then (4095, 0)
  else (0, spec_round (d * 4095)).

(** The duty cycles 0.25, 0.5 and 0.075 (the latter rounded to [float],
    as the literal [0.075f] of the usage example). *)
Definition quarter : float := S754_finite false 8388608 (-25).
Definition half : float := S754_finite false 8388608 (-24).
Definition servo_neutral : float := S754_finite false 10066330 (-27).

(** The checks run over the whole frequency range. *)
Definition prescale_agrees (frequency_hz : Z) : bool :=
  match CalculatePrescale frequency_hz with
  | Some p => bool_decide (3 <= p <= 255) && bool_decide (p = ComputePrescale_spec frequency_hz)
  | None => false
  end.

Definition prescale_step_down (frequency_hz : Z) : bool :=
  match CalculatePrescale frequency_hz, CalculatePrescale (frequency_hz + 1) with
  | Some p, Some p' => bool_decide (p' <= p)
  | _, _ => false
  end.


(** ** Statements about recorded transfers *)

Definition event_ok (e : I2cEvent) : Prop := event_status e = I2C_SUCCESS.

(** The transfers of one call and its result, when the call aborts at the
    first error: either no transfer failed, or exactly the last one did
    and the call returned the hardware error. *)
Definition aborted_at_first_error (events : list I2cEvent) (result : HfPwmErr) : Prop :=
  Forall event_ok events
  ∨ ∃ before failed,
      events = before ++ [failed] ∧ Forall event_ok before
      ∧ ¬ event_ok failed ∧ result = PWM_HARDWARE_ERROR.

Section Recorded.
Context {B : Type} `{!BaseI2c B}.

(** Every run of [m] aborts at the first error; [code] extracts the
    status from what [m] returns. *)
Definition aborts_at_first_error {A : Type} (code : A -> HfPwmErr)
    (m : M (list I2cEvent * B) A) : Prop :=
  ∀ s a s', m s = Some (a, s') ->
    ∃ events, trace s' = trace s ++ events ∧ aborted_at_first_error events (code a).

(** No run of [m] makes a transfer. *)
Definition silent {A : Type} (m : M (list I2cEvent * B) A) : Prop :=
  ∀ t, preserves (fun s => trace s = t) m.

(** A transport operation that records exactly one event, carrying the
    status it returns. *)
Definition records_one (op : list I2cEvent * B -> HfI2cErr * (list I2cEvent * B)) : Prop :=
  ∀ log b, ∃ e b', op (log, b) = (event_status e, (log ++ [e], b')).
End Recorded.

(** The object [s'] is [s] but for the state of the transport, which is
    there. *)
Definition bus_advanced {B : Type} (s s' : Pca9685Pwm B) : Prop :=
  i2c_address_ s' = i2c_address_ s
  ∧ is_initialized_ s' = is_initialized_ s
  ∧ channels_ s' = channels_ s
  ∧ i2c_ s' ≠ None.

(** The four register writes of [SetChannelTiming], all successful. *)
Definition timing_writes (address channel_id on off : Z) : list I2cEvent :=
  let base_reg := u8 (Registers.LED0_ON_L + channel_id * 4) in
  [EvWrite address [base_reg; u8 (Z.land on 0xFF)] I2C_SUCCESS;
   EvWrite address [u8 (base_reg + 1); u8 (Z.land (Z.shiftr on 8) 0xFF)] I2C_SUCCESS;
   EvWrite address [u8 (base_reg + 2); u8 (Z.land off 0xFF)] I2C_SUCCESS;
   EvWrite address [u8 (base_reg + 3); u8 (Z.land (Z.shiftr off 8) 0xFF)] I2C_SUCCESS].

(** ** The sleep/wake bracket of a prescale change *)

(** The value written to MODE1 to put the device to sleep, from the byte
    read back from MODE1, and the value written to wake it up again. *)
Definition sleep_mode1 (raw : Z) : Z := u8 (Z.lor (u8 raw) Mode1Bits.SLEEP).
Definition wake_mode1 (mode1 : Z) : Z := u8 (Z.land mode1 (Z.lnot Mode1Bits.SLEEP)).

(** The transfers one call of [SetFrequency] can make: none, or the
    read-modify-write sequence cut short after the first failure. *)
Inductive SetFrequency_transfers (address prescale : Z) : list I2cEvent -> Prop :=
  | transfers_none :
      SetFrequency_transfers address prescale []
  | transfers_read_failed raw :
      SetFrequency_transfers address prescale
        [EvWriteRead address [Registers.MODE1] I2C_FAILURE raw]
  | transfers_sleep_failed raw :
      SetFrequency_transfers address prescale
        [EvWriteRead address [Registers.MODE1] I2C_SUCCESS raw;
         EvWrite address [Registers.MODE1; sleep_mode1 raw] I2C_FAILURE]
  | transfers_prescale_failed raw :
      SetFrequency_transfers address prescale
        [EvWriteRead address [Registers.MODE1] I2C_SUCCESS raw;
         EvWrite address [Registers.MODE1; sleep_mode1 raw] I2C_SUCCESS;
         EvWrite address [Registers.PRE_SCALE; prescale] I2C_FAILURE]
  | transfers_complete raw st :
      SetFrequency_transfers address prescale
        [EvWriteRead address [Registers.MODE1] I2C_SUCCESS raw;
         EvWrite address [Registers.MODE1; sleep_mode1 raw] I2C_SUCCESS;
         EvWrite address [Registers.PRE_SCALE; prescale] I2C_SUCCESS;
         EvWrite address [Registers.MODE1; wake_mode1 (sleep_mode1 raw)] st].

(** A write to PRE_SCALE; a successful write to MODE1 with the SLEEP bit
    (bit 4) set; a write to MODE1 with the SLEEP bit clear. *)
Definition prescale_write (e : I2cEvent) : bool :=
  match e with
  | EvWrite _ [reg; _] _ => bool_decide (reg = Registers.PRE_SCALE)
  | _ => false
  end.

Definition sleep_write (e : I2cEvent) : bool :=
  match e with
  | EvWrite _ [reg; mode1] st =>
      bool_decide (reg = Registers.MODE1) && Z.testbit mode1 4
      && bool_decide (st = I2C_SUCCESS)
  | _ => false
  end.

Definition wake_write (e : I2cEvent) : bool :=
  match e with
  | EvWrite _ [reg; mode1] _ =>
      bool_decide (reg = Registers.MODE1) && negb (Z.testbit mode1 4)
  | _ => false
  end.

(** The spec's words: every PRE_SCALE write among the transfers of a call
    has a sleep write before it and a wake write after it. *)
Definition prescale_bracketed (events : list I2cEvent) : Prop :=
  ∀ i e, events !! i = Some e -> prescale_write e = true ->
    (∃ j e1, (j < i)%nat ∧ events !! j = Some e1 ∧ sleep_write e1 = true)
    ∧ (∃ k e2, (i < k)%nat ∧ events !! k = Some e2 ∧ wake_write e2 = true).

(** What the code guarantees: a PRE_SCALE write comes right after a
    successful sleep write; when it succeeds the wake write is the next
    transfer, and when it fails it is the last transfer of the call. *)
Definition prescale_guarded (events : list I2cEvent) : Prop :=
  ∀ i e, events !! i = Some e -> prescale_write e = true ->
    (∃ j e1, i = S j ∧ events !! j = Some e1 ∧ sleep_write e1 = true)
    ∧ (event_status e = I2C_SUCCESS ->
       ∃ e2, events !! S i = Some e2 ∧ wake_write e2 = true)
    ∧ (event_status e ≠ I2C_SUCCESS -> events !! S i = None).

(** ** Example objects *)

(** A driver as the constructor leaves it, attached to a register file
    whose transfers are recorded. *)
Definition fresh_driver : Pca9685Pwm (list I2cEvent * gmap Z Z) :=
  Pca9685Pwm_new (Some ([], ∅)) DEFAULT_I2C_ADDRESS (-1).

(** An object in the initialized state, attached to a register file
    behind a transport with a budget of [budget] transfers. *)
Definition initialized_driver (budget : nat) : Pca9685Pwm (list I2cEvent * (nat * gmap Z Z)) :=
  {| i2c_ := Some ([], (budget, ∅));
     i2c_address_ := DEFAULT_I2C_ADDRESS;
     output_enable_pin_ := -1;
     is_initialized_ := true;
     current_frequency_ := 1000;
     prescale_value_ := 5;
     channels_ := replicate (Z.to_nat MAX_CHANNELS) ChannelState_default |}.

(** An object in the initialized state, attached to a register file. *)
Definition reliable_driver : Pca9685Pwm (list I2cEvent * gmap Z Z) :=
  {| i2c_ := Some ([], ∅);
     i2c_address_ := DEFAULT_I2C_ADDRESS;
     output_enable_pin_ := -1;
     is_initialized_ := true;
     current_frequency_ := 1000;
     prescale_value_ := 5;
     channels_ := replicate (Z.to_nat MAX_CHANNELS) ChannelState_default |}.

(** ** What an operation leaves alone *)

(** The object [s'] differs from [s] at most in the state of the
    transport. *)
Definition same_fields {B : Type} (s s' : Pca9685Pwm B) : Prop :=
  i2c_address_ s' = i2c_address_ s
  ∧ output_enable_pin_ s' = output_enable_pin_ s
  ∧ is_initialized_ s' = is_initialized_ s
  ∧ current_frequency_ s' = current_frequency_ s
  ∧ prescale_value_ s' = prescale_value_ s
  ∧ channels_ s' = channels_ s.

(** What [Start] and [Stop] do not assign in a channel record. *)
Definition stored_timing (c : ChannelState) : float * Z * Z :=
  (duty_cycle c, on_time c, off_time c).

(** The configuration of the usage example in the header: a servo
    channel at 50 Hz with the neutral pulse. *)
Definition servo_config : PwmChannelConfig :=
  {| frequency_hz := 50; resolution_bits := 12; initial_duty_cycle := servo_neutral |}.

(** ** Read-modify-write of a mode register *)

(** The byte written back for a byte [v] read from a mode register: [v]
    with the bits of [mask] set ([mode |= mask]) or cleared
    ([mode &= ~mask]), as a [uint8_t]. *)
Definition update_bits (mask : Z) (level : bool) (v : Z) : Z :=
  if level then u8 (Z.lor v mask) else u8 (Z.land v (Z.lnot mask)).

(** The operations that update one bit field of MODE1 or MODE2, each
    with its register, its mask and the level it gives the bits. *)
Inductive mode_operation {B : Type} `{!BaseI2c B} :
    M B HfPwmErr -> Z -> Z -> bool -> Prop :=
  | mode_Sleep :
      mode_operation Sleep Registers.MODE1 Mode1Bits.SLEEP true
  | mode_Wakeup :
      mode_operation Wakeup Registers.MODE1 Mode1Bits.SLEEP false
  | mode_ConfigureExternalClock external_clock_freq :
      mode_operation (ConfigureExternalClock external_clock_freq)
        Registers.MODE1 Mode1Bits.EXTCLK true
  | mode_SetOutputDriver totem_pole :
      mode_operation (SetOutputDriver totem_pole)
        Registers.MODE2 Mode2Bits.OUTDRV totem_pole
  | mode_SetOutputInvert inverted :
      mode_operation (SetOutputInvert inverted)
        Registers.MODE2 Mode2Bits.INVRT inverted.

(** The transfers of a read-modify-write of the register [reg], with the
    result of the call: nothing without a transport, the read alone when
    it fails, and otherwise the read and the write of the updated byte. *)
Inductive read_modify_write (address reg mask : Z) (level : bool) :
    list I2cEvent -> HfPwmErr -> Prop :=
  | rmw_no_transport :
      read_modify_write address reg mask level [] PWM_HARDWARE_ERROR
  | rmw_read_failed raw :
      read_modify_write address reg mask level
        [EvWriteRead address [reg] I2C_FAILURE raw] PWM_HARDWARE_ERROR
  | rmw_write_failed raw :
      read_modify_write address reg mask level
        [EvWriteRead address [reg] I2C_SUCCESS raw;
         EvWrite address [reg; update_bits mask level (u8 raw)] I2C_FAILURE]
        PWM_HARDWARE_ERROR
  | rmw_written raw :
      read_modify_write address reg mask level
        [EvWriteRead address [reg] I2C_SUCCESS raw;
         EvWrite address [reg; update_bits mask level (u8 raw)] I2C_SUCCESS]
        PWM_SUCCESS.

(** The object a computation leaves behind when it returns. *)
Definition state_after {B A : Type} (m : M B A) (s : Pca9685Pwm B) : Pca9685Pwm B :=
  match m s with
  | Some (_, s') => s'
  | None => s
  end.

(** An object in the initialized state that was constructed with a null
    transport pointer. *)
Definition detached_driver : Pca9685Pwm (gmap Z Z) :=
  {| i2c_ := None;
     i2c_address_ := DEFAULT_I2C_ADDRESS;
     output_enable_pin_ := -1;
     is_initialized_ := true;
     current_frequency_ := 1000;
     prescale_value_ := 5;
     channels_ := replicate (Z.to_nat MAX_CHANNELS) ChannelState_default |}.

(** ** What an uninitialized driver sends *)

(** The two transfers [Initialize] makes before it configures the
    device: the initialization of the transport and the software reset
    on the general-call address. *)
Definition startup_event (e : I2cEvent) : Prop :=
  match e with
  | EvInitialize _ => True
  | EvWrite address data _ => address = 0 ∧ data = [0; 6]
  | _ => False
  end.

(** The driver is not initialized and has sent nothing but start-up
    transfers since its transport had recorded [sent]. *)
Definition still_starting {B : Type} (sent : list I2cEvent)
    (s : Pca9685Pwm (list I2cEvent * B)) : Prop :=
  is_initialized_ s = false
  ∧ ∃ events, trace s = sent ++ events ∧ Forall startup_event events.

(** ** The configuration of the object *)

(** The cached frequency and prescale value of [s] are those of [s0], or
    a frequency within the supported range together with the prescale
    value the calculator gives for it. *)
Definition frequency_cache_kept {B : Type} (s0 s : Pca9685Pwm B) : Prop :=
  (current_frequency_ s = current_frequency_ s0
   ∧ prescale_value_ s = prescale_value_ s0)
  ∨ (MIN_FREQUENCY <= current_frequency_ s <= MAX_FREQUENCY
     ∧ CalculatePrescale (current_frequency_ s) = Some (prescale_value_ s)).

(** What [s] has kept of [s0]: the address, the output-enable pin, the
    number of channel records and the frequency cache. *)
Definition configuration_kept {B : Type} (s0 s : Pca9685Pwm B) : Prop :=
  i2c_address_ s = i2c_address_ s0
  ∧ output_enable_pin_ s = output_enable_pin_ s0
  ∧ length (channels_ s) = Z.to_nat MAX_CHANNELS
  ∧ frequency_cache_kept s0 s.

(** ** The spec's words for a multi-step operation *)

Section Steps.
Context {B : Type} `{!BaseI2c B}.

(** A step of a multi-step operation: it is handed the register byte
    the operation holds at that point and returns its result together
    with the byte to hand on. *)
Definition Step : Type := Z -> M B (HfPwmErr * Z).

(** The step that makes a call and hands the byte on as it is, the step
    that reads a register into the byte, and the step that updates the
    byte and writes it to a register. *)
Definition step_call (m : M B HfPwmErr) : Step :=
  fun v => result ← m; mret (result, v).

Definition step_read (reg : Z) : Step := fun _ => ReadRegister reg.

Definition step_write (reg : Z) (g : Z -> Z) : Step :=
  fun v => result ← WriteRegister reg (g v); mret (result, g v).

(** Run the steps in order; abort at the first step that returns an
    error and return that error; return success when every step has
    succeeded. *)
Fixpoint in_sequence (steps : list Step) (v : Z) : M B HfPwmErr :=
  match steps with
  | [] => mret PWM_SUCCESS
  | step :: rest =>
      '(result, v') ← step v;
      if decide (result ≠ PWM_SUCCESS) then mret result else in_sequence rest v'
  end.

(** A multi-step operation that records its outcome in the object once
    every step has succeeded. *)
Definition in_sequence_then (steps : list Step) (finish : M B unit) : M B HfPwmErr :=
  result ← in_sequence steps 0;
  (if decide (result = PWM_SUCCESS) then finish else mret tt);;
  mret result.

(** The steps all succeed in turn, taking the byte and the object from
    [(v, s)] to [(v', s')]. *)
Inductive steps_succeed :
    list Step -> Z -> Pca9685Pwm B -> Z -> Pca9685Pwm B -> Prop :=
  | steps_succeed_nil v s : steps_succeed [] v s v s
  | steps_succeed_cons step rest v s v1 s1 v2 s2 :
      step v s = Some ((PWM_SUCCESS, v1), s1) -> steps_succeed rest v1 s1 v2 s2 ->
      steps_succeed (step :: rest) v s v2 s2.

(** [op] is run on every element of [xs] in turn, whatever it returns,
    taking the object from [s] to [s']. *)
Inductive all_run {X : Type} (op : X -> M B HfPwmErr) :
    list X -> Pca9685Pwm B -> Pca9685Pwm B -> Prop :=
  | all_run_nil s : all_run op [] s s
  | all_run_cons x xs s r s1 s2 :
      op x s = Some (r, s1) -> all_run op xs s1 s2 -> all_run op (x :: xs) s s2.

(** The steps of the multi-step operations. *)
Definition SetChannelTiming_steps (channel_id on_time off_time : Z) : list Step :=
  let base_reg := u8 (Registers.LED0_ON_L + channel_id * 4) in
  [step_call (WriteRegister base_reg (u8 (Z.land on_time 0xFF)));
   step_call (WriteRegister (u8 (base_reg + 1)) (u8 (Z.land (Z.shiftr on_time 8) 0xFF)));
   step_call (WriteRegister (u8 (base_reg + 2)) (u8 (Z.land off_time 0xFF)));
   step_call (WriteRegister (u8 (base_reg + 3)) (u8 (Z.land (Z.shiftr off_time 8) 0xFF)))].

Definition SetFrequency_steps (prescale : Z) : list Step :=
  [step_read Registers.MODE1;
   step_write Registers.MODE1 (update_bits Mode1Bits.SLEEP true);
   step_call (WriteRegister Registers.PRE_SCALE prescale);
   step_write Registers.MODE1 (update_bits Mode1Bits.SLEEP false)].

Definition mode_steps (reg mask : Z) (level : bool) : list Step :=
  [step_read reg; step_write reg (update_bits mask level)].

Definition ConfigureChannel_steps (channel_id : Z) (config : PwmChannelConfig) : list Step :=
  [step_call (SetFrequency channel_id (frequency_hz config));
   step_call (SetDutyCycle channel_id (initial_duty_cycle config))].

Definition Initialize_steps : list Step :=
  [step_call (st ← i2c_call i2c_Initialize;
              mret (if decide (st ≠ I2C_SUCCESS) then PWM_HARDWARE_ERROR else PWM_SUCCESS));
   step_call Reset;
   step_call (frequency ← gets current_frequency_; SetFrequency 0 frequency);
   step_call (WriteRegister Registers.MODE2 Mode2Bits.OUTDRV);
   step_call Wakeup].

(** The object [Deinitialize] leaves behind once its calls of [Stop] and
    [Sleep] have left [s]: the transport, when there is one, is
    deinitialized, and the flag is cleared. *)
Definition released (s : Pca9685Pwm B) : Pca9685Pwm B :=
  set_is_initialized false
    (match i2c_ s with
     | Some b => set_i2c (i2c_Deinitialize b).2 s
     | None => s
     end).
End Steps.

(** The transfers of a [Stop] of the channel start with the write of the
    low byte of its on count; those of [Sleep] start with the read of
    MODE1. *)
Definition stop_begun (address channel_id : Z) (events : list I2cEvent) : Prop :=
  ∃ st rest,
    events = EvWrite address [u8 (Registers.LED0_ON_L + channel_id * 4); 0] st :: rest.

Definition sleep_begun (address : Z) (events : list I2cEvent) : Prop :=
  ∃ st raw rest, events = EvWriteRead address [Registers.MODE1] st raw :: rest.

(* ===================================================================== *)
(** * Part II: properties                                                 *)
(* ===================================================================== *)

(** ** Binary32 arithmetic *)

Module Float32Facts.
Import Float32.

Lemma digits2_pos_size (p : positive) : digits2_pos p = Pos.size p.
Proof. induction p as [p IH|p IH|]; simpl; by rewrite ?IH. Qed.

Lemma digits2_pos_gt (p : positive) : Z.pos p < 2 ^ Z.pos (digits2_pos p).
Proof.
  rewrite digits2_pos_size.
  pose proof (Pos.size_gt p) as H.
  rewrite <- Pos2Z.inj_pow. lia.
Qed.

Lemma digits2_pos_le (p : positive) (n : Z) :
  0 <= n -> Z.pos p < 2 ^ n -> Z.pos (digits2_pos p) <= n.
Proof.
  intros Hn Hp. rewrite digits2_pos_size.
  pose proof (Pos.size_le p) as Hle.
  assert (2 ^ Z.pos (Pos.size p) <= 2 * Z.pos p) as H2.
  { rewrite <- Pos2Z.inj_pow. lia. }
  destruct (Z_lt_le_dec n (Z.pos (Pos.size p))) as [Hlt|]; [|done].
  assert (2 ^ (n + 1) <= 2 ^ Z.pos (Pos.size p)) by (apply Z.pow_le_mono_r; lia).
  rewrite Z.pow_add_r in * by lia. lia.
Qed.

Lemma Zdigits2_le (m n : Z) : 0 <= m < 2 ^ n -> 0 <= n -> Zdigits2 m <= n.
Proof.
  intros [Hm0 Hm] Hn. destruct m as [|p|p]; simpl; [done| |lia].
  by apply digits2_pos_le.
Qed.

Lemma shr_m_shr_1 (mrs : shr_record) :
  0 <= shr_m mrs -> shr_m (shr_1 mrs) = shr_m mrs / 2.
Proof.
  destruct mrs as [m r s]; simpl. intros Hm.
  destruct m as [|[p|p|]|p]; simpl; try lia; try done.
  - rewrite Pos2Z.inj_xI. apply Z.div_unique with 1; lia.
  - rewrite Pos2Z.inj_xO. apply Z.div_unique with 0; lia.
Qed.

Lemma pow2_pos (n : Z) : 0 < 2 ^ n ∨ (n < 0 ∧ 2 ^ n = 0).
Proof.
  destruct (Z_lt_le_dec n 0); [right|left].
  - split; [done|]. by apply Z.pow_neg_r.
  - by apply Z.pow_pos_nonneg.
Qed.

Lemma pow2_gt0 (n : Z) : 0 <= n -> 0 < 2 ^ n.
Proof. intros. by apply Z.pow_pos_nonneg. Qed.

Lemma shr_m_iter_pos (p : positive) (mrs : shr_record) :
  0 <= shr_m mrs -> shr_m (SpecFloat.iter_pos shr_1 p mrs) = shr_m mrs / 2 ^ Z.pos p.
Proof.
  revert mrs. induction p as [p IH|p IH|]; intros mrs Hm; simpl.
  - assert (0 <= shr_m (shr_1 mrs)) as H1.
    { rewrite shr_m_shr_1 by done. by apply Z.div_pos. }
    assert (0 <= shr_m (SpecFloat.iter_pos shr_1 p (shr_1 mrs))) as H2.
    { rewrite IH by done. apply Z.div_pos; [done|]. by apply pow2_gt0. }
    rewrite !IH, shr_m_shr_1 by done.
    pose proof (pow2_gt0 (Z.pos p) ltac:(lia)) as Hp.
    replace (Z.pos p~1) with (1 + (Z.pos p + Z.pos p)) by lia.
    rewrite !Z.pow_add_r, Z.pow_1_r by lia.
    rewrite <- !Z.div_div by lia. done.
  - assert (0 <= shr_m (SpecFloat.iter_pos shr_1 p mrs)) as H2.
    { rewrite IH by done. apply Z.div_pos; [done|]. by apply pow2_gt0. }
    rewrite !IH by done.
    pose proof (pow2_gt0 (Z.pos p) ltac:(lia)) as Hp.
    replace (Z.pos p~0) with (Z.pos p + Z.pos p) by lia.
    rewrite !Z.pow_add_r by lia.
    rewrite <- !Z.div_div by lia. done.
  - by rewrite shr_m_shr_1.
Qed.

Lemma shr_m_of_loc (m : Z) (l : location) : shr_m (shr_record_of_loc m l) = m.
Proof. by destruct l as [|[]]. Qed.

(** One alignment step of the rounding: the mantissa is divided by the
    power of two that brings the exponent up to the target one. *)
Lemma shr_fexp_spec (m e : Z) (l : location) :
  0 <= m ->
  ∃ mrs e', shr_fexp prec emax m e l = (mrs, e')
    ∧ e' = Z.max e (fexp prec emax (Zdigits2 m + e))
    ∧ shr_m mrs = m / 2 ^ (e' - e)
    ∧ (e' = e -> mrs = shr_record_of_loc m l).
Proof.
  intros Hm. unfold shr_fexp, shr.
  destruct (fexp prec emax (Zdigits2 m + e) - e) as [|p|p] eqn:Hd.
  - eexists _, _. split; [done|]. split; [lia|].
    split; [|done]. rewrite shr_m_of_loc.
    replace (e - e) with 0 by lia. by rewrite Z.pow_0_r, Z.div_1_r.
  - eexists _, _. split; [done|]. split; [lia|]. split; [|lia].
    rewrite shr_m_iter_pos by (by rewrite shr_m_of_loc).
    rewrite shr_m_of_loc. do 2 f_equal. lia.
  - eexists _, _. split; [done|]. split; [lia|].
    split; [|done]. rewrite shr_m_of_loc.
    replace (e - e) with 0 by lia. by rewrite Z.pow_0_r, Z.div_1_r.
Qed.

Lemma round_nearest_even_bounds (m : Z) (l : location) :
  m <= round_nearest_even m l <= m + 1.
Proof.
  unfold round_nearest_even. destruct l as [|[]]; try lia.
  destruct (Z.even m); lia.
Qed.

Lemma round_nearest_even_exact (m : Z) :
  round_nearest_even m (loc_of_shr_record (shr_record_of_loc m loc_Exact)) = m.
Proof. done. Qed.

Lemma fexp_eq (x : Z) : fexp prec emax x = Z.max (x - 24) (-149).
Proof. done. Qed.

(** Rounding a positive number that lies below the integer [c] and has
    a fractional part gives a float whose integer part is at most [c]:
    round-to-nearest never crosses a representable bound. *)
Lemma binary_round_aux_below (mx : positive) (ex c : Z) :
  ex < 0 -> 0 <= c < 2 ^ 16 -> Z.pos mx < c * 2 ^ (- ex) ->
  ∃ off, to_uint 16 (binary_round_aux prec emax false (Z.pos mx) ex loc_Exact) = Some off
         ∧ 0 <= off <= c.
Proof.
  intros Hex Hc Hmx. unfold binary_round_aux.
  destruct (shr_fexp_spec (Z.pos mx) ex loc_Exact) as (mrs1 & e1 & -> & He1 & Hm1 & Hsame1);
    [lia|].
  pose proof (pow2_gt0 (- ex) ltac:(lia)) as Hpex.
  assert (Z.pos mx < 2 ^ (16 - ex)) as Hmx16.
  { replace (16 - ex) with (16 + - ex) by lia. rewrite Z.pow_add_r by lia. nia. }
  assert (Zdigits2 (Z.pos mx) + ex <= 16) as Hd1.
  { pose proof (Zdigits2_le (Z.pos mx) (16 - ex)). lia. }
  rewrite fexp_eq in He1.
  assert (ex <= e1 < 0) as He1b by lia.
  pose proof (pow2_gt0 (- e1) ltac:(lia)) as Hpe1.
  set (m1 := round_nearest_even (shr_m mrs1) (loc_of_shr_record mrs1)).
  assert (0 <= m1 <= c * 2 ^ (- e1)) as Hm1b.
  { destruct (decide (e1 = ex)) as [Heq|Hne].
    - unfold m1. rewrite (Hsame1 Heq). rewrite round_nearest_even_exact.
      rewrite Heq. lia.
    - pose proof (round_nearest_even_bounds (shr_m mrs1) (loc_of_shr_record mrs1)) as Hr.
      fold m1 in Hr. rewrite Hm1 in Hr.
      pose proof (pow2_gt0 (e1 - ex) ltac:(lia)) as Hp.
      assert (0 <= Z.pos mx / 2 ^ (e1 - ex)) by (apply Z.div_pos; lia).
      assert (Z.pos mx / 2 ^ (e1 - ex) < c * 2 ^ (- e1)); [|lia].
      apply Z.div_lt_upper_bound; [done|].
      replace (- ex) with ((e1 - ex) + - e1) in Hmx by lia.
      rewrite Z.pow_add_r in Hmx by lia. lia. }
  destruct (shr_fexp_spec m1 e1 loc_Exact) as (mrs2 & e2 & -> & He2 & Hm2 & _); [lia|].
  assert (m1 < 2 ^ (17 - e1)) as Hm17.
  { replace (17 - e1) with (17 + - e1) by lia. rewrite Z.pow_add_r by lia. nia. }
  assert (Zdigits2 m1 + e1 <= 17) as Hd2.
  { pose proof (Zdigits2_le m1 (17 - e1)). lia. }
  rewrite fexp_eq in He2.
  assert (e1 <= e2 < 0) as He2b by lia.
  pose proof (pow2_gt0 (e2 - e1) ltac:(lia)) as Hp21.
  pose proof (pow2_gt0 (- e2) ltac:(lia)) as Hpe2.
  assert (0 <= shr_m mrs2) as Hnn by (rewrite Hm2; apply Z.div_pos; lia).
  assert (shr_m mrs2 / 2 ^ (- e2) = m1 / 2 ^ (- e1)) as Hquot.
  { rewrite Hm2, Z.div_div by lia. rewrite <- Z.pow_add_r by lia.
    do 2 f_equal. lia. }
  assert (0 <= m1 / 2 ^ (- e1) <= c) as Hfinal.
  { split; [apply Z.div_pos; lia|].
    assert (m1 / 2 ^ (- e1) < c + 1); [|lia].
    apply Z.div_lt_upper_bound; [done|]. nia. }
  destruct (shr_m mrs2) as [|m2|m2] eqn:Hs2; [| |lia].
  - exists 0. simpl. split; [done|lia].
  - replace (e2 <=? emax - prec) with true
      by (symmetry; apply Z.leb_le; unfold emax, prec; lia).
    exists (m1 / 2 ^ (- e1)). split; [|done].
    unfold to_uint, trunc_magnitude.
    replace (0 <=? e2) with false by (symmetry; apply Z.leb_gt; lia).
    rewrite Hquot. rewrite bool_decide_eq_true_2; [done|lia].
Qed.

(** A valid float below one has a mantissa of at most [prec] digits and
    an exponent that puts all of them behind the binary point. *)
Lemma below_one_inv (m : positive) (e : Z) :
  bounded prec emax m e = true ->
  ltb (S754_finite false m e) one = true ->
  e <= -24 ∧ Z.pos m < 2 ^ (- e).
Proof.
  unfold bounded, canonical_mantissa. rewrite andb_true_iff, Z.eqb_eq, fexp_eq.
  intros [Hcan _].
  change one with (S754_finite false 8388608 (-23)).
  unfold ltb, SFltb, SFcompare.
  pose proof (digits2_pos_gt m) as Hd.
  destruct (Z.compare_spec e (-23)) as [->|Hlt|Hgt]; try done.
  - intros Hcmp.
    assert (Z.pos (digits2_pos m) = 24) as Hd24 by lia.
    rewrite Hd24 in Hd.
    assert (Z.pos m < 8388608).
    { by destruct (Pos.compare_cont Eq m 8388608) eqn:Hc. }
    exfalso.
    assert (Z.pos (digits2_pos m) <= 23) by (apply digits2_pos_le; [lia|done]).
    lia.
  - intros _. split; [lia|].
    assert (Z.pos (digits2_pos m) <= - e) by lia.
    eapply Z.lt_le_trans; [exact Hd|]. apply Z.pow_le_mono_r; lia.
Qed.

(** The conversion in [DutyCycleToTiming] is defined on every duty cycle
    strictly between zero and one, and stays below [MAX_PWM_VALUE]. *)
Lemma mul_4095_to_uint (m : positive) (e : Z) :
  bounded prec emax m e = true ->
  ltb (S754_finite false m e) one = true ->
  ∃ off, to_uint 16 (mul (S754_finite false m e) (of_Z 4095)) = Some off
         ∧ 0 <= off <= 4095.
Proof.
  intros Hb Hlt. destruct (below_one_inv m e Hb Hlt) as [He Hm].
  change (of_Z 4095) with (S754_finite false 16773120 (-12)).
  unfold mul, SFmul. simpl xorb.
  apply binary_round_aux_below; [lia|lia|].
  rewrite Pos2Z.inj_mul.
  replace (- (e + -12)) with (- e + 12) by lia.
  rewrite Z.pow_add_r by lia.
  pose proof (pow2_gt0 (- e) ltac:(lia)).
  change (2 ^ 12) with 4096. lia.
Qed.
End Float32Facts.

(** ** The frequency calculator *)

Lemma prescale_agrees_all (f : Z) :
  MIN_FREQUENCY <= f <= MAX_FREQUENCY -> prescale_agrees f = true.
Proof.
  intros Hf.
  assert (forallb prescale_agrees (seqZ 24 1503) = true) as Hall by (vm_compute; reflexivity).
  rewrite forallb_forall in Hall. apply Hall.
  apply list_elem_of_In, elem_of_seqZ. unfold MIN_FREQUENCY, MAX_FREQUENCY in Hf. lia.
Qed.

Lemma prescale_step_down_all (f : Z) :
  MIN_FREQUENCY <= f < MAX_FREQUENCY -> prescale_step_down f = true.
Proof.
  intros Hf.
  assert (forallb prescale_step_down (seqZ 24 1502) = true) as Hall by (vm_compute; reflexivity).
  rewrite forallb_forall in Hall. apply Hall.
  apply list_elem_of_In, elem_of_seqZ. unfold MIN_FREQUENCY, MAX_FREQUENCY in Hf. lia.
Qed.

Lemma CalculatePrescale_defined (f : Z) :
  MIN_FREQUENCY <= f <= MAX_FREQUENCY ->
  ∃ p, CalculatePrescale f = Some p ∧ 3 <= p <= 255 ∧ p = ComputePrescale_spec f.
Proof.
  intros Hf. pose proof (prescale_agrees_all f Hf) as H.
  unfold prescale_agrees in H. destruct (CalculatePrescale f) as [p|]; [|done].
  apply andb_true_iff in H as [H1 H2].
  apply bool_decide_eq_true in H1, H2. by exists p.
Qed.

Lemma CalculatePrescale_antitone (n : nat) (f : Z) (p q : Z) :
  MIN_FREQUENCY <= f -> f + Z.of_nat n <= MAX_FREQUENCY ->
  CalculatePrescale f = Some p -> CalculatePrescale (f + Z.of_nat n) = Some q ->
  q <= p.
Proof.
  revert q. induction n as [|n IH]; intros q Hlo Hhi Hp Hq.
  - replace (f + Z.of_nat 0) with f in Hq by lia. assert (p = q) by congruence. lia.
  - destruct (CalculatePrescale_defined (f + Z.of_nat n)) as (r & Hr & _); [lia|].
    pose proof (prescale_step_down_all (f + Z.of_nat n) ltac:(lia)) as Hstep.
    unfold prescale_step_down in Hstep. rewrite Hr in Hstep.
    replace (f + Z.of_nat n + 1) with (f + Z.of_nat (S n)) in Hstep by lia.
    rewrite Hq in Hstep. apply bool_decide_eq_true in Hstep.
    specialize (IH r Hlo ltac:(lia) Hp Hr). lia.
Qed.

(** C4. For every frequency in [24, 1526] Hz the prescale calculator
    returns a value in [3, 255], equal to
    round(25000000 / (4096 * f) - 1) clamped to [3, 255], and the value
    does not increase when the frequency increases within the range. *)
Theorem CalculatePrescale_correct (f : Z) :
  MIN_FREQUENCY <= f <= MAX_FREQUENCY ->
  ∃ p, CalculatePrescale f = Some p
       ∧ 3 <= p <= 255
       ∧ p = ComputePrescale_spec f
       ∧ ∀ g, f <= g <= MAX_FREQUENCY ->
              ∃ q, CalculatePrescale g = Some q ∧ q <= p.
Proof.
  intros Hf. destruct (CalculatePrescale_defined f Hf) as (p & Hp & Hr & Hs).
  exists p. repeat split; try done; try lia.
  intros g Hg. destruct (CalculatePrescale_defined g) as (q & Hq & _); [lia|].
  exists q. split; [done|].
  apply (CalculatePrescale_antitone (Z.to_nat (g - f)) f p q); try lia; try done.
  by replace (f + Z.of_nat (Z.to_nat (g - f))) with g by lia.
Qed.

Lemma CalculatePrescale_correct_witness :
  MIN_FREQUENCY <= 50 <= MAX_FREQUENCY
  ∧ ∃ p, CalculatePrescale 50 = Some p
       ∧ 3 <= p <= 255
       ∧ p = ComputePrescale_spec 50
       ∧ ∀ g, 50 <= g <= MAX_FREQUENCY ->
              ∃ q, CalculatePrescale g = Some q ∧ q <= p.
Proof.
  split; [unfold MIN_FREQUENCY, MAX_FREQUENCY; lia|].
  apply (CalculatePrescale_correct 50). unfold MIN_FREQUENCY, MAX_FREQUENCY; lia.
Defined.

(** ** The duty-cycle timing mapper *)

(** The conversion to an unsigned integer is the floor of the number a
    non-negative float denotes. *)
Lemma to_uint_floor (w : Z) (m : positive) (e v : Z) :
  Float32.to_uint w (S754_finite false m e) = Some v ->
  v = Qfloor (Float32.to_Q (S754_finite false m e)).
Proof.
  unfold Float32.to_uint, Float32.trunc_magnitude, Float32.to_Q.
  case_bool_decide; [|done]. intros [= <-].
  destruct e as [|p|p]; simpl Qfloor.
  - change (0 <=? 0) with true. cbv iota. rewrite Z.div_1_r, Z.pow_0_r. lia.
  - change (0 <=? Z.pos p) with true. cbv iota.
    by rewrite Z.div_1_r, Pos2Z.inj_pow.
  - change (0 <=? Z.neg p) with false. cbv iota.
    change (- Z.neg p) with (Z.pos p). by rewrite Pos2Z.inj_pow.
Qed.

Lemma positive_below_one (d : float) :
  Float32.valid d = true ->
  Float32.ltb Float32.zero d = true -> Float32.ltb d Float32.one = true ->
  ∃ m e, d = S754_finite false m e ∧ bounded Float32.prec Float32.emax m e = true
         ∧ Float32.leb d Float32.zero = false ∧ Float32.leb Float32.one d = false.
Proof.
  intros Hv H0 H1. destruct d as [s|s| |s m e]; try done.
  - by destruct s.
  - destruct s; [done|]. exists m, e. split; [done|]. split; [done|]. split; [done|].
    destruct (Float32Facts.below_one_inv m e Hv H1) as [He _].
    change Float32.one with (S754_finite false 8388608 (-23)).
    unfold Float32.leb, SFleb, SFcompare.
    destruct (Z.compare_spec (-23) e); first [lia|done].
Qed.

Lemma compare_cont_Eq (p q : positive) :
  PosDef.Pos.compare_cont Eq p q = Pos.compare p q.
Proof. reflexivity. Qed.

Lemma not_leb_one_ltb (m : positive) (e : Z) :
  Float32.leb Float32.one (S754_finite false m e) = false ->
  Float32.ltb (S754_finite false m e) Float32.one = true.
Proof.
  change Float32.one with (S754_finite false 8388608 (-23)).
  unfold Float32.leb, Float32.ltb, SFleb, SFltb, SFcompare.
  rewrite (compare_cont_Eq 8388608 m), (compare_cont_Eq m 8388608).
  rewrite (Pos.compare_antisym m 8388608), (Z.compare_antisym e (-23)).
  destruct (e ?= -23); simpl; try done.
  by destruct (m ?= 8388608)%positive.
Qed.

(** The mapper is defined on every float except NaN. *)
Lemma DutyCycleToTiming_defined (d : float) :
  Float32.valid d = true -> Float32.is_nan d = false ->
  ∃ on off, DutyCycleToTiming d = Some (on, off).
Proof.
  intros Hv Hn. unfold DutyCycleToTiming.
  destruct (Float32.leb d Float32.zero) eqn:H0; [by eauto|].
  destruct (Float32.leb Float32.one d) eqn:H1; [by eauto|].
  destruct d as [s|s| |s m e]; try done; try (by destruct s).
  destruct s; [done|].
  pose proof (not_leb_one_ltb m e H1) as Hlt.
  destruct (Float32Facts.mul_4095_to_uint m e Hv Hlt) as (off & Hoff & _).
  change (Float32.of_Z MAX_PWM_VALUE) with (Float32.of_Z 4095).
  rewrite Hoff. simpl. by eauto.
Qed.

(** The mapper stays within the twelve bits of the counters. *)
Lemma DutyCycleToTiming_range (d : float) (on off : Z) :
  Float32.valid d = true ->
  DutyCycleToTiming d = Some (on, off) ->
  0 <= on <= MAX_PWM_VALUE ∧ 0 <= off <= MAX_PWM_VALUE.
Proof.
  intros Hv. unfold DutyCycleToTiming, MAX_PWM_VALUE.
  destruct (Float32.leb d Float32.zero) eqn:H0; [intros [= <- <-]; lia|].
  destruct (Float32.leb Float32.one d) eqn:H1; [intros [= <- <-]; lia|].
  destruct d as [s|s| |s m e]; try done; try (by destruct s).
  destruct s; [done|].
  pose proof (not_leb_one_ltb m e H1) as Hlt.
  destruct (Float32Facts.mul_4095_to_uint m e Hv Hlt) as (off' & Hoff & Hr).
  rewrite Hoff. simpl. intros [= <- <-]. lia.
Qed.

(** C3, as the code has it. The mapper yields (0, 4095) for a duty cycle
    at or below zero and (4095, 0) for one at or above one; for a duty
    cycle strictly between them it yields on = 0 and off = the
    single-precision product duty_cycle * 4095 with its fraction dropped
    (not rounded); at 0.5 this is 2047, one below 2048. *)
Theorem DutyCycleToTiming_truncates (d : float) :
  Float32.valid d = true ->
  (Float32.leb d Float32.zero = true -> DutyCycleToTiming d = Some (0, 4095))
  ∧ (Float32.leb Float32.one d = true -> DutyCycleToTiming d = Some (4095, 0))
  ∧ (Float32.ltb Float32.zero d = true -> Float32.ltb d Float32.one = true ->
     DutyCycleToTiming d =
       Some (0, Qfloor (Float32.to_Q (Float32.mul d (Float32.of_Z 4095)))))
  ∧ DutyCycleToTiming half = Some (0, 2047).
Proof.
  intros Hv. split; [|split; [|split]].
  - intros H0. unfold DutyCycleToTiming. by rewrite H0.
  - intros H1. unfold DutyCycleToTiming. rewrite H1.
    destruct (Float32.leb d Float32.zero) eqn:H0; [|done].
    exfalso. destruct d as [s|s| |s m e]; try done; try (by destruct s).
  - intros H0 H1.
    destruct (positive_below_one d Hv H0 H1) as (m & e & -> & Hb & Hz & Ho).
    unfold DutyCycleToTiming. rewrite Hz, Ho.
    destruct (Float32Facts.mul_4095_to_uint m e Hb H1) as (off & Hoff & _).
    change (Float32.of_Z MAX_PWM_VALUE) with (Float32.of_Z 4095).
    rewrite Hoff. unfold mbind, option_bind. do 2 f_equal.
    remember (Float32.mul (S754_finite false m e) (Float32.of_Z 4095)) as r eqn:Hr.
    destruct r as [s|s| |s m' e']; try done.
    + by injection Hoff as <-.
    + assert (s = false) as ->.
      { revert Hr. change (Float32.of_Z 4095) with (S754_finite false 16773120 (-12)).
        unfold Float32.mul, SFmul, binary_round_aux. change (xorb false false) with false.
        repeat case_match; congruence. }
      by apply to_uint_floor in Hoff.
  - by vm_compute.
Qed.

Lemma DutyCycleToTiming_truncates_witness :
  Float32.valid servo_neutral = true
  ∧ Float32.ltb Float32.zero servo_neutral = true
  ∧ Float32.ltb servo_neutral Float32.one = true
  ∧ DutyCycleToTiming servo_neutral =
      Some (0, Qfloor (Float32.to_Q (Float32.mul servo_neutral (Float32.of_Z 4095)))).
Proof.
  split; [by vm_compute|]. split; [by vm_compute|]. split; [by vm_compute|].
  apply (DutyCycleToTiming_truncates servo_neutral); by vm_compute.
Defined.

(** C3, as the spec states it, fails: at the duty cycle 0.25 the exact
    product is 1023.75, which rounds to 1024, while the code stores 1023. *)
Lemma DutyCycleToTiming_not_rounded :
  Float32.valid quarter = true
  ∧ Float32.ltb Float32.zero quarter = true
  ∧ Float32.ltb quarter Float32.one = true
  ∧ ComputeTiming_spec quarter = (0, 1024)
  ∧ DutyCycleToTiming quarter = Some (0, 1023)
  ∧ DutyCycleToTiming quarter ≠ Some (ComputeTiming_spec quarter).
Proof. repeat split; by vm_compute. Qed.

(** ** Running the monad *)

Section Monad.
Context {B : Type} `{!BaseI2c B}.
Implicit Types P : Pca9685Pwm B -> Prop.

Lemma bind_Some {A C : Type} (m : M B A) (k : A -> M B C) s c s'' :
  (m ≫= k) s = Some (c, s'') ↔ ∃ a s', m s = Some (a, s') ∧ k a s' = Some (c, s'').
Proof.
  unfold mbind, M_bind. split.
  - destruct (m s) as [[a s']|]; [|done]. by eauto.
  - by intros (a & s' & -> & ?).
Qed.

Lemma bind_run {A C : Type} (m : M B A) (k : A -> M B C) s a s' :
  m s = Some (a, s') -> (m ≫= k) s = k a s'.
Proof. unfold mbind, M_bind. by intros ->. Qed.

Lemma ret_Some {A : Type} (a a' : A) (s s' : Pca9685Pwm B) :
  mret (M := M B) a s = Some (a', s') ↔ a' = a ∧ s' = s.
Proof. unfold mret, M_ret. split; [by intros [= <- <-]|by intros [-> ->]]. Qed.

(** *** Rules for [preserves] *)

Lemma preserves_ret {A : Type} P (a : A) : preserves P (mret (M := M B) a).
Proof. intros s a' s' HP [-> ->]%ret_Some. done. Qed.

Lemma preserves_bind {A C : Type} P (m : M B A) (k : A -> M B C) :
  preserves P m -> (∀ a, preserves P (k a)) -> preserves P (m ≫= k).
Proof.
  intros Hm Hk s c s'' HP (a & s' & Ha & Hc)%bind_Some.
  eapply Hk; [|exact Hc]. by eapply Hm.
Qed.

Lemma preserves_gets {A : Type} P (f : Pca9685Pwm B -> A) : preserves P (gets f).
Proof. by intros s a s' HP [= <- <-]. Qed.

Lemma preserves_undefined {A : Type} P : preserves P (undefined (A := A)).
Proof. by intros s a s' HP. Qed.

Lemma preserves_defined {A : Type} P (o : option A) : preserves P (defined o).
Proof. intros s a s' HP. unfold defined. destruct o; [|done]. by intros [= <- <-]. Qed.

Lemma preserves_defined_bind {A C : Type} P (o : option A) (k : A -> M B C) :
  (∀ a, o = Some a -> preserves P (k a)) -> preserves P (defined o ≫= k).
Proof.
  intros Hk s c s'' HP (a & s' & Ha & Hc)%bind_Some.
  unfold defined in Ha. destruct o as [a'|]; [|done].
  injection Ha as <- <-. by eapply Hk.
Qed.

Lemma preserves_i2c_is_null P : preserves P i2c_is_null.
Proof. by intros s a s' HP [= <- <-]. Qed.

Lemma preserves_channel_at P channel_id : preserves P (channel_at channel_id).
Proof.
  intros s a s' HP. unfold channel_at.
  destruct (channels_ s !! Z.to_nat channel_id); [|done]. simpl. by intros [= <- <-].
Qed.

Lemma preserves_i2c_call {A : Type} P (op : B -> A * B) :
  bus_independent P -> preserves P (i2c_call op).
Proof.
  intros HP s a s' Hs. unfold i2c_call.
  destruct (i2c_ s) as [b|]; [|done]. destruct (op b) as [a' b'].
  intros [= <- <-]. by apply HP.
Qed.

Lemma preserves_modify P (f : Pca9685Pwm B -> Pca9685Pwm B) :
  (∀ s, P s -> P (f s)) -> preserves P (modify f).
Proof. intros Hf s a s' HP [= <- <-]. by apply Hf. Qed.

Lemma preserves_if {A : Type} P (b : bool) (m1 m2 : M B A) :
  preserves P m1 -> preserves P m2 -> preserves P (if b then m1 else m2).
Proof. by destruct b. Qed.

Lemma preserves_decide {A : Type} P (Q : Prop) `{!Decision Q} (m1 m2 : M B A) :
  preserves P m1 -> preserves P m2 -> preserves P (if decide Q then m1 else m2).
Proof. by destruct (decide Q). Qed.
End Monad.

Create HintDb preserve discriminated.

#[global] Hint Resolve preserves_ret preserves_gets preserves_undefined
  preserves_defined preserves_i2c_is_null preserves_channel_at : preserve.

(** One structural step of a [preserves] goal. *)
Ltac preserve_step :=
  lazymatch goal with
  | |- preserves _ (mret _) => apply preserves_ret
  | |- preserves _ (_ ≫= _) => apply preserves_bind; [|intros ?]
  | |- preserves _ (if decide _ then _ else _) => apply preserves_decide
  | |- preserves _ (if _ then _ else _) => apply preserves_if
  | |- preserves _ (let '(_, _) := ?x in _) => destruct x
  | |- preserves _ (match ?x with _ => _ end) => destruct x
  | |- preserves _ _ => solve [eauto with preserve]
  end.

Ltac preserve := repeat preserve_step.

(** ** Properties of the channel store kept by every operation *)

Section Store.
Context {B : Type} `{!BaseI2c B}.
Variable Pc : list ChannelState -> Prop.
Hypothesis HPc : store_property Pc.

Let P : Pca9685Pwm B -> Prop := fun s => Pc (channels_ s).

Lemma store_bus_independent : bus_independent P.
Proof. by intros s b. Qed.

#[local] Hint Resolve store_bus_independent preserves_i2c_call : preserve.

Lemma store_modify_other (f : Pca9685Pwm B -> Pca9685Pwm B) :
  (∀ s, channels_ (f s) = channels_ s) -> preserves P (modify f).
Proof. intros Hf. apply preserves_modify. intros s. unfold P. by rewrite Hf. Qed.

Lemma store_channel_assign channel_id (f : ChannelState -> ChannelState) :
  (∀ cs i c, Pc cs -> cs !! i = Some c -> Pc (<[i := f c]> cs)) ->
  preserves P (channel_assign channel_id f).
Proof.
  intros Hf s a s' HP. unfold channel_assign.
  destruct (channels_ s !! Z.to_nat channel_id) as [c|] eqn:Hc; [|done].
  simpl. intros [= _ <-]. unfold P. simpl. by apply Hf.
Qed.

Lemma store_WriteRegister reg value : preserves P (WriteRegister reg value).
Proof using HPc. unfold WriteRegister. preserve. Qed.

Lemma store_ReadRegister reg : preserves P (ReadRegister reg).
Proof using HPc. unfold ReadRegister. preserve. Qed.

#[local] Hint Resolve store_WriteRegister store_ReadRegister : preserve.

Lemma store_SetChannelTiming channel_id on off :
  preserves P (SetChannelTiming channel_id on off).
Proof using HPc. unfold SetChannelTiming. preserve. Qed.

Lemma store_Reset : preserves P Reset.
Proof using HPc.
  unfold Reset. preserve.
  apply preserves_modify. intros s _. apply (store_reset _ HPc).
Qed.

Lemma store_SetFrequency channel_id frequency :
  preserves P (SetFrequency channel_id frequency).
Proof using HPc. unfold SetFrequency. preserve. by apply store_modify_other. Qed.

Lemma store_Sleep : preserves P Sleep.
Proof using HPc. unfold Sleep. preserve. Qed.

Lemma store_Wakeup : preserves P Wakeup.
Proof using HPc. unfold Wakeup. preserve. Qed.

#[local] Hint Resolve store_SetChannelTiming store_Reset store_SetFrequency
  store_Sleep store_Wakeup : preserve.

Lemma store_Initialize : preserves P Initialize.
Proof using HPc. unfold Initialize. preserve. by apply store_modify_other. Qed.

Lemma store_SetDutyCycle channel_id d :
  Float32.valid d = true -> preserves P (SetDutyCycle channel_id d).
Proof using HPc.
  intros Hd. unfold SetDutyCycle.
  apply preserves_bind; [preserve|intros initialized].
  do 3 (apply preserves_if; [preserve|]).
  apply preserves_defined_bind. intros [on off] Hmap.
  preserve. apply store_channel_assign.
  intros cs i c Hcs Hi. by eapply (store_duty _ HPc).
Qed.

Lemma store_Start channel_id : preserves P (Start channel_id).
Proof using HPc.
  unfold Start. preserve. apply store_channel_assign.
  intros cs i c Hcs Hi. by eapply (store_active _ HPc).
Qed.

Lemma store_Stop channel_id : preserves P (Stop channel_id).
Proof using HPc.
  unfold Stop. preserve. apply store_channel_assign.
  intros cs i c Hcs Hi. by eapply (store_active _ HPc).
Qed.

#[local] Hint Resolve store_Initialize store_SetDutyCycle store_Start store_Stop
  : preserve.

Lemma store_ConfigureChannel channel_id config :
  Float32.valid (initial_duty_cycle config) = true ->
  preserves P (ConfigureChannel channel_id config).
Proof using HPc. intros Hd. unfold ConfigureChannel. preserve. Qed.

Lemma store_GetDutyCycle channel_id : preserves P (GetDutyCycle channel_id).
Proof. unfold GetDutyCycle. preserve. Qed.

Lemma store_GetFrequency channel_id : preserves P (GetFrequency channel_id).
Proof. unfold GetFrequency. preserve. Qed.

Lemma store_IsChannelActive channel_id : preserves P (IsChannelActive channel_id).
Proof. unfold IsChannelActive. preserve. Qed.

Lemma store_stop_all channel_ids : preserves P (stop_all channel_ids).
Proof using HPc. induction channel_ids; simpl; preserve. Qed.

#[local] Hint Resolve store_stop_all : preserve.

Lemma store_Deinitialize : preserves P Deinitialize.
Proof using HPc. unfold Deinitialize. preserve; by apply store_modify_other. Qed.

Lemma store_batch_loop (body : nat -> M B HfPwmErr) (i remaining : nat) :
  (∀ j, preserves P (body j)) -> preserves P (batch_loop body i remaining).
Proof.
  intros Hbody. revert i. induction remaining as [|n IH]; intros i; simpl; preserve.
Qed.

Lemma store_StartMultiple channel_ids num_channels :
  preserves P (StartMultiple channel_ids num_channels).
Proof using HPc.
  unfold StartMultiple. preserve. apply store_batch_loop. intros j. preserve.
Qed.

Lemma store_StopMultiple channel_ids num_channels :
  preserves P (StopMultiple channel_ids num_channels).
Proof using HPc.
  unfold StopMultiple. preserve. apply store_batch_loop. intros j. preserve.
Qed.

Lemma store_SetDutyCycleMultiple channel_ids duty_cycles num_channels :
  (∀ ds, duty_cycles = Some ds -> Forall (fun d => Float32.valid d = true) ds) ->
  preserves P (SetDutyCycleMultiple channel_ids duty_cycles num_channels).
Proof using HPc.
  intros Hds. unfold SetDutyCycleMultiple.
  destruct channel_ids as [ids|], duty_cycles as [ds|]; preserve.
  apply store_batch_loop. intros j.
  apply preserves_bind; [preserve|intros channel_id].
  apply preserves_defined_bind. intros d Hd.
  apply store_SetDutyCycle.
  specialize (Hds ds eq_refl). rewrite Forall_lookup in Hds. by eapply Hds.
Qed.

Lemma store_SetOutputEnable enabled : preserves P (SetOutputEnable enabled).
Proof. unfold SetOutputEnable. preserve. Qed.

Lemma store_ConfigureExternalClock f : preserves P (ConfigureExternalClock f).
Proof using HPc. unfold ConfigureExternalClock. preserve. Qed.

Lemma store_SetOutputDriver t : preserves P (SetOutputDriver t).
Proof using HPc. unfold SetOutputDriver. preserve. Qed.

Lemma store_SetOutputInvert i : preserves P (SetOutputInvert i).
Proof using HPc. unfold SetOutputInvert. preserve. Qed.

Lemma store_perform (c : Call) : Call_floats_valid c -> preserves P (perform c).
Proof using HPc.
  intros Hc. destruct c; simpl; (apply preserves_bind; [|intros ?; apply preserves_ret]).
  all: eauto using store_Initialize, store_Deinitialize, store_ConfigureChannel,
    store_SetDutyCycle, store_SetFrequency, store_Start, store_Stop,
    store_GetDutyCycle, store_GetFrequency, store_IsChannelActive,
    store_StartMultiple, store_StopMultiple, store_SetOutputEnable,
    store_ConfigureExternalClock, store_SetOutputDriver, store_SetOutputInvert,
    store_Sleep, store_Wakeup, preserves_ret.
  apply store_SetDutyCycleMultiple. by intros ds ->.
Qed.

Lemma store_perform_all (cs : list Call) :
  Forall Call_floats_valid cs -> preserves P (perform_all cs).
Proof using HPc.
  induction 1 as [|c cs Hc _ IH]; simpl; [apply preserves_ret|].
  apply preserves_bind; [by apply store_perform|by intros _].
Qed.
End Store.

Lemma timing_store_property : store_property (Forall timing_in_range).
Proof.
  split.
  - apply Forall_replicate. unfold timing_in_range, MAX_PWM_VALUE. simpl. lia.
  - intros cs i c v Hcs Hi. apply Forall_insert; [done|].
    rewrite Forall_lookup in Hcs. exact (Hcs i c Hi).
  - intros cs i c d on off Hcs Hi Hd Hmap. apply Forall_insert; [done|].
    unfold timing_in_range. simpl. by eapply DutyCycleToTiming_range.
Qed.

Lemma length_store_property (n : nat) :
  n = Z.to_nat MAX_CHANNELS -> store_property (fun cs => length cs = n).
Proof.
  intros ->. split.
  - by rewrite length_replicate.
  - intros. by rewrite length_insert.
  - intros. by rewrite length_insert.
Qed.

(** X15. Invariant I1 for duty cycles other than NaN: the constructor
    leaves every channel record with on and off counts in [0, 4095],
    every public operation that returns keeps it so (hence every
    sequence of them), and the duty-cycle timing mapper yields a pair
    within [0, 4095] on every float it is defined on, which is every
    float but NaN. *)
Theorem channel_timing_invariant {B : Type} `{!BaseI2c B}
    (s : Pca9685Pwm B) (calls : list Call) (s' : Pca9685Pwm B) :
  channels_in_range s ->
  Forall Call_floats_valid calls ->
  perform_all calls s = Some (tt, s') ->
  channels_in_range s'
  ∧ (∀ i2c address pin, channels_in_range (Pca9685Pwm_new (B := B) i2c address pin))
  ∧ (∀ d on off, Float32.valid d = true -> DutyCycleToTiming d = Some (on, off) ->
       0 <= on <= 4095 ∧ 0 <= off <= 4095)
  ∧ (∀ d, Float32.valid d = true -> Float32.is_nan d = false ->
       ∃ on off, DutyCycleToTiming d = Some (on, off)).
Proof.
  intros Hs Hcalls Hrun. split; [|split; [|split]].
  - exact (store_perform_all _ timing_store_property calls Hcalls s tt s' Hs Hrun).
  - intros i2c address pin. apply (store_reset _ timing_store_property).
  - intros d on off Hd Hmap. by apply (DutyCycleToTiming_range d).
  - exact DutyCycleToTiming_defined.
Qed.

Lemma channel_timing_invariant_witness :
  ∃ s',
    perform_all [CallSetDutyCycle 3 quarter; CallStop 3; CallSetFrequency 0 50;
                 CallStart 3; CallSetDutyCycleMultiple (Some [0; 1]) (Some [half; Float32.one]) 2]
                (initialized_driver 100) = Some (tt, s')
    ∧ (on_time <$> channels_ s') !! 3%nat = Some 0
    ∧ (off_time <$> channels_ s') !! 3%nat = Some 1023
    ∧ channels_in_range s'.
Proof.
  eexists. split; [by vm_compute|]. split; [by vm_compute|]. split; [by vm_compute|].
  eapply (channel_timing_invariant (initialized_driver 100)
            [CallSetDutyCycle 3 quarter; CallStop 3; CallSetFrequency 0 50;
             CallStart 3; CallSetDutyCycleMultiple (Some [0; 1]) (Some [half; Float32.one]) 2]).
  - apply (store_reset _ timing_store_property).
  - repeat constructor.
  - by vm_compute.
Defined.

(** ** Validation order of the channel-scoped operations *)

Lemma IsValidChannel_false (channel_id : Z) :
  MAX_CHANNELS <= channel_id -> IsValidChannel channel_id = false.
Proof. intros. unfold IsValidChannel. apply bool_decide_eq_false_2. lia. Qed.

Lemma IsValidChannel_true (channel_id : Z) :
  channel_id < MAX_CHANNELS -> IsValidChannel channel_id = true.
Proof. intros. unfold IsValidChannel. by apply bool_decide_eq_true_2. Qed.

(** Unfolds the monad on a goal about one run. *)
Ltac run_unfold :=
  unfold mbind, M_bind, mret, M_ret, gets, modify, defined, undefined in *.

Lemma uninitialized_operations {B : Type} `{!BaseI2c B} (s : Pca9685Pwm B) (channel_id : Z) :
  is_initialized_ s = false -> channel_operations_return PWM_NOT_INITIALIZED s channel_id.
Proof.
  intros Hinit. unfold channel_operations_return.
  unfold ConfigureChannel, SetDutyCycle, SetFrequency, Start, Stop, GetDutyCycle,
    GetFrequency. run_unfold. by rewrite Hinit.
Qed.

Lemma invalid_channel_operations {B : Type} `{!BaseI2c B} (s : Pca9685Pwm B) (channel_id : Z) :
  is_initialized_ s = true -> MAX_CHANNELS <= channel_id ->
  channel_operations_return PWM_INVALID_CHANNEL s channel_id.
Proof.
  intros Hinit Hch. unfold channel_operations_return.
  unfold ConfigureChannel, SetDutyCycle, SetFrequency, Start, Stop, GetDutyCycle,
    GetFrequency. run_unfold. by rewrite Hinit, IsValidChannel_false.
Qed.

(** C2, as the code has it. For every channel_id >= 16 each
    channel-scoped operation returns InvalidChannel when the driver is
    initialized; when it is not, the initialization check comes first and
    the operation returns NotInitialized.  Either way the object is left
    as it was. *)
Theorem invalid_channel_checked_after_initialization {B : Type} `{!BaseI2c B}
    (s : Pca9685Pwm B) (channel_id : Z) :
  16 <= channel_id ->
  (is_initialized_ s = true -> channel_operations_return PWM_INVALID_CHANNEL s channel_id)
  ∧ (is_initialized_ s = false -> channel_operations_return PWM_NOT_INITIALIZED s channel_id).
Proof.
  intros Hch. split; intros Hinit.
  - by apply invalid_channel_operations.
  - by apply uninitialized_operations.
Qed.

Lemma invalid_channel_checked_after_initialization_witness :
  16 <= 99
  ∧ is_initialized_ (initialized_driver 0) = true
  ∧ channel_operations_return PWM_INVALID_CHANNEL (initialized_driver 0) 99.
Proof.
  split; [lia|]. split; [done|].
  apply (invalid_channel_checked_after_initialization (initialized_driver 0) 99); [lia|done].
Defined.

(** C2, as the spec states it, fails: on a driver that was never
    initialized a channel-scoped operation on channel 16 returns
    NotInitialized, not InvalidChannel. *)
Lemma invalid_channel_on_uninitialized_driver :
  is_initialized_ fresh_driver = false
  ∧ SetDutyCycle 16 half fresh_driver = Some (PWM_NOT_INITIALIZED, fresh_driver)
  ∧ ¬ channel_operations_return PWM_INVALID_CHANNEL fresh_driver 16.
Proof.
  split; [done|]. split; [done|].
  intros (_ & Hduty & _). specialize (Hduty half). discriminate Hduty.
Qed.

(** NaN is neither below zero nor above one, so the range check of
    [SetDutyCycle] lets it through, and the conversion of the mapper is
    then undefined. *)
Lemma SetDutyCycle_NaN_undefined {B : Type} `{!BaseI2c B} (s : Pca9685Pwm B) channel_id :
  is_initialized_ s = true -> channel_id < 16 ->
  SetDutyCycle channel_id S754_nan s = None.
Proof.
  intros Hinit Hch. unfold SetDutyCycle. run_unfold.
  by rewrite Hinit, IsValidChannel_true.
Qed.

(** C9, at the input where the code fails it.  NaN is a value of the
    type [float].  It is neither below zero nor above one, so the range
    check of [SetDutyCycle] lets it through, and it is neither at most
    zero nor at least one, so the mapper takes its last branch and
    converts NaN * 4095 to [uint16_t], which is undefined: the mapper
    yields no pair at all, within [0, 4095] or not, and the call of
    [SetDutyCycle], alone or in a sequence of calls, has no defined
    outcome. *)
Theorem NaN_duty_cycle_reaches_undefined_conversion :
  Float32.valid S754_nan = true
  ∧ Float32.ltb S754_nan Float32.zero || Float32.ltb Float32.one S754_nan = false
  ∧ Float32.leb S754_nan Float32.zero = false
  ∧ Float32.leb Float32.one S754_nan = false
  ∧ Float32.to_uint 16 (Float32.mul S754_nan (Float32.of_Z MAX_PWM_VALUE)) = None
  ∧ DutyCycleToTiming S754_nan = None
  ∧ channels_in_range (initialized_driver 100)
  ∧ SetDutyCycle 0 S754_nan (initialized_driver 100) = None
  ∧ perform_all [CallSetDutyCycle 0 S754_nan] (initialized_driver 100) = None.
Proof.
  split; [reflexivity|]. split; [reflexivity|]. split; [reflexivity|].
  split; [reflexivity|]. split; [reflexivity|]. split; [reflexivity|].
  split; [apply (store_reset _ timing_store_property)|].
  split; [vm_compute; reflexivity|vm_compute; reflexivity].
Qed.

(** ** [IsChannelActive] *)

(** C10. [IsChannelActive] never reports an error: it yields false when
    the driver is not initialized or channel_id >= 16, and the stored
    active flag of the channel otherwise; in every case the object,
    transport included, is left as it was, so that no transfer is
    recorded. *)
Theorem IsChannelActive_total {B : Type} `{!BaseI2c B}
    (s : Pca9685Pwm (list I2cEvent * B)) (channel_id : Z) :
  well_formed s -> 0 <= channel_id ->
  (is_initialized_ s = false ∨ 16 <= channel_id ->
     IsChannelActive channel_id s = Some (false, s))
  ∧ (is_initialized_ s = true -> channel_id < 16 ->
     ∃ c, channels_ s !! Z.to_nat channel_id = Some c
          ∧ IsChannelActive channel_id s = Some (is_active c, s))
  ∧ (∃ active s', IsChannelActive channel_id s = Some (active, s') ∧ trace s' = trace s).
Proof.
  intros Hwf Hch.
  assert (is_initialized_ s = false ∨ 16 <= channel_id ->
          IsChannelActive channel_id s = Some (false, s)) as Hfalse.
  { intros Hcase. unfold IsChannelActive. run_unfold.
    destruct (is_initialized_ s); [|done].
    destruct Hcase as [?|Hge]; [done|]. by rewrite IsValidChannel_false. }
  assert (is_initialized_ s = true -> channel_id < 16 ->
          ∃ c, channels_ s !! Z.to_nat channel_id = Some c
               ∧ IsChannelActive channel_id s = Some (is_active c, s)) as Htrue.
  { intros Hinit Hlt.
    destruct (lookup_lt_is_Some_2 (channels_ s) (Z.to_nat channel_id)) as [c Hc].
    { rewrite Hwf. unfold MAX_CHANNELS. lia. }
    exists c. split; [done|].
    unfold IsChannelActive, channel_at. run_unfold.
    rewrite Hinit, IsValidChannel_true by done. simpl. by rewrite Hc. }
  split; [done|]. split; [done|].
  destruct (is_initialized_ s) eqn:Hinit.
  - destruct (Z_lt_le_dec channel_id 16) as [Hlt|Hge].
    + destruct (Htrue eq_refl Hlt) as (c & _ & Hrun). by eauto.
    + exists false, s. split; [|done]. apply Hfalse. by right.
  - exists false, s. split; [|done]. apply Hfalse. by left.
Qed.

Lemma IsChannelActive_total_witness :
  well_formed (initialized_driver 1) ∧ 0 <= 3
  ∧ ∃ active s', IsChannelActive 3 (initialized_driver 1) = Some (active, s')
                 ∧ trace s' = trace (initialized_driver 1).
Proof.
  split; [done|]. split; [lia|].
  apply (IsChannelActive_total (initialized_driver 1) 3); [done|lia].
Defined.

(** ** [Initialize] *)

Lemma initialized_false_bus_independent {B : Type} `{!BaseI2c B} :
  bus_independent (B := B) (fun s => is_initialized_ s = false).
Proof. by intros s b. Qed.

Lemma Reset_keeps_uninitialized {B : Type} `{!BaseI2c B} :
  preserves (B := B) (fun s => is_initialized_ s = false) Reset.
Proof.
  unfold Reset. preserve.
  - apply preserves_i2c_call, initialized_false_bus_independent.
  - by apply preserves_modify.
Qed.

(** Whatever the transport does, a call of [Initialize] on a driver that
    is not initialized does not return success and does not set the
    flag: the nested [SetFrequency] refuses to run before the flag is
    set, and the flag is only set after it. *)
Lemma Initialize_never_succeeds {B : Type} `{!BaseI2c B} (s : Pca9685Pwm B) r s' :
  is_initialized_ s = false ->
  Initialize s = Some (r, s') ->
  r ≠ PWM_SUCCESS ∧ is_initialized_ s' = false.
Proof.
  intros Hinit. unfold Initialize.
  intros (initialized & s1 & [= <- <-] & Hrun)%bind_Some.
  rewrite Hinit in Hrun.
  apply bind_Some in Hrun as (null & s1 & [= <- <-] & Hrun).
  destruct (i2c_ s) as [b|] eqn:Hbus; [|by apply ret_Some in Hrun as [-> ->]].
  apply bind_Some in Hrun as (st & s1 & Hcall & Hrun).
  assert (is_initialized_ s1 = false) as Hinit1.
  { eapply (preserves_i2c_call _ _ initialized_false_bus_independent); [|exact Hcall].
    done. }
  destruct (decide (st ≠ I2C_SUCCESS)); [by apply ret_Some in Hrun as [-> ->]|].
  apply bind_Some in Hrun as (result & s2 & Hreset & Hrun).
  pose proof (Reset_keeps_uninitialized s1 result s2 Hinit1 Hreset) as Hinit2.
  destruct (decide (result ≠ PWM_SUCCESS)); [by apply ret_Some in Hrun as [-> ->]|].
  apply bind_Some in Hrun as (frequency & s3 & [= <- <-] & Hrun).
  apply bind_Some in Hrun as (result' & s3 & Hfreq & Hrun).
  unfold SetFrequency in Hfreq. run_unfold. rewrite Hinit2 in Hfreq.
  injection Hfreq as <- <-.
  simpl in Hrun. by injection Hrun as <- <-.
Qed.

(** C1, as the code behaves. On a driver just constructed with a
    transport that never fails, the first [Initialize] sends the
    broadcast reset and then returns NotInitialized, with the frequency,
    the output-driver mode and the wake-up never written and the driver
    left uninitialized. *)
Theorem Initialize_first_call_fails :
  ∃ s', Initialize fresh_driver = Some (PWM_NOT_INITIALIZED, s')
        ∧ is_initialized_ s' = false
        ∧ trace s' = [EvInitialize I2C_SUCCESS; EvWrite 0 [0; 6] I2C_SUCCESS].
Proof. eexists. split; [by vm_compute|]. by split. Qed.

(** ** Abort at the first error *)

Lemma aborted_nil (r : HfPwmErr) : aborted_at_first_error [] r.
Proof. left. constructor. Qed.

Lemma aborted_app (events1 events2 : list I2cEvent) (r : HfPwmErr) :
  Forall event_ok events1 -> aborted_at_first_error events2 r ->
  aborted_at_first_error (events1 ++ events2) r.
Proof.
  intros H1 [H2|(before & failed & -> & Hb & Hf & ->)].
  - left. by apply Forall_app.
  - right. exists (events1 ++ before), failed. rewrite app_assoc.
    split; [done|]. split; [by apply Forall_app|done].
Qed.

Lemma aborted_success (events : list I2cEvent) :
  aborted_at_first_error events PWM_SUCCESS -> Forall event_ok events.
Proof. by intros [H|(? & ? & _ & _ & _ & ?)]. Qed.

Section Abort.
Context {B : Type} `{!BaseI2c B}.
Implicit Types s : Pca9685Pwm (list I2cEvent * B).

Lemma silent_run {A : Type} (m : M (list I2cEvent * B) A) s a s' :
  silent m -> m s = Some (a, s') -> trace s' = trace s.
Proof. intros Hm Hrun. by apply (Hm (trace s) s a s'). Qed.

Lemma silent_modify (f : Pca9685Pwm (list I2cEvent * B) -> Pca9685Pwm (list I2cEvent * B)) :
  (∀ s, i2c_ (f s) = i2c_ s) -> silent (modify f).
Proof.
  intros Hf t. apply preserves_modify. intros s. unfold trace. by rewrite Hf.
Qed.

Lemma silent_channel_assign channel_id f :
  silent (channel_assign (B := list I2cEvent * B) channel_id f).
Proof.
  intros t s a s'. unfold channel_assign.
  destruct (channels_ s !! Z.to_nat channel_id); [|done]. simpl. by intros <- [= _ <-].
Qed.

Lemma aborts_ret (r : HfPwmErr) :
  aborts_at_first_error id (mret (M := M (list I2cEvent * B)) r).
Proof.
  intros s a s' [-> ->]%ret_Some. exists []. rewrite app_nil_r.
  split; [done|apply aborted_nil].
Qed.

Lemma aborts_silent_bind {A C : Type} (code : C -> HfPwmErr)
    (m : M (list I2cEvent * B) A) (k : A -> M (list I2cEvent * B) C) :
  silent m -> (∀ a, aborts_at_first_error code (k a)) ->
  aborts_at_first_error code (m ≫= k).
Proof.
  intros Hm Hk s c s'' (a & s' & Ha & Hc)%bind_Some.
  destruct (Hk a s' c s'' Hc) as (events & Htr & Hab).
  exists events. by rewrite Htr, (silent_run m s a s').
Qed.

(** The sequencing of the source: run [m]; on a failure return it, on a
    success go on with [k]. *)
Lemma aborts_bind {A : Type} (code : A -> HfPwmErr)
    (m : M (list I2cEvent * B) A) (k : A -> M (list I2cEvent * B) HfPwmErr) :
  aborts_at_first_error code m ->
  (∀ a, code a = PWM_SUCCESS -> aborts_at_first_error id (k a)) ->
  (∀ a, code a ≠ PWM_SUCCESS -> k a = mret (code a)) ->
  aborts_at_first_error id (m ≫= k).
Proof.
  intros Hm Hok Hfail s r s'' (a & s' & Ha & Hr)%bind_Some.
  destruct (Hm s a s' Ha) as (events1 & Htr1 & Hab1).
  destruct (decide (code a = PWM_SUCCESS)) as [Hcode|Hcode].
  - destruct (Hok a Hcode s' r s'' Hr) as (events2 & Htr2 & Hab2).
    exists (events1 ++ events2). rewrite Htr2, Htr1, app_assoc. split; [done|].
    apply aborted_app; [|done]. apply aborted_success. by rewrite <- Hcode.
  - rewrite (Hfail a Hcode) in Hr. apply ret_Some in Hr as [-> ->].
    by exists events1.
Qed.

(** The tail of [SetDutyCycle], [Start] and [Stop]: after [m], update
    the store without a transfer and return what [m] returned. *)
Lemma aborts_effect (m : M (list I2cEvent * B) HfPwmErr)
    (f : HfPwmErr -> M (list I2cEvent * B) unit) :
  aborts_at_first_error id m -> (∀ r, silent (f r)) ->
  aborts_at_first_error id (result ← m; f result;; mret result).
Proof.
  intros Hm Hf s r s3 (a & s1 & Ha & Hr)%bind_Some.
  apply bind_Some in Hr as ([] & s2 & Hf2 & [-> ->]%ret_Some).
  destruct (Hm s a s1 Ha) as (events & Htr & Hab).
  exists events. by rewrite (silent_run (f a) s1 tt s2).
Qed.

Lemma aborts_if {A : Type} (code : A -> HfPwmErr) (b : bool)
    (m1 m2 : M (list I2cEvent * B) A) :
  aborts_at_first_error code m1 -> aborts_at_first_error code m2 ->
  aborts_at_first_error code (if b then m1 else m2).
Proof. by destruct b. Qed.

(** A transfer followed by the test of its status. *)
Lemma aborts_i2c_status op (k : M (list I2cEvent * B) HfPwmErr) :
  records_one op -> aborts_at_first_error id k ->
  aborts_at_first_error id
    (st ← i2c_call op;
     if decide (st ≠ I2C_SUCCESS) then mret PWM_HARDWARE_ERROR else k).
Proof.
  intros Hop Hk s r s'' (st & s' & Hcall & Hr)%bind_Some.
  unfold i2c_call in Hcall. destruct (i2c_ s) as [[log b]|] eqn:Hbus; [|done].
  destruct (Hop log b) as (e & b' & Hrec). rewrite Hrec in Hcall.
  injection Hcall as <- <-.
  assert (trace s = log) as Hlog by (unfold trace; by rewrite Hbus).
  destruct (decide (event_status e ≠ I2C_SUCCESS)) as [Hfail|Hsucc].
  - apply ret_Some in Hr as [-> ->]. exists [e]. split; [by rewrite Hlog|].
    right. exists [], e. by repeat split.
  - destruct (Hk _ _ _ Hr) as (events & Htr & Hab).
    exists ([e] ++ events). rewrite Htr, Hlog. split; [by rewrite app_assoc|].
    apply aborted_app; [|done]. constructor; [|done].
    unfold event_ok. destruct (event_status e); [done|]. by destruct Hsucc.
Qed.

Lemma records_one_Write address data :
  records_one (i2c_Write (B := list I2cEvent * B) address data).
Proof.
  intros log b. simpl. destruct (i2c_Write address data b) as [st b'].
  by exists (EvWrite address data st), b'.
Qed.

Lemma records_one_Initialize : records_one (i2c_Initialize (B := list I2cEvent * B)).
Proof.
  intros log b. simpl. destruct (i2c_Initialize b) as [st b'].
  by exists (EvInitialize st), b'.
Qed.

Lemma silent_gets {A : Type} (f : Pca9685Pwm (list I2cEvent * B) -> A) : silent (gets f).
Proof. intros t. apply preserves_gets. Qed.

Lemma silent_is_null : silent (i2c_is_null (B := list I2cEvent * B)).
Proof. intros t. apply preserves_i2c_is_null. Qed.

Lemma silent_defined {A : Type} (o : option A) :
  silent (defined (B := list I2cEvent * B) o).
Proof. intros t. apply preserves_defined. Qed.

Lemma silent_channel_at channel_id :
  silent (channel_at (B := list I2cEvent * B) channel_id).
Proof. intros t. apply preserves_channel_at. Qed.

Lemma silent_ret {A : Type} (a : A) : silent (mret (M := M (list I2cEvent * B)) a).
Proof. intros t. apply preserves_ret. Qed.
End Abort.

Create HintDb abort discriminated.

#[global] Hint Resolve silent_gets silent_is_null silent_defined silent_channel_at
  silent_ret silent_channel_assign : abort.
#[global] Hint Resolve aborts_ret records_one_Write records_one_Initialize : abort.

(** One structural step of a goal about aborting at the first error. *)
Ltac abort_step :=
  lazymatch goal with
  | |- aborts_at_first_error _ (mret _) => apply aborts_ret
  | |- aborts_at_first_error _ (if decide ?Q then _ else _) => destruct (decide Q)
  | |- aborts_at_first_error _ (if _ then _ else _) => apply aborts_if
  | |- aborts_at_first_error _ (match ?x with _ => _ end) => destruct x
  | |- aborts_at_first_error _ (i2c_call _ ≫= _) =>
      apply aborts_i2c_status; [solve [eauto with abort]|]
  | |- aborts_at_first_error _ (gets _ ≫= _) =>
      apply aborts_silent_bind; [apply silent_gets|intros ?]
  | |- aborts_at_first_error _ (i2c_is_null ≫= _) =>
      apply aborts_silent_bind; [apply silent_is_null|intros ?]
  | |- aborts_at_first_error _ (defined _ ≫= _) =>
      apply aborts_silent_bind; [apply silent_defined|intros ?]
  | |- aborts_at_first_error _ (channel_at _ ≫= _) =>
      apply aborts_silent_bind; [apply silent_channel_at|intros ?]
  | |- aborts_at_first_error _ (modify _ ≫= _) =>
      apply aborts_silent_bind; [by apply silent_modify|intros ?]
  | |- aborts_at_first_error _ (_ ≫= (λ result, _ ≫= (λ _, mret result))) =>
      apply aborts_effect;
      [|intros ?; destruct (decide _); [apply silent_channel_assign|apply silent_ret]]
  | |- aborts_at_first_error _ (_ ≫= _) =>
      eapply aborts_bind;
      [solve [eauto with abort]
      |intros ? ?
      |intros ? ?; repeat case_match; simplify_eq/=; try done]
  | |- aborts_at_first_error _ _ => solve [eauto with abort]
  end.

Ltac abort := repeat abort_step.

Section AbortOperations.
Context {B : Type} `{!BaseI2c B}.

Lemma aborts_WriteRegister reg value :
  aborts_at_first_error (B := B) id (WriteRegister reg value).
Proof. unfold WriteRegister. abort.
Qed.

Lemma aborts_ReadRegister reg :
  aborts_at_first_error (B := B) fst (ReadRegister reg).
Proof.
  unfold ReadRegister.
  apply aborts_silent_bind; [apply silent_is_null|intros null].
  destruct null.
  { intros s a s' [-> ->]%ret_Some. exists []. rewrite app_nil_r.
    split; [done|apply aborted_nil]. }
  apply aborts_silent_bind; [apply silent_gets|intros address].
  intros s [r v] s' ([st value] & s1 & Hcall & Hr)%bind_Some.
  unfold i2c_call in Hcall. destruct (i2c_ s) as [[log b]|] eqn:Hbus; [|done].
  simpl in Hcall. destruct (i2c_WriteRead address [reg] b) as [[st' value'] b'].
  injection Hcall as -> -> <-.
  assert (trace s = log) as Hlog by (unfold trace; by rewrite Hbus).
  exists [EvWriteRead address [reg] st value]. 
  destruct (decide (st ≠ I2C_SUCCESS)) as [Hfail|Hsucc];
    apply ret_Some in Hr as [[= -> ->] ->]; (split; [by rewrite Hlog|]).
  - right. exists [], (EvWriteRead address [reg] st value). by repeat split.
  - left. constructor; [|done]. unfold event_ok. simpl.
    destruct st; [done|]. by destruct Hsucc.
Qed.

#[local] Hint Resolve aborts_WriteRegister aborts_ReadRegister : abort.

Lemma aborts_SetChannelTiming channel_id on off :
  aborts_at_first_error (B := B) id (SetChannelTiming channel_id on off).
Proof. unfold SetChannelTiming. abort. Qed.

Lemma aborts_Reset : aborts_at_first_error (B := B) id Reset.
Proof. unfold Reset. abort. Qed.

Lemma aborts_SetFrequency channel_id frequency :
  aborts_at_first_error (B := B) id (SetFrequency channel_id frequency).
Proof. unfold SetFrequency. abort. Qed.

Lemma aborts_Sleep : aborts_at_first_error (B := B) id Sleep.
Proof. unfold Sleep. abort. Qed.

Lemma aborts_Wakeup : aborts_at_first_error (B := B) id Wakeup.
Proof. unfold Wakeup. abort. Qed.

#[local] Hint Resolve aborts_SetChannelTiming aborts_Reset aborts_SetFrequency
  aborts_Sleep aborts_Wakeup : abort.

Lemma aborts_Initialize : aborts_at_first_error (B := B) id Initialize.
Proof. unfold Initialize. abort. Qed.

Lemma aborts_SetDutyCycle channel_id d :
  aborts_at_first_error (B := B) id (SetDutyCycle channel_id d).
Proof. unfold SetDutyCycle. abort. Qed.

Lemma aborts_Start channel_id : aborts_at_first_error (B := B) id (Start channel_id).
Proof. unfold Start. abort. Qed.

Lemma aborts_Stop channel_id : aborts_at_first_error (B := B) id (Stop channel_id).
Proof. unfold Stop. abort. Qed.

#[local] Hint Resolve aborts_SetDutyCycle aborts_Start aborts_Stop : abort.

Lemma aborts_ConfigureChannel channel_id config :
  aborts_at_first_error (B := B) id (ConfigureChannel channel_id config).
Proof. unfold ConfigureChannel. abort. Qed.

Lemma aborts_batch_loop (body : nat -> M (list I2cEvent * B) HfPwmErr) (i remaining : nat) :
  (∀ j, aborts_at_first_error id (body j)) ->
  aborts_at_first_error id (batch_loop body i remaining).
Proof.
  intros Hbody. revert i. induction remaining as [|n IH]; intros i; simpl; abort.
Qed.

Lemma aborts_StartMultiple channel_ids num_channels :
  aborts_at_first_error (B := B) id (StartMultiple channel_ids num_channels).
Proof. unfold StartMultiple. abort. apply aborts_batch_loop. intros j. abort. Qed.

Lemma aborts_StopMultiple channel_ids num_channels :
  aborts_at_first_error (B := B) id (StopMultiple channel_ids num_channels).
Proof. unfold StopMultiple. abort. apply aborts_batch_loop. intros j. abort. Qed.

Lemma aborts_SetDutyCycleMultiple channel_ids duty_cycles num_channels :
  aborts_at_first_error (B := B) id
    (SetDutyCycleMultiple channel_ids duty_cycles num_channels).
Proof.
  unfold SetDutyCycleMultiple. abort. apply aborts_batch_loop. intros j. abort.
Qed.

Lemma aborts_ConfigureExternalClock f :
  aborts_at_first_error (B := B) id (ConfigureExternalClock f).
Proof. unfold ConfigureExternalClock. abort. Qed.

Lemma aborts_SetOutputDriver t :
  aborts_at_first_error (B := B) id (SetOutputDriver t).
Proof. unfold SetOutputDriver. abort. Qed.

Lemma aborts_SetOutputInvert i :
  aborts_at_first_error (B := B) id (SetOutputInvert i).
Proof. unfold SetOutputInvert. abort. Qed.
End AbortOperations.

(** ** [Deinitialize] runs to the end *)

Section Teardown.
Context {B : Type} `{!BaseI2c B}.
Implicit Types s : Pca9685Pwm B.

Lemma WriteRegister_total reg value s :
  ∃ r s', WriteRegister reg value s = Some (r, s') ∧ channels_ s' = channels_ s.
Proof.
  unfold WriteRegister, i2c_is_null, i2c_call. run_unfold.
  destruct (i2c_ s) as [b|] eqn:Hbus; simpl; [|by eauto]. rewrite Hbus.
  destruct (i2c_Write (i2c_address_ s) [reg; value] b) as [st b'].
  destruct (decide (st ≠ I2C_SUCCESS)); by eauto.
Qed.

Lemma ReadRegister_total reg s :
  ∃ r s', ReadRegister reg s = Some (r, s') ∧ channels_ s' = channels_ s.
Proof.
  unfold ReadRegister, i2c_is_null, i2c_call. run_unfold.
  destruct (i2c_ s) as [b|] eqn:Hbus; simpl; [|by eauto]. rewrite Hbus.
  destruct (i2c_WriteRead (i2c_address_ s) [reg] b) as [[st v] b'].
  destruct (decide (st ≠ I2C_SUCCESS)); by eauto.
Qed.

Lemma SetChannelTiming_total channel_id on off s :
  ∃ r s', SetChannelTiming channel_id on off s = Some (r, s')
          ∧ channels_ s' = channels_ s.
Proof.
  unfold SetChannelTiming.
  destruct (negb (IsValidChannel channel_id)); [by eexists _, _|].
  repeat
    (match goal with
     | |- ∃ r s', (WriteRegister ?reg ?v ≫= _) ?s0 = _ ∧ _ =>
         let r := fresh "r" in let s1 := fresh "s" in
         let Hrun := fresh "Hrun" in let Hch := fresh "Hch" in
         destruct (WriteRegister_total reg v s0) as (r & s1 & Hrun & Hch);
         rewrite (bind_run _ _ _ _ _ Hrun);
         destruct (decide (r ≠ PWM_SUCCESS)); [eexists _, _; split; [done|congruence]|]
     end).
  eexists _, _. split; [done|congruence].
Qed.

Lemma Stop_total channel_id s :
  well_formed s -> ∃ r s', Stop channel_id s = Some (r, s') ∧ well_formed s'.
Proof.
  intros Hwf. unfold Stop.
  rewrite (bind_run _ _ s (is_initialized_ s) s) by done.
  destruct (negb (is_initialized_ s)); [by eexists _, _|].
  destruct (IsValidChannel channel_id) eqn:Hvalid; [|by eexists _, _].
  change (negb true) with false. cbv iota.
  destruct (SetChannelTiming_total channel_id 0 MAX_PWM_VALUE s) as (r & s1 & Hrun & Hch).
  rewrite (bind_run _ _ _ _ _ Hrun).
  destruct (decide (r = PWM_SUCCESS)) as [Hr|Hr].
  - destruct (lookup_lt_is_Some_2 (channels_ s1) (Z.to_nat channel_id)) as [c Hc].
    { rewrite Hch, Hwf. apply bool_decide_eq_true in Hvalid.
      unfold MAX_CHANNELS in *. lia. }
    unfold channel_assign. run_unfold. rewrite Hc. simpl.
    eexists _, _. split; [done|].
    unfold well_formed in *. simpl. by rewrite length_insert, Hch.
  - run_unfold. eexists _, _. split; [done|]. unfold well_formed in *. by rewrite Hch.
Qed.

Lemma stop_all_total channel_ids s :
  well_formed s -> ∃ s', stop_all channel_ids s = Some (tt, s').
Proof.
  revert s. induction channel_ids as [|i rest IH]; intros s Hwf; simpl.
  - by eexists.
  - destruct (Stop_total i s Hwf) as (r & s1 & Hrun & Hwf1).
    rewrite (bind_run _ _ _ _ _ Hrun). by apply IH.
Qed.

Lemma Sleep_total s : ∃ r s', Sleep s = Some (r, s').
Proof.
  unfold Sleep. rewrite (bind_run _ _ s (is_initialized_ s) s) by done.
  destruct (negb (is_initialized_ s)); [by eexists _, _|].
  destruct (ReadRegister_total Registers.MODE1 s) as ([r v] & s1 & Hrun & _).
  rewrite (bind_run _ _ _ _ _ Hrun).
  destruct (decide (r ≠ PWM_SUCCESS)); [by eexists _, _|].
  destruct (WriteRegister_total Registers.MODE1
              (u8 (Z.lor v Mode1Bits.SLEEP)) s1) as (r' & s2 & Hrun' & _).
  by eexists _, _.
Qed.

(** On an initialized driver [Deinitialize] returns success and clears
    the flag, whatever the transport reports on the way. *)
Lemma Deinitialize_returns_success s :
  is_initialized_ s = true -> well_formed s ->
  ∃ s', Deinitialize s = Some (PWM_SUCCESS, s') ∧ is_initialized_ s' = false.
Proof.
  intros Hinit Hwf. unfold Deinitialize.
  rewrite (bind_run _ _ s true s) by (unfold gets; by rewrite Hinit).
  change (negb true) with false. cbv iota.
  destruct (stop_all_total (seqZ 0 MAX_CHANNELS) s Hwf) as (s1 & Hstop).
  rewrite (bind_run _ _ _ _ _ Hstop).
  destruct (Sleep_total s1) as (r & s2 & Hsleep).
  rewrite (bind_run _ _ _ _ _ Hsleep).
  unfold i2c_is_null, i2c_call. run_unfold.
  destruct (i2c_ s2) as [b|] eqn:Hbus; simpl; [|by eexists]. rewrite Hbus.
  destruct (i2c_Deinitialize b) as [st b']. by eexists.
Qed.
End Teardown.

(** ** The transfers of [SetFrequency] *)

Lemma testbit_sleep_mode1 (raw : Z) : Z.testbit (sleep_mode1 raw) 4 = true.
Proof.
  unfold sleep_mode1, u8, Mode1Bits.SLEEP. change 256 with (2 ^ 8).
  rewrite Z.mod_pow2_bits_low by lia. rewrite Z.lor_spec.
  change (Z.testbit 16 4) with true. by rewrite orb_true_r.
Qed.

Lemma testbit_wake_mode1 (mode1 : Z) : Z.testbit (wake_mode1 mode1) 4 = false.
Proof.
  unfold wake_mode1, u8, Mode1Bits.SLEEP. change 256 with (2 ^ 8).
  rewrite Z.mod_pow2_bits_low by lia. rewrite Z.land_spec, Z.lnot_spec by lia.
  change (Z.testbit 16 4) with true. by rewrite andb_false_r.
Qed.

Section Transfers.
Context {B : Type} `{!BaseI2c B}.
Implicit Types s : Pca9685Pwm (list I2cEvent * B).

Lemma trace_null s : i2c_ s = None -> trace s = [].
Proof. unfold trace. by intros ->. Qed.

Lemma WriteRegister_recorded reg value s r s' :
  WriteRegister reg value s = Some (r, s') ->
  i2c_address_ s' = i2c_address_ s
  ∧ ((i2c_ s = None ∧ s' = s ∧ r = PWM_HARDWARE_ERROR)
     ∨ (trace s' = trace s ++ [EvWrite (i2c_address_ s) [reg; value] I2C_FAILURE]
        ∧ r = PWM_HARDWARE_ERROR)
     ∨ (trace s' = trace s ++ [EvWrite (i2c_address_ s) [reg; value] I2C_SUCCESS]
        ∧ r = PWM_SUCCESS)).
Proof.
  unfold WriteRegister, i2c_is_null, i2c_call. run_unfold.
  destruct (i2c_ s) as [[log b]|] eqn:Hbus; simpl.
  - rewrite Hbus. unfold trace at 2 4. rewrite Hbus.
    destruct (i2c_Write (i2c_address_ s) [reg; value] b) as [st b'].
    destruct st; simpl; intros [= <- <-]; (split; [done|]); by eauto.
  - intros [= <- <-]. by eauto.
Qed.

Lemma ReadRegister_recorded reg s r value s' :
  ReadRegister reg s = Some ((r, value), s') ->
  i2c_address_ s' = i2c_address_ s
  ∧ ((i2c_ s = None ∧ s' = s ∧ r = PWM_HARDWARE_ERROR)
     ∨ (∃ raw, trace s' = trace s ++ [EvWriteRead (i2c_address_ s) [reg] I2C_FAILURE raw]
               ∧ r = PWM_HARDWARE_ERROR)
     ∨ (∃ raw, trace s' = trace s ++ [EvWriteRead (i2c_address_ s) [reg] I2C_SUCCESS raw]
               ∧ value = u8 raw ∧ r = PWM_SUCCESS)).
Proof.
  unfold ReadRegister, i2c_is_null, i2c_call. run_unfold.
  destruct (i2c_ s) as [[log b]|] eqn:Hbus; simpl.
  - rewrite Hbus. unfold trace at 2 4. rewrite Hbus.
    destruct (i2c_WriteRead (i2c_address_ s) [reg] b) as [[st raw] b'].
    destruct st; simpl; intros [= <- <- <-]; (split; [done|]); by eauto 6.
  - intros [= <- <- <-]. by eauto.
Qed.

(** A transport that has recorded a transfer is there. *)
Lemma recorded_not_null s t e : trace s = t ++ [e] -> i2c_ s = None -> False.
Proof. intros Ht Hnull. rewrite (trace_null s Hnull) in Ht. by destruct t. Qed.

(** The transfers of one [SetFrequency] call. *)
Lemma SetFrequency_recorded channel_id frequency s r s' :
  SetFrequency channel_id frequency s = Some (r, s') ->
  ∃ events prescale,
    trace s' = trace s ++ events
    ∧ SetFrequency_transfers (i2c_address_ s) prescale events
    ∧ (r = PWM_SUCCESS ->
       CalculatePrescale frequency = Some prescale
       ∧ ∃ e, events !! 2%nat = Some e ∧ prescale_write e = true
              ∧ event_status e = I2C_SUCCESS).
Proof.
  unfold SetFrequency.
  intros (initialized & s0 & [= <- <-] & Hrun)%bind_Some.
  assert (∀ e : HfPwmErr, e ≠ PWM_SUCCESS ->
          mret (M := M (list I2cEvent * B)) e s = Some (r, s') ->
          ∃ events prescale,
            trace s' = trace s ++ events
            ∧ SetFrequency_transfers (i2c_address_ s) prescale events
            ∧ (r = PWM_SUCCESS ->
               CalculatePrescale frequency = Some prescale
               ∧ ∃ e, events !! 2%nat = Some e ∧ prescale_write e = true
                      ∧ event_status e = I2C_SUCCESS)) as Hearly.
  { intros e He [-> ->]%ret_Some. exists [], 0. rewrite app_nil_r.
    split; [done|]. split; [constructor|done]. }
  destruct (negb (is_initialized_ s)); [eapply Hearly; [|exact Hrun]; done|].
  destruct (negb (IsValidChannel channel_id)); [eapply Hearly; [|exact Hrun]; done|].
  destruct (_ || _); [eapply Hearly; [|exact Hrun]; done|]. clear Hearly.
  apply bind_Some in Hrun as (prescale & s0 & Hp & Hrun).
  unfold defined in Hp. destruct (CalculatePrescale frequency) as [p|]; [|done].
  injection Hp as -> <-.
  apply bind_Some in Hrun as ([r1 mode1] & s1 & Hread & Hrun).
  apply ReadRegister_recorded in Hread as (Ha1 & Hread).
  destruct Hread as [(Hnull & -> & ->)|[(raw & Ht1 & ->)|(raw & Ht1 & -> & ->)]];
    simpl in Hrun.
  { apply ret_Some in Hrun as [-> ->]. exists [], prescale. rewrite app_nil_r.
    split; [done|]. split; [constructor|done]. }
  { apply ret_Some in Hrun as [-> ->]. eexists _, prescale.
    split; [done|]. split; [constructor|done]. }
  apply bind_Some in Hrun as (r2 & s2 & Hw2 & Hrun).
  apply WriteRegister_recorded in Hw2 as (Ha2 & Hw2). rewrite Ha1 in *.
  destruct Hw2 as [(Hnull & -> & ->)|[[Ht2 ->]|[Ht2 ->]]]; simpl in Hrun.
  { by destruct (recorded_not_null _ _ _ Ht1 Hnull). }
  all: rewrite Ht1 in Ht2; rewrite <- app_assoc in Ht2; simpl in Ht2.
  { apply ret_Some in Hrun as [-> ->]. eexists _, prescale.
    split; [done|]. split; [constructor|done]. }
  apply bind_Some in Hrun as (r3 & s3 & Hw3 & Hrun).
  apply WriteRegister_recorded in Hw3 as (Ha3 & Hw3). rewrite Ha2 in *.
  destruct Hw3 as [(Hnull & -> & ->)|[[Ht3 ->]|[Ht3 ->]]]; simpl in Hrun.
  { exfalso. eapply (recorded_not_null s2 (trace s ++ [_])); [|done].
    by rewrite Ht2, <- app_assoc. }
  all: rewrite Ht2 in Ht3; rewrite <- app_assoc in Ht3; simpl in Ht3.
  { apply ret_Some in Hrun as [-> ->]. eexists _, prescale.
    split; [done|]. split; [constructor|done]. }
  apply bind_Some in Hrun as (r4 & s4 & Hw4 & Hrun).
  apply WriteRegister_recorded in Hw4 as (Ha4 & Hw4). rewrite Ha3 in *.
  destruct Hw4 as [(Hnull & -> & ->)|[[Ht4 ->]|[Ht4 ->]]]; simpl in Hrun.
  { exfalso. eapply (recorded_not_null s3 (trace s ++ [_; _])); [|done].
    by rewrite Ht3, <- app_assoc. }
  all: rewrite Ht3 in Ht4; rewrite <- app_assoc in Ht4; simpl in Ht4.
  { apply ret_Some in Hrun as [-> ->]. eexists _, prescale.
    split; [done|]. split; [apply transfers_complete|done]. }
  apply bind_Some in Hrun as ([] & s5 & [= <-] & [-> ->]%ret_Some).
  eexists _, prescale. split; [done|]. split; [apply transfers_complete|].
  intros _. split; [done|]. by eexists.
Qed.

Lemma transfers_guarded address prescale events :
  SetFrequency_transfers address prescale events -> prescale_guarded events.
Proof.
  intros Hshape i e Hi Hp.
  destruct Hshape; destruct i as [|[|[|[|i]]]]; simpl in Hi; simplify_eq; try done.
  - split; [|split]; [|done|done].
    eexists 1%nat, _. split; [done|]. split; [done|].
    unfold sleep_write. by rewrite testbit_sleep_mode1.
  - split; [|split]; [| |done].
    + eexists 1%nat, _. split; [done|]. split; [done|].
      unfold sleep_write. by rewrite testbit_sleep_mode1.
    + intros _. eexists. split; [done|].
      unfold wake_write. by rewrite testbit_wake_mode1.
Qed.

Lemma SetFrequency_total channel_id frequency s :
  ∃ r s', SetFrequency channel_id frequency s = Some (r, s').
Proof.
  unfold SetFrequency. rewrite (bind_run _ _ s (is_initialized_ s) s) by done.
  destruct (negb (is_initialized_ s)); [by eexists _, _|].
  destruct (negb (IsValidChannel channel_id)); [by eexists _, _|].
  destruct (bool_decide (frequency < MIN_FREQUENCY)) eqn:Hlo; [by eexists _, _|].
  destruct (bool_decide (frequency > MAX_FREQUENCY)) eqn:Hhi; [by eexists _, _|].
  apply bool_decide_eq_false in Hlo, Hhi. change (false || false) with false. cbv iota.
  destruct (CalculatePrescale_defined frequency) as (p & Hp & _); [lia|].
  rewrite Hp. rewrite (bind_run _ _ s p s) by done.
  destruct (ReadRegister_total Registers.MODE1 s) as ([r1 v] & s1 & Hrun1 & _).
  rewrite (bind_run _ _ _ _ _ Hrun1).
  destruct (decide (r1 ≠ PWM_SUCCESS)); [by eexists _, _|].
  repeat
    (match goal with
     | |- ∃ r s', (WriteRegister ?reg ?v ≫= _) ?s0 = _ =>
         let r := fresh "r" in let s1 := fresh "s" in let Hrun := fresh "Hrun" in
         destruct (WriteRegister_total reg v s0) as (r & s1 & Hrun & _);
         rewrite (bind_run _ _ _ _ _ Hrun);
         destruct (decide (r ≠ PWM_SUCCESS)); [by eexists _, _|]
     end).
  by eexists _, _.
Qed.
End Transfers.

(** C8, as the code has it. Every [SetFrequency] call returns, and among
    the transfers it makes a write to PRE_SCALE comes right after a
    successful MODE1 write that sets the SLEEP bit; when the PRE_SCALE
    write succeeds the next transfer is the MODE1 write that clears the
    SLEEP bit, and when it fails it is the last transfer of the call (the
    call aborts and leaves the device asleep).  A successful call does
    write PRE_SCALE. *)
Theorem SetFrequency_prescale_guarded {B : Type} `{!BaseI2c B}
    (s : Pca9685Pwm (list I2cEvent * B)) (channel_id frequency : Z) :
  ∃ r s' events,
    SetFrequency channel_id frequency s = Some (r, s')
    ∧ trace s' = trace s ++ events
    ∧ prescale_guarded events
    ∧ (r = PWM_SUCCESS ->
       ∃ e, events !! 2%nat = Some e ∧ prescale_write e = true
            ∧ event_status e = I2C_SUCCESS).
Proof.
  destruct (SetFrequency_total channel_id frequency s) as (r & s' & Hrun).
  destruct (SetFrequency_recorded _ _ _ _ _ Hrun) as (events & p & Htr & Hshape & Hok).
  exists r, s', events. split; [done|]. split; [done|].
  split; [by eapply transfers_guarded|]. intros Hr. by destruct (Hok Hr).
Qed.

Lemma SetFrequency_prescale_guarded_witness :
  ∃ r s' events,
    SetFrequency 0 50 (initialized_driver 100) = Some (r, s')
    ∧ trace s' = trace (initialized_driver 100) ++ events
    ∧ prescale_guarded events
    ∧ (r = PWM_SUCCESS ->
       ∃ e, events !! 2%nat = Some e ∧ prescale_write e = true
            ∧ event_status e = I2C_SUCCESS).
Proof. exact (SetFrequency_prescale_guarded (initialized_driver 100) 0 50). Defined.

(** C8, as the spec states it, fails: when the transport fails on the
    PRE_SCALE write the call aborts, and no MODE1 write that clears the
    SLEEP bit follows. *)
Lemma SetFrequency_aborts_asleep :
  ∃ s', SetFrequency 0 50 (initialized_driver 2) = Some (PWM_HARDWARE_ERROR, s')
        ∧ trace s' = [EvWriteRead 0x40 [0x00] I2C_SUCCESS 0;
                      EvWrite 0x40 [0x00; 0x10] I2C_SUCCESS;
                      EvWrite 0x40 [0xFE; 121] I2C_FAILURE]
        ∧ ¬ prescale_bracketed (trace s').
Proof.
  eexists. split; [by vm_compute|]. split; [done|].
  intros Hb. destruct (Hb 2%nat _ eq_refl eq_refl) as [_ (k & e2 & Hk & Hlk & _)].
  destruct k as [|[|[|k]]]; simpl in Hlk; try lia; done.
Qed.

(** ** The batch operations *)

Section Batch.
Context {B : Type} `{!BaseI2c B}.
Implicit Types s : Pca9685Pwm B.

(** The counting loop over an array agrees with the recursion over the
    list of its elements. *)
Lemma batch_loop_first_failure {X : Type} (op : X -> M B HfPwmErr)
    (body : nat -> M B HfPwmErr) (xs : list X) (i : nat) s :
  (∀ j x, xs !! j = Some x -> ∀ s, body (i + j)%nat s = op x s) ->
  batch_loop body i (length xs) s = first_failure op xs s.
Proof.
  revert i s. induction xs as [|x xs IH]; intros i s Hbody; [done|].
  simpl. unfold mbind, M_bind.
  rewrite <- (Hbody 0%nat x eq_refl s). rewrite Nat.add_0_r.
  destruct (body i s) as [[r s1]|]; [|done].
  destruct (decide (r ≠ PWM_SUCCESS)); [done|].
  apply IH. intros j y Hj s2. rewrite <- (Hbody (S j) y Hj s2).
  by rewrite Nat.add_succ_r.
Qed.

(** What a run of [first_failure] amounts to: on success every call
    succeeded; on a failure the calls before the failing one succeeded,
    the failing call is the last one made, and its result and final
    object are those of the whole run. *)
Lemma first_failure_run {X : Type} (op : X -> M B HfPwmErr) (xs : list X) s r s' :
  first_failure op xs s = Some (r, s') ->
  (r = PWM_SUCCESS ∧ all_succeed op xs s s')
  ∨ (r ≠ PWM_SUCCESS
     ∧ ∃ before x after s1,
         xs = before ++ x :: after ∧ all_succeed op before s s1
         ∧ op x s1 = Some (r, s')).
Proof.
  revert s. induction xs as [|x xs IH]; intros s; simpl.
  - intros [-> ->]%ret_Some. left. split; [done|constructor].
  - intros (r1 & s1 & Hop & Hrest)%bind_Some.
    destruct (decide (r1 ≠ PWM_SUCCESS)) as [Hfail|Hok].
    + apply ret_Some in Hrest as [-> ->]. right. split; [done|].
      exists [], x, xs, s. split; [done|]. split; [constructor|done].
    + assert (r1 = PWM_SUCCESS) as ->
        by (destruct (decide (r1 = PWM_SUCCESS)); [done|by destruct Hok]).
      destruct (IH s1 Hrest) as [[-> Hall]|(Hr & before & y & after & s2 & -> & Hall & Hy)].
      * left. split; [done|]. by econstructor.
      * right. split; [done|].
        exists (x :: before), y, after, s2. split; [done|].
        split; [by econstructor|done].
Qed.

Lemma StartMultiple_first_failure (ids : list Z) s :
  ids ≠ [] ->
  StartMultiple (Some ids) (Z.of_nat (length ids)) s = first_failure Start ids s.
Proof.
  intros Hne. unfold StartMultiple.
  rewrite bool_decide_eq_false_2 by (destruct ids; [done|simpl; lia]).
  rewrite Nat2Z.id. apply batch_loop_first_failure.
  intros j x Hj s2. simpl. by rewrite Hj.
Qed.

Lemma StopMultiple_first_failure (ids : list Z) s :
  ids ≠ [] ->
  StopMultiple (Some ids) (Z.of_nat (length ids)) s = first_failure Stop ids s.
Proof.
  intros Hne. unfold StopMultiple.
  rewrite bool_decide_eq_false_2 by (destruct ids; [done|simpl; lia]).
  rewrite Nat2Z.id. apply batch_loop_first_failure.
  intros j x Hj s2. simpl. by rewrite Hj.
Qed.

Lemma SetDutyCycleMultiple_first_failure (ids : list Z) (duties : list float) s :
  ids ≠ [] -> length duties = length ids ->
  SetDutyCycleMultiple (Some ids) (Some duties) (Z.of_nat (length ids)) s
  = first_failure (fun p => SetDutyCycle p.1 p.2) (zip ids duties) s.
Proof.
  intros Hne Hlen. unfold SetDutyCycleMultiple.
  rewrite bool_decide_eq_false_2 by (destruct ids; [done|simpl; lia]).
  rewrite Nat2Z.id.
  replace (length ids) with (length (zip ids duties))
    by (rewrite length_zip_with; lia).
  apply batch_loop_first_failure.
  intros j [ch d] Hj s2. simpl.
  apply lookup_zip_with_Some in Hj as (ch' & d' & [= <- <-] & Hch & Hd).
  by rewrite Hch, Hd.
Qed.
End Batch.

(** C6. For every non-empty sequence each batch operation applies its
    single-channel operation to the elements in order, stops at the first
    failure and returns it, the effects of the earlier calls staying in
    place (for StartMultiple spelled out: either every Start succeeded,
    or the Starts before the failing one succeeded and the failing Start
    is the last call, whose result and final object are those of the
    batch); a null pointer or a zero count gives InvalidArgument and
    changes nothing; StartMultiple([0,1,99]) on an initialized driver
    starts channels 0 and 1 and returns InvalidChannel. *)
Theorem batch_operations_stop_at_first_failure {B : Type} `{!BaseI2c B}
    (ids : list Z) (duties : list float) (s : Pca9685Pwm B) :
  ids ≠ [] -> length duties = length ids ->
  StartMultiple (Some ids) (Z.of_nat (length ids)) s = first_failure Start ids s
  ∧ StopMultiple (Some ids) (Z.of_nat (length ids)) s = first_failure Stop ids s
  ∧ SetDutyCycleMultiple (Some ids) (Some duties) (Z.of_nat (length ids)) s
    = first_failure (fun p => SetDutyCycle p.1 p.2) (zip ids duties) s
  ∧ (∀ n, StartMultiple None n s = Some (PWM_INVALID_ARGUMENT, s)
          ∧ StopMultiple None n s = Some (PWM_INVALID_ARGUMENT, s)
          ∧ SetDutyCycleMultiple None (Some duties) n s = Some (PWM_INVALID_ARGUMENT, s)
          ∧ SetDutyCycleMultiple (Some ids) None n s = Some (PWM_INVALID_ARGUMENT, s))
  ∧ StartMultiple (Some ids) 0 s = Some (PWM_INVALID_ARGUMENT, s)
  ∧ StopMultiple (Some ids) 0 s = Some (PWM_INVALID_ARGUMENT, s)
  ∧ SetDutyCycleMultiple (Some ids) (Some duties) 0 s = Some (PWM_INVALID_ARGUMENT, s)
  ∧ (∀ r s', StartMultiple (Some ids) (Z.of_nat (length ids)) s = Some (r, s') ->
       (r = PWM_SUCCESS ∧ all_succeed Start ids s s')
       ∨ (r ≠ PWM_SUCCESS
          ∧ ∃ before x after s1,
              ids = before ++ x :: after ∧ all_succeed Start before s s1
              ∧ Start x s1 = Some (r, s')))
  ∧ ∃ s', StartMultiple (Some [0; 1; 99]) 3 (initialized_driver 100)
            = Some (PWM_INVALID_CHANNEL, s')
          ∧ is_active <$> take 3 (channels_ s') = [true; true; false]
          ∧ trace s' = timing_writes 0x40 0 0 0 ++ timing_writes 0x40 1 0 0.
Proof.
  intros Hne Hlen.
  split; [by apply StartMultiple_first_failure|].
  split; [by apply StopMultiple_first_failure|].
  split; [by apply SetDutyCycleMultiple_first_failure|].
  split; [done|]. split; [done|]. split; [done|]. split; [done|].
  split.
  { intros r s'. rewrite StartMultiple_first_failure by done.
    apply first_failure_run. }
  eexists. split; [by vm_compute|]. by split.
Qed.

Lemma batch_operations_stop_at_first_failure_witness :
  [0; 1; 99] ≠ [] ∧ length [half; quarter; half] = length [0; 1; 99]
  ∧ SetDutyCycleMultiple (Some [0; 1; 99]) (Some [half; quarter; half])
      (Z.of_nat (length [0; 1; 99])) (initialized_driver 100)
    = first_failure (fun p => SetDutyCycle p.1 p.2)
        (zip [0; 1; 99] [half; quarter; half]) (initialized_driver 100)
  ∧ (fst <$> SetDutyCycleMultiple (Some [0; 1; 99]) (Some [half; quarter; half]) 3
               (initialized_driver 100)) = Some PWM_INVALID_CHANNEL.
Proof.
  split; [done|]. split; [done|]. split; [|by vm_compute].
  apply (batch_operations_stop_at_first_failure [0; 1; 99] [half; quarter; half]
           (initialized_driver 100)); done.
Defined.

(** ** Stop and start with a transport that never fails *)

Lemma SFcompare_antisym (x y : float) :
  SFcompare y x = CompOpp <$> SFcompare x y.
Proof.
  destruct x as [[]|[]| |[] m1 e1], y as [[]|[]| |[] m2 e2]; try done; simpl;
    rewrite (Z.compare_antisym e1 e2); destruct (e1 ?= e2); simpl; try done;
    by rewrite (Pos.compare_cont_antisym m1 m2 Eq).
Qed.

Lemma leb_not_ltb (x y : float) :
  Float32.leb x y = true -> Float32.ltb y x = false.
Proof.
  unfold Float32.leb, Float32.ltb, SFleb, SFltb. rewrite (SFcompare_antisym x y).
  by destruct (SFcompare x y) as [[]|].
Qed.

Lemma leb_not_nan (x y : float) : Float32.leb x y = true -> Float32.is_nan x = false.
Proof. by destruct x. Qed.

Section Reliable.
Context {B : Type} `{!BaseI2c B} `{!Reliable B}.
Implicit Types s : Pca9685Pwm (list I2cEvent * B).

Lemma WriteRegister_reliable reg value s :
  i2c_ s ≠ None ->
  ∃ s', WriteRegister reg value s = Some (PWM_SUCCESS, s')
        ∧ trace s' = trace s ++ [EvWrite (i2c_address_ s) [reg; value] I2C_SUCCESS]
        ∧ bus_advanced s s'.
Proof.
  intros Hbus. unfold WriteRegister, i2c_is_null, i2c_call. run_unfold.
  destruct (i2c_ s) as [[log b]|] eqn:Hs; [|done]. simpl. rewrite Hs.
  pose proof (Write_succeeds (i2c_address_ s) [reg; value] b) as Hok.
  destruct (i2c_Write (i2c_address_ s) [reg; value] b) as [st b'].
  simpl in Hok. subst st. simpl.
  eexists. split; [done|]. unfold trace at 2. rewrite Hs. by repeat split.
Qed.

Lemma SetChannelTiming_reliable channel_id on off s :
  i2c_ s ≠ None -> channel_id < 16 ->
  ∃ s', SetChannelTiming channel_id on off s = Some (PWM_SUCCESS, s')
        ∧ trace s' = trace s ++ timing_writes (i2c_address_ s) channel_id on off
        ∧ bus_advanced s s'.
Proof.
  intros Hbus Hch. unfold SetChannelTiming.
  rewrite IsValidChannel_true by done. change (negb true) with false. cbv iota.
  set (base := u8 (Registers.LED0_ON_L + channel_id * 4)).
  destruct (WriteRegister_reliable base (u8 (Z.land on 255)) s Hbus)
    as (s1 & Hrun1 & Ht1 & Ha1 & Hi1 & Hc1 & Hb1).
  rewrite (bind_run _ _ _ _ _ Hrun1). simpl.
  destruct (WriteRegister_reliable (u8 (base + 1)) (u8 (Z.land (on ≫ 8) 255)) s1 Hb1)
    as (s2 & Hrun2 & Ht2 & Ha2 & Hi2 & Hc2 & Hb2).
  rewrite (bind_run _ _ _ _ _ Hrun2). simpl.
  destruct (WriteRegister_reliable (u8 (base + 2)) (u8 (Z.land off 255)) s2 Hb2)
    as (s3 & Hrun3 & Ht3 & Ha3 & Hi3 & Hc3 & Hb3).
  rewrite (bind_run _ _ _ _ _ Hrun3). simpl.
  destruct (WriteRegister_reliable (u8 (base + 3)) (u8 (Z.land (off ≫ 8) 255)) s3 Hb3)
    as (s4 & Hrun4 & Ht4 & Ha4 & Hi4 & Hc4 & Hb4).
  rewrite (bind_run _ _ _ _ _ Hrun4). simpl.
  exists s4. split; [done|]. split.
  - rewrite Ht4, Ht3, Ht2, Ht1, Ha3, Ha2, Ha1. unfold timing_writes. fold base.
    by rewrite <- !app_assoc.
  - repeat split; congruence.
Qed.

Lemma SetDutyCycle_reliable channel_id d c s :
  is_initialized_ s = true -> i2c_ s ≠ None -> channel_id < 16 ->
  channels_ s !! Z.to_nat channel_id = Some c ->
  Float32.valid d = true ->
  Float32.leb Float32.zero d = true -> Float32.leb d Float32.one = true ->
  ∃ on off s',
    DutyCycleToTiming d = Some (on, off)
    ∧ SetDutyCycle channel_id d s = Some (PWM_SUCCESS, s')
    ∧ trace s' = trace s ++ timing_writes (i2c_address_ s) channel_id on off
    ∧ channels_ s' = <[Z.to_nat channel_id := set_duty d on off c]> (channels_ s)
    ∧ i2c_address_ s' = i2c_address_ s ∧ is_initialized_ s' = true ∧ i2c_ s' ≠ None.
Proof.
  intros Hinit Hbus Hch Hc Hd H0 H1.
  destruct (DutyCycleToTiming_defined d Hd (leb_not_nan _ _ H1)) as (on & off & Hmap).
  exists on, off. unfold SetDutyCycle.
  rewrite (bind_run _ _ s true s) by (unfold gets; by rewrite Hinit).
  change (negb true) with false. cbv iota.
  rewrite IsValidChannel_true by done. change (negb true) with false. cbv iota.
  rewrite (leb_not_ltb _ _ H0), (leb_not_ltb _ _ H1). change (false || false) with false. cbv iota.
  rewrite Hmap. rewrite (bind_run _ _ s (on, off) s) by done. cbv beta iota.
  destruct (SetChannelTiming_reliable channel_id on off s Hbus Hch)
    as (s1 & Hrun & Ht & Ha & Hi & Hcs & Hb).
  rewrite (bind_run _ _ _ _ _ Hrun).
  rewrite decide_True by done.
  unfold channel_assign. run_unfold. rewrite Hcs, Hc. simpl.
  eexists. split; [done|]. split; [done|]. split; [exact Ht|]. split; [done|].
  simpl. repeat split; congruence.
Qed.

Lemma Stop_reliable channel_id c s :
  is_initialized_ s = true -> i2c_ s ≠ None -> channel_id < 16 ->
  channels_ s !! Z.to_nat channel_id = Some c ->
  ∃ s',
    Stop channel_id s = Some (PWM_SUCCESS, s')
    ∧ trace s' = trace s ++ timing_writes (i2c_address_ s) channel_id 0 4095
    ∧ channels_ s' = <[Z.to_nat channel_id := set_is_active false c]> (channels_ s)
    ∧ i2c_address_ s' = i2c_address_ s ∧ is_initialized_ s' = true ∧ i2c_ s' ≠ None.
Proof.
  intros Hinit Hbus Hch Hc. unfold Stop.
  rewrite (bind_run _ _ s true s) by (unfold gets; by rewrite Hinit).
  change (negb true) with false. cbv iota.
  rewrite IsValidChannel_true by done. change (negb true) with false. cbv iota.
  destruct (SetChannelTiming_reliable channel_id 0 MAX_PWM_VALUE s Hbus Hch)
    as (s1 & Hrun & Ht & Ha & Hi & Hcs & Hb).
  rewrite (bind_run _ _ _ _ _ Hrun).
  rewrite decide_True by done.
  unfold channel_assign. run_unfold. rewrite Hcs, Hc. simpl.
  eexists. split; [done|]. split; [exact Ht|]. split; [done|].
  simpl. repeat split; congruence.
Qed.

Lemma Start_reliable channel_id c s :
  is_initialized_ s = true -> i2c_ s ≠ None -> channel_id < 16 ->
  channels_ s !! Z.to_nat channel_id = Some c ->
  ∃ s',
    Start channel_id s = Some (PWM_SUCCESS, s')
    ∧ trace s' = trace s
                 ++ timing_writes (i2c_address_ s) channel_id (on_time c) (off_time c)
    ∧ channels_ s' = <[Z.to_nat channel_id := set_is_active true c]> (channels_ s)
    ∧ i2c_address_ s' = i2c_address_ s ∧ is_initialized_ s' = true ∧ i2c_ s' ≠ None.
Proof.
  intros Hinit Hbus Hch Hc. unfold Start.
  rewrite (bind_run _ _ s true s) by (unfold gets; by rewrite Hinit).
  change (negb true) with false. cbv iota.
  rewrite IsValidChannel_true by done. change (negb true) with false. cbv iota.
  rewrite (bind_run _ _ s c s) by (unfold channel_at; by rewrite Hc).
  destruct (SetChannelTiming_reliable channel_id (on_time c) (off_time c) s Hbus Hch)
    as (s1 & Hrun & Ht & Ha & Hi & Hcs & Hb).
  rewrite (bind_run _ _ _ _ _ Hrun).
  rewrite decide_True by done.
  unfold channel_assign. run_unfold. rewrite Hcs, Hc. simpl.
  eexists. split; [done|]. split; [exact Ht|]. split; [done|].
  simpl. repeat split; congruence.
Qed.

Lemma GetDutyCycle_run channel_id c s :
  is_initialized_ s = true -> channel_id < 16 ->
  channels_ s !! Z.to_nat channel_id = Some c ->
  GetDutyCycle channel_id s = Some ((PWM_SUCCESS, Some (duty_cycle c)), s).
Proof.
  intros Hinit Hch Hc. unfold GetDutyCycle, channel_at. run_unfold.
  rewrite Hinit, IsValidChannel_true by done. simpl. by rewrite Hc.
Qed.
End Reliable.

#[global] Instance RegisterFile_Reliable : Reliable (gmap Z Z).
Proof.
  split; try done.
  - intros address data regs. simpl. case_bool_decide; [done|].
    by destruct data as [|? [|? [|? ?]]].
  - intros address out regs. simpl. by destruct out as [|? [|? ?]].
Qed.

(** C7. On an initialized driver whose transport never fails, for every
    valid channel and every duty cycle d in [0, 1]:
    SetDutyCycle(channel, d), Stop(channel), Start(channel) all succeed;
    the stored duty cycle read by GetDutyCycle is d after the Stop and
    after the Start; Stop writes the timing (0, 4095) to the channel's
    registers and Start writes again the timing pair that SetDutyCycle
    computed and stored. *)
Theorem duty_cycle_survives_stop_start {B : Type} `{!BaseI2c B} `{!Reliable B}
    (s : Pca9685Pwm (list I2cEvent * B)) (channel_id : Z) (d : float) :
  is_initialized_ s = true -> i2c_ s ≠ None -> well_formed s ->
  0 <= channel_id < 16 ->
  Float32.valid d = true ->
  Float32.leb Float32.zero d = true -> Float32.leb d Float32.one = true ->
  ∃ on off s1 s2 s3,
    DutyCycleToTiming d = Some (on, off)
    ∧ SetDutyCycle channel_id d s = Some (PWM_SUCCESS, s1)
    ∧ Stop channel_id s1 = Some (PWM_SUCCESS, s2)
    ∧ Start channel_id s2 = Some (PWM_SUCCESS, s3)
    ∧ GetDutyCycle channel_id s1 = Some ((PWM_SUCCESS, Some d), s1)
    ∧ GetDutyCycle channel_id s2 = Some ((PWM_SUCCESS, Some d), s2)
    ∧ GetDutyCycle channel_id s3 = Some ((PWM_SUCCESS, Some d), s3)
    ∧ (∃ c, channels_ s1 !! Z.to_nat channel_id = Some c
            ∧ on_time c = on ∧ off_time c = off)
    ∧ trace s2 = trace s1 ++ timing_writes (i2c_address_ s) channel_id 0 4095
    ∧ trace s3 = trace s2 ++ timing_writes (i2c_address_ s) channel_id on off.
Proof.
  intros Hinit Hbus Hwf Hch Hd H0 H1.
  assert (Z.to_nat channel_id < length (channels_ s))%nat as Hlt.
  { rewrite Hwf. unfold MAX_CHANNELS. lia. }
  destruct (lookup_lt_is_Some_2 _ _ Hlt) as [c Hc].
  destruct (SetDutyCycle_reliable channel_id d c s Hinit Hbus ltac:(lia) Hc Hd H0 H1)
    as (on & off & s1 & Hmap & Hrun1 & Ht1 & Hcs1 & Ha1 & Hi1 & Hb1).
  assert (channels_ s1 !! Z.to_nat channel_id = Some (set_duty d on off c)) as Hc1.
  { rewrite Hcs1. by apply list_lookup_insert_eq. }
  destruct (Stop_reliable channel_id _ s1 Hi1 Hb1 ltac:(lia) Hc1)
    as (s2 & Hrun2 & Ht2 & Hcs2 & Ha2 & Hi2 & Hb2).
  assert (channels_ s2 !! Z.to_nat channel_id
          = Some (set_is_active false (set_duty d on off c))) as Hc2.
  { rewrite Hcs2. apply list_lookup_insert_eq. by rewrite Hcs1, length_insert. }
  destruct (Start_reliable channel_id _ s2 Hi2 Hb2 ltac:(lia) Hc2)
    as (s3 & Hrun3 & Ht3 & Hcs3 & Ha3 & Hi3 & Hb3).
  assert (channels_ s3 !! Z.to_nat channel_id
          = Some (set_is_active true (set_is_active false (set_duty d on off c)))) as Hc3.
  { rewrite Hcs3. apply list_lookup_insert_eq. by rewrite Hcs2, length_insert, Hcs1, length_insert. }
  exists on, off, s1, s2, s3.
  split; [done|]. split; [done|]. split; [done|]. split; [done|].
  split; [by rewrite (GetDutyCycle_run channel_id _ s1 Hi1 ltac:(lia) Hc1)|].
  split; [by rewrite (GetDutyCycle_run channel_id _ s2 Hi2 ltac:(lia) Hc2)|].
  split; [by rewrite (GetDutyCycle_run channel_id _ s3 Hi3 ltac:(lia) Hc3)|].
  split; [by eexists|].
  split; [by rewrite Ht2, Ha1|]. by rewrite Ht3, Ha2, Ha1.
Qed.

Lemma duty_cycle_survives_stop_start_witness :
  is_initialized_ reliable_driver = true ∧ i2c_ reliable_driver ≠ None
  ∧ well_formed reliable_driver ∧ 0 <= 3 < 16
  ∧ Float32.valid quarter = true
  ∧ Float32.leb Float32.zero quarter = true ∧ Float32.leb quarter Float32.one = true
  ∧ ∃ on off s1 s2 s3,
      DutyCycleToTiming quarter = Some (on, off)
      ∧ SetDutyCycle 3 quarter reliable_driver = Some (PWM_SUCCESS, s1)
      ∧ Stop 3 s1 = Some (PWM_SUCCESS, s2)
      ∧ Start 3 s2 = Some (PWM_SUCCESS, s3)
      ∧ GetDutyCycle 3 s1 = Some ((PWM_SUCCESS, Some quarter), s1)
      ∧ GetDutyCycle 3 s2 = Some ((PWM_SUCCESS, Some quarter), s2)
      ∧ GetDutyCycle 3 s3 = Some ((PWM_SUCCESS, Some quarter), s3)
      ∧ (∃ c, channels_ s1 !! Z.to_nat 3 = Some c ∧ on_time c = on ∧ off_time c = off)
      ∧ trace s2 = trace s1 ++ timing_writes (i2c_address_ reliable_driver) 3 0 4095
      ∧ trace s3 = trace s2 ++ timing_writes (i2c_address_ reliable_driver) 3 on off.
Proof.
  split; [done|]. split; [done|]. split; [done|]. split; [lia|].
  split; [by vm_compute|]. split; [by vm_compute|]. split; [by vm_compute|].
  apply (duty_cycle_survives_stop_start reliable_driver 3 quarter);
    first [done | lia | by vm_compute].
Defined.

(* ===================================================================== *)
(** * Part III: further properties of the operations                      *)
(* ===================================================================== *)

(** ** Frames and outcomes *)

Section Frames.
Context {B : Type} `{!BaseI2c B}.
Implicit Types s : Pca9685Pwm B.

Lemma same_fields_refl s : same_fields s s.
Proof. by repeat split. Qed.

Lemma same_fields_trans s1 s2 s3 :
  same_fields s1 s2 -> same_fields s2 s3 -> same_fields s1 s3.
Proof. intros (?&?&?&?&?&?) (?&?&?&?&?&?). repeat split; congruence. Qed.

Lemma same_fields_bus_independent s0 : bus_independent (same_fields s0).
Proof. by intros s b (?&?&?&?&?&?). Qed.

#[local] Hint Resolve same_fields_bus_independent preserves_i2c_call : preserve.

Lemma frame_WriteRegister s0 reg value :
  preserves (same_fields s0) (WriteRegister reg value).
Proof. unfold WriteRegister. preserve. Qed.

Lemma frame_ReadRegister s0 reg : preserves (same_fields s0) (ReadRegister reg).
Proof. unfold ReadRegister. preserve. Qed.

#[local] Hint Resolve frame_WriteRegister frame_ReadRegister : preserve.

Lemma frame_SetChannelTiming s0 channel_id on off :
  preserves (same_fields s0) (SetChannelTiming channel_id on off).
Proof. unfold SetChannelTiming. preserve. Qed.

Lemma WriteRegister_status reg value s r s' :
  WriteRegister reg value s = Some (r, s') ->
  r = PWM_SUCCESS ∨ r = PWM_HARDWARE_ERROR.
Proof.
  unfold WriteRegister.
  intros (null & s1 & _ & Hrun)%bind_Some.
  destruct null; [apply ret_Some in Hrun as [-> _]; by right|].
  apply bind_Some in Hrun as (address & s2 & _ & Hrun).
  apply bind_Some in Hrun as (st & s3 & _ & Hrun).
  destruct (decide (st ≠ I2C_SUCCESS)); apply ret_Some in Hrun as [-> _]; by eauto.
Qed.

Lemma ReadRegister_status reg s r value s' :
  ReadRegister reg s = Some ((r, value), s') ->
  r = PWM_SUCCESS ∨ r = PWM_HARDWARE_ERROR.
Proof.
  unfold ReadRegister.
  intros (null & s1 & _ & Hrun)%bind_Some.
  destruct null; [apply ret_Some in Hrun as [[= -> _] _]; by right|].
  apply bind_Some in Hrun as (address & s2 & _ & Hrun).
  apply bind_Some in Hrun as ([st v] & s3 & _ & Hrun).
  destruct (decide (st ≠ I2C_SUCCESS)); apply ret_Some in Hrun as [[= -> _] _]; by eauto.
Qed.

Lemma SetChannelTiming_status channel_id on off s r s' :
  channel_id < 16 ->
  SetChannelTiming channel_id on off s = Some (r, s') ->
  r = PWM_SUCCESS ∨ r = PWM_HARDWARE_ERROR.
Proof.
  intros Hch. unfold SetChannelTiming. rewrite IsValidChannel_true by done.
  change (negb true) with false. cbv iota.
  intros Hrun.
  repeat
    (apply bind_Some in Hrun as (? & ? & [->| ->]%WriteRegister_status & Hrun);
     [|apply ret_Some in Hrun as [-> _]; by right];
     simpl in Hrun).
  apply ret_Some in Hrun as [-> _]. by left.
Qed.

(** The five ways in which a call of [SetFrequency] can end. *)
Lemma SetFrequency_inv channel_id frequency s r s' :
  SetFrequency channel_id frequency s = Some (r, s') ->
  (is_initialized_ s = false ∧ r = PWM_NOT_INITIALIZED ∧ s' = s)
  ∨ (is_initialized_ s = true ∧ 16 <= channel_id
     ∧ r = PWM_INVALID_CHANNEL ∧ s' = s)
  ∨ (is_initialized_ s = true ∧ channel_id < 16 ∧ ¬ (24 <= frequency <= 1526)
     ∧ r = PWM_INVALID_FREQUENCY ∧ s' = s)
  ∨ (is_initialized_ s = true ∧ channel_id < 16 ∧ 24 <= frequency <= 1526
     ∧ r = PWM_HARDWARE_ERROR ∧ same_fields s s')
  ∨ (is_initialized_ s = true ∧ channel_id < 16 ∧ 24 <= frequency <= 1526
     ∧ r = PWM_SUCCESS
     ∧ ∃ p s1, CalculatePrescale frequency = Some p ∧ same_fields s s1
               ∧ s' = set_frequency frequency p s1).
Proof.
  unfold SetFrequency.
  intros (initialized & s0 & [= <- <-] & Hrun)%bind_Some.
  destruct (is_initialized_ s) eqn:Hinit; simpl in Hrun;
    [|apply ret_Some in Hrun as [-> ->]; by left].
  right. unfold IsValidChannel in Hrun. case_bool_decide as Hch; simpl in Hrun;
    [|apply ret_Some in Hrun as [-> ->]; left; unfold MAX_CHANNELS in Hch;
      repeat split; try done; lia].
  right. unfold MIN_FREQUENCY, MAX_FREQUENCY, MAX_CHANNELS in *.
  case_bool_decide as Hlo; simpl in Hrun;
    [apply ret_Some in Hrun as [-> ->]; left; repeat split; try done; lia|].
  case_bool_decide as Hhi; simpl in Hrun;
    [apply ret_Some in Hrun as [-> ->]; left; repeat split; try done; lia|].
  right. assert (24 <= frequency <= 1526) as Hf by lia.
  apply bind_Some in Hrun as (p & s0 & Hp & Hrun).
  unfold defined in Hp. destruct (CalculatePrescale frequency) as [p'|] eqn:Hcalc; [|done].
  injection Hp as -> <-.
  apply bind_Some in Hrun as ([r1 mode1] & s1 & Hread & Hrun).
  pose proof (frame_ReadRegister s _ s _ s1 (same_fields_refl s) Hread) as Hf1.
  apply ReadRegister_status in Hread as [->| ->]; simpl in Hrun;
    [|apply ret_Some in Hrun as [-> ->]; by left].
  apply bind_Some in Hrun as (r2 & s2 & Hw2 & Hrun).
  pose proof (frame_WriteRegister s _ _ s1 _ s2 Hf1 Hw2) as Hf2.
  apply WriteRegister_status in Hw2 as [->| ->]; simpl in Hrun;
    [|apply ret_Some in Hrun as [-> ->]; by left].
  apply bind_Some in Hrun as (r3 & s3 & Hw3 & Hrun).
  pose proof (frame_WriteRegister s _ _ s2 _ s3 Hf2 Hw3) as Hf3.
  apply WriteRegister_status in Hw3 as [->| ->]; simpl in Hrun;
    [|apply ret_Some in Hrun as [-> ->]; by left].
  apply bind_Some in Hrun as (r4 & s4 & Hw4 & Hrun).
  pose proof (frame_WriteRegister s _ _ s3 _ s4 Hf3 Hw4) as Hf4.
  apply WriteRegister_status in Hw4 as [->| ->]; simpl in Hrun;
    [|apply ret_Some in Hrun as [-> ->]; by left].
  apply bind_Some in Hrun as ([] & s5 & [= <-] & [-> ->]%ret_Some).
  right. do 4 (split; [done|]). by exists p, s4.
Qed.

(** The tail shared by [SetDutyCycle], [Start] and [Stop]: the four
    register writes, then the assignment to the channel record when they
    all succeeded. *)
Lemma timing_then_assign_inv channel_id on off (f : ChannelState -> ChannelState) s r s' :
  channel_id < 16 ->
  (result ← SetChannelTiming channel_id on off;
   (if decide (result = PWM_SUCCESS) then channel_assign channel_id f else mret tt);;
   mret result) s = Some (r, s') ->
  (r = PWM_HARDWARE_ERROR ∧ same_fields s s')
  ∨ (r = PWM_SUCCESS
     ∧ ∃ c s1, same_fields s s1 ∧ channels_ s !! Z.to_nat channel_id = Some c
               ∧ s' = set_channels (<[Z.to_nat channel_id := f c]> (channels_ s)) s1).
Proof.
  intros Hch (r1 & s1 & Htiming & Hrun)%bind_Some.
  pose proof (frame_SetChannelTiming s _ _ _ s _ s1 (same_fields_refl s) Htiming) as Hf1.
  apply SetChannelTiming_status in Htiming as [->| ->]; [| |done].
  - rewrite decide_True in Hrun by done.
    apply bind_Some in Hrun as ([] & s2 & Hassign & [-> ->]%ret_Some).
    right. split; [done|]. unfold channel_assign in Hassign.
    destruct Hf1 as (?&?&?&?&?&Hcs). rewrite Hcs in Hassign.
    destruct (channels_ s !! Z.to_nat channel_id) as [c|] eqn:Hc; [|done].
    simpl in Hassign. injection Hassign as <-.
    exists c, s1. by repeat split.
  - rewrite decide_False in Hrun by done.
    apply bind_Some in Hrun as ([] & s2 & [_ ->]%ret_Some & [-> ->]%ret_Some).
    by left.
Qed.

(** The five ways in which a call of [SetDutyCycle] can end. *)
Lemma SetDutyCycle_inv channel_id d s r s' :
  SetDutyCycle channel_id d s = Some (r, s') ->
  (is_initialized_ s = false ∧ r = PWM_NOT_INITIALIZED ∧ s' = s)
  ∨ (is_initialized_ s = true ∧ 16 <= channel_id
     ∧ r = PWM_INVALID_CHANNEL ∧ s' = s)
  ∨ (is_initialized_ s = true ∧ channel_id < 16
     ∧ Float32.ltb d Float32.zero || Float32.ltb Float32.one d = true
     ∧ r = PWM_INVALID_DUTY_CYCLE ∧ s' = s)
  ∨ (is_initialized_ s = true ∧ channel_id < 16
     ∧ Float32.ltb d Float32.zero || Float32.ltb Float32.one d = false
     ∧ r = PWM_HARDWARE_ERROR ∧ same_fields s s')
  ∨ (is_initialized_ s = true ∧ channel_id < 16
     ∧ Float32.ltb d Float32.zero || Float32.ltb Float32.one d = false
     ∧ r = PWM_SUCCESS
     ∧ ∃ on off c s1,
         DutyCycleToTiming d = Some (on, off) ∧ same_fields s s1
         ∧ channels_ s !! Z.to_nat channel_id = Some c
         ∧ s' = set_channels
                  (<[Z.to_nat channel_id := set_duty d on off c]> (channels_ s)) s1).
Proof.
  unfold SetDutyCycle.
  intros (initialized & s0 & [= <- <-] & Hrun)%bind_Some.
  destruct (is_initialized_ s) eqn:Hinit; simpl in Hrun;
    [|apply ret_Some in Hrun as [-> ->]; by left].
  right. unfold IsValidChannel in Hrun. case_bool_decide as Hch; simpl in Hrun;
    [|apply ret_Some in Hrun as [-> ->]; left; unfold MAX_CHANNELS in Hch;
      repeat split; try done; lia].
  right. unfold MAX_CHANNELS in Hch.
  destruct (Float32.ltb d Float32.zero || Float32.ltb Float32.one d) eqn:Hrange;
    [apply ret_Some in Hrun as [-> ->]; by left|].
  right.
  apply bind_Some in Hrun as ([on off] & s0 & Hmap & Hrun).
  unfold defined in Hmap. destruct (DutyCycleToTiming d) as [[on' off']|] eqn:Hd; [|done].
  injection Hmap as -> -> <-.
  apply timing_then_assign_inv in Hrun as [[-> Hf]|[-> (c & s1 & Hf & Hc & ->)]]; [| |done].
  - by left.
  - right. do 4 (split; [done|]). by exists on, off, c, s1.
Qed.

Lemma Start_inv channel_id s r s' :
  Start channel_id s = Some (r, s') ->
  (is_initialized_ s = false ∧ r = PWM_NOT_INITIALIZED ∧ s' = s)
  ∨ (is_initialized_ s = true ∧ 16 <= channel_id
     ∧ r = PWM_INVALID_CHANNEL ∧ s' = s)
  ∨ (is_initialized_ s = true ∧ channel_id < 16
     ∧ r = PWM_HARDWARE_ERROR ∧ same_fields s s')
  ∨ (is_initialized_ s = true ∧ channel_id < 16 ∧ r = PWM_SUCCESS
     ∧ ∃ c s1, same_fields s s1 ∧ channels_ s !! Z.to_nat channel_id = Some c
               ∧ s' = set_channels
                        (<[Z.to_nat channel_id := set_is_active true c]> (channels_ s)) s1).
Proof.
  unfold Start.
  intros (initialized & s0 & [= <- <-] & Hrun)%bind_Some.
  destruct (is_initialized_ s) eqn:Hinit; simpl in Hrun;
    [|apply ret_Some in Hrun as [-> ->]; by left].
  right. unfold IsValidChannel in Hrun. case_bool_decide as Hch; simpl in Hrun;
    [|apply ret_Some in Hrun as [-> ->]; left; unfold MAX_CHANNELS in Hch;
      repeat split; try done; lia].
  right. unfold MAX_CHANNELS in Hch.
  apply bind_Some in Hrun as (c0 & s0 & Hat & Hrun).
  unfold channel_at in Hat.
  destruct (channels_ s !! Z.to_nat channel_id) as [c1|] eqn:Hc in Hat; [|done].
  simpl in Hat. injection Hat as -> <-.
  apply timing_then_assign_inv in Hrun as [[-> Hf]|[-> Hok]]; [| |done].
  - by left.
  - by right.
Qed.

Lemma Stop_inv channel_id s r s' :
  Stop channel_id s = Some (r, s') ->
  (is_initialized_ s = false ∧ r = PWM_NOT_INITIALIZED ∧ s' = s)
  ∨ (is_initialized_ s = true ∧ 16 <= channel_id
     ∧ r = PWM_INVALID_CHANNEL ∧ s' = s)
  ∨ (is_initialized_ s = true ∧ channel_id < 16
     ∧ r = PWM_HARDWARE_ERROR ∧ same_fields s s')
  ∨ (is_initialized_ s = true ∧ channel_id < 16 ∧ r = PWM_SUCCESS
     ∧ ∃ c s1, same_fields s s1 ∧ channels_ s !! Z.to_nat channel_id = Some c
               ∧ s' = set_channels
                        (<[Z.to_nat channel_id := set_is_active false c]> (channels_ s)) s1).
Proof.
  unfold Stop.
  intros (initialized & s0 & [= <- <-] & Hrun)%bind_Some.
  destruct (is_initialized_ s) eqn:Hinit; simpl in Hrun;
    [|apply ret_Some in Hrun as [-> ->]; by left].
  right. unfold IsValidChannel in Hrun. case_bool_decide as Hch; simpl in Hrun;
    [|apply ret_Some in Hrun as [-> ->]; left; unfold MAX_CHANNELS in Hch;
      repeat split; try done; lia].
  right. unfold MAX_CHANNELS in Hch.
  apply timing_then_assign_inv in Hrun as [[-> Hf]|[-> Hok]]; [| |done].
  - by left.
  - by right.
Qed.
End Frames.

(** ** [Initialize], [SetFrequency] and [GetFrequency] *)

Section Outcomes.
Context {B : Type} `{!BaseI2c B}.
Implicit Types s : Pca9685Pwm B.

Lemma SetFrequency_returns channel_id frequency s :
  ∃ r s', SetFrequency channel_id frequency s = Some (r, s').
Proof.
  unfold SetFrequency. rewrite (bind_run _ _ s (is_initialized_ s) s) by done.
  destruct (negb (is_initialized_ s)); [by eexists _, _|].
  destruct (negb (IsValidChannel channel_id)); [by eexists _, _|].
  destruct (bool_decide (frequency < MIN_FREQUENCY)) eqn:Hlo; [by eexists _, _|].
  destruct (bool_decide (frequency > MAX_FREQUENCY)) eqn:Hhi; [by eexists _, _|].
  apply bool_decide_eq_false in Hlo, Hhi. change (false || false) with false. cbv iota.
  destruct (CalculatePrescale_defined frequency) as (p & Hp & _); [lia|].
  rewrite Hp. rewrite (bind_run _ _ s p s) by done.
  destruct (ReadRegister_total Registers.MODE1 s) as ([r1 v] & s1 & Hrun1 & _).
  rewrite (bind_run _ _ _ _ _ Hrun1).
  destruct (decide (r1 ≠ PWM_SUCCESS)); [by eexists _, _|].
  repeat
    (match goal with
     | |- ∃ r s', (WriteRegister ?reg ?v ≫= _) ?s0 = _ =>
         let r := fresh "r" in let s1 := fresh "s" in let Hrun := fresh "Hrun" in
         destruct (WriteRegister_total reg v s0) as (r & s1 & Hrun & _);
         rewrite (bind_run _ _ _ _ _ Hrun);
         destruct (decide (r ≠ PWM_SUCCESS)); [by eexists _, _|]
     end).
  by eexists _, _.
Qed.

Lemma Reset_returns s :
  ∃ r s', Reset s = Some (r, s') ∧ (r = PWM_SUCCESS ∨ r = PWM_HARDWARE_ERROR).
Proof.
  unfold Reset, i2c_is_null, i2c_call. run_unfold.
  destruct (i2c_ s) as [b|] eqn:Hbus; simpl; [|by eauto]. rewrite Hbus.
  destruct (i2c_Write 0 [0; 6] b) as [st b'].
  destruct (decide (st ≠ I2C_SUCCESS)); by eauto.
Qed.
End Outcomes.

(** X1. A call of [Initialize] on a driver that is already initialized
    returns success and changes nothing; on a driver that is not
    initialized it returns InvalidArgument, with the object unchanged,
    when there is no transport, and otherwise it returns HardwareError or
    NotInitialized and leaves the driver uninitialized: no call ever
    turns an uninitialized driver into an initialized one. *)
Theorem Initialize_outcomes {B : Type} `{!BaseI2c B} (s : Pca9685Pwm B) :
  (is_initialized_ s = true -> Initialize s = Some (PWM_SUCCESS, s))
  ∧ (is_initialized_ s = false -> i2c_ s = None ->
     Initialize s = Some (PWM_INVALID_ARGUMENT, s))
  ∧ (is_initialized_ s = false -> i2c_ s ≠ None ->
     ∃ r s', Initialize s = Some (r, s')
             ∧ (r = PWM_HARDWARE_ERROR ∨ r = PWM_NOT_INITIALIZED)
             ∧ is_initialized_ s' = false).
Proof.
  split; [|split].
  - intros Hinit. unfold Initialize. run_unfold. by rewrite Hinit.
  - intros Hinit Hbus. unfold Initialize, i2c_is_null. run_unfold.
    by rewrite Hinit, Hbus.
  - intros Hinit Hbus.
    assert (∃ r s', Initialize s = Some (r, s')
                    ∧ (r = PWM_HARDWARE_ERROR ∨ r = PWM_NOT_INITIALIZED)) as (r & s' & Hrun & Hr).
    { unfold Initialize.
      rewrite (bind_run _ _ s false s) by (unfold gets; by rewrite Hinit).
      destruct (i2c_ s) as [b|] eqn:Hb; [|done].
      rewrite (bind_run _ _ s false s) by (unfold i2c_is_null; by rewrite Hb).
      destruct (i2c_Initialize b) as [st b1] eqn:Hst.
      rewrite (bind_run _ _ s st (set_i2c b1 s)) by (unfold i2c_call; by rewrite Hb, Hst).
      destruct (decide (st ≠ I2C_SUCCESS)); [by eauto|].
      destruct (Reset_returns (set_i2c b1 s)) as (r1 & s1 & Hreset & Hr1).
      pose proof (Reset_keeps_uninitialized (set_i2c b1 s) _ _ Hinit Hreset) as Hinit1.
      rewrite (bind_run _ _ _ _ _ Hreset).
      destruct Hr1 as [->| ->]; [|by eauto].
      rewrite decide_False by (intros Hne; by apply Hne).
      rewrite (bind_run _ _ s1 (current_frequency_ s1) s1) by done.
      rewrite (bind_run _ _ s1 PWM_NOT_INITIALIZED s1)
        by (unfold SetFrequency; run_unfold; by rewrite Hinit1).
      by eauto. }
    exists r, s'. split; [done|]. split; [done|].
    by destruct (Initialize_never_succeeds s r s' Hinit Hrun).
Qed.

Lemma Initialize_outcomes_witness :
  is_initialized_ fresh_driver = false ∧ i2c_ fresh_driver ≠ None
  ∧ ∃ r s', Initialize fresh_driver = Some (r, s')
            ∧ (r = PWM_HARDWARE_ERROR ∨ r = PWM_NOT_INITIALIZED)
            ∧ is_initialized_ s' = false.
Proof.
  split; [done|]. split; [done|].
  destruct (Initialize_outcomes fresh_driver) as (_ & _ & Hthird).
  by apply Hthird.
Defined.

(** X2. [SetFrequency] always returns, and it is all or nothing: on
    success the object holds the requested frequency and the prescale
    value the calculator gives for it, on any failure both fields are as
    before; the channel records, the flag and the address are never
    touched.  It returns InvalidFrequency exactly when the driver is
    initialized, the channel is valid and the frequency is outside
    [24, 1526]. *)
Theorem SetFrequency_all_or_nothing {B : Type} `{!BaseI2c B}
    (s : Pca9685Pwm B) (channel_id frequency : Z) :
  ∃ r s',
    SetFrequency channel_id frequency s = Some (r, s')
    ∧ channels_ s' = channels_ s
    ∧ is_initialized_ s' = is_initialized_ s
    ∧ i2c_address_ s' = i2c_address_ s
    ∧ (r = PWM_SUCCESS ->
       MIN_FREQUENCY <= frequency <= MAX_FREQUENCY
       ∧ current_frequency_ s' = frequency
       ∧ CalculatePrescale frequency = Some (prescale_value_ s'))
    ∧ (r ≠ PWM_SUCCESS ->
       current_frequency_ s' = current_frequency_ s
       ∧ prescale_value_ s' = prescale_value_ s)
    ∧ (r = PWM_INVALID_FREQUENCY <->
       is_initialized_ s = true ∧ channel_id < MAX_CHANNELS
       ∧ ¬ (MIN_FREQUENCY <= frequency <= MAX_FREQUENCY)).
Proof.
  destruct (SetFrequency_returns channel_id frequency s) as (r & s' & Hrun).
  exists r, s'. split; [done|]. unfold MIN_FREQUENCY, MAX_FREQUENCY, MAX_CHANNELS.
  destruct (SetFrequency_inv _ _ _ _ _ Hrun)
    as [(Hi & -> & ->)|[(Hi & Hch & -> & ->)|[(Hi & Hch & Hf & -> & ->)
       |[(Hi & Hch & Hf & -> & Hs)|(Hi & Hch & Hf & -> & p & s1 & Hp & Hs & ->)]]]].
  - do 3 (split; [done|]). split; [done|]. split; [done|].
    split; [done|]. intros (Hi' & _). congruence.
  - do 3 (split; [done|]). split; [done|]. split; [done|].
    split; [done|]. intros (_ & Hch' & _). lia.
  - do 3 (split; [done|]). split; [done|]. split; [done|]. by split.
  - destruct Hs as (Ha & _ & Hin & Hcf & Hpv & Hcs).
    do 3 (split; [done|]). split; [done|]. split; [done|].
    split; [done|]. intros (_ & _ & Hf'). by destruct Hf'.
  - destruct Hs as (Ha & _ & Hin & Hcf & Hpv & Hcs).
    do 3 (split; [done|]). split; [done|]. split; [by intros Hne; destruct Hne|].
    split; [done|]. intros (_ & _ & Hf'). by destruct Hf'.
Qed.

Lemma SetFrequency_all_or_nothing_witness :
  ∃ r s',
    SetFrequency 3 50 (initialized_driver 100) = Some (r, s')
    ∧ channels_ s' = channels_ (initialized_driver 100)
    ∧ is_initialized_ s' = is_initialized_ (initialized_driver 100)
    ∧ i2c_address_ s' = i2c_address_ (initialized_driver 100)
    ∧ (r = PWM_SUCCESS ->
       MIN_FREQUENCY <= 50 <= MAX_FREQUENCY
       ∧ current_frequency_ s' = 50
       ∧ CalculatePrescale 50 = Some (prescale_value_ s'))
    ∧ (r ≠ PWM_SUCCESS ->
       current_frequency_ s' = current_frequency_ (initialized_driver 100)
       ∧ prescale_value_ s' = prescale_value_ (initialized_driver 100))
    ∧ (r = PWM_INVALID_FREQUENCY <->
       is_initialized_ (initialized_driver 100) = true ∧ 3 < MAX_CHANNELS
       ∧ ¬ (MIN_FREQUENCY <= 50 <= MAX_FREQUENCY)).
Proof. exact (SetFrequency_all_or_nothing (initialized_driver 100) 3 50). Defined.

(** X3. The frequency is one value for the whole device: after a
    successful [SetFrequency] on any channel, [GetFrequency] returns the
    new frequency for every valid channel. *)
Theorem frequency_is_device_wide {B : Type} `{!BaseI2c B}
    (s s' : Pca9685Pwm B) (channel_id frequency other : Z) :
  SetFrequency channel_id frequency s = Some (PWM_SUCCESS, s') ->
  other < MAX_CHANNELS ->
  GetFrequency other s' = Some ((PWM_SUCCESS, Some frequency), s').
Proof.
  intros Hrun Hother.
  destruct (SetFrequency_inv _ _ _ _ _ Hrun)
    as [(Hi & ? & ->)|[(Hi & Hch & ? & ->)|[(Hi & Hch & Hf & ? & ->)
       |[(Hi & Hch & Hf & ? & Hs)|(Hi & Hch & Hf & _ & p & s1 & Hp & Hs & ->)]]]];
    try done.
  destruct Hs as (Ha & _ & Hin & Hcf & Hpv & Hcs).
  unfold GetFrequency. run_unfold. simpl. rewrite Hin, Hi.
  rewrite IsValidChannel_true by done. done.
Qed.

Lemma frequency_is_device_wide_witness :
  SetFrequency 3 50 reliable_driver
  = Some (PWM_SUCCESS, state_after (SetFrequency 3 50) reliable_driver)
  ∧ 7 < MAX_CHANNELS
  ∧ GetFrequency 7 (state_after (SetFrequency 3 50) reliable_driver)
    = Some ((PWM_SUCCESS, Some 50), state_after (SetFrequency 3 50) reliable_driver).
Proof.
  assert (SetFrequency 3 50 reliable_driver
          = Some (PWM_SUCCESS, state_after (SetFrequency 3 50) reliable_driver)) as Hrun
    by (vm_compute; reflexivity).
  split; [exact Hrun|]. split; [done|].
  exact (frequency_is_device_wide reliable_driver _ 3 50 7 Hrun eq_refl).
Defined.

(** ** [SetDutyCycle], [Start] and [Stop] *)

Section ChannelOutcomes.
Context {B : Type} `{!BaseI2c B}.
Implicit Types s : Pca9685Pwm B.

Lemma timing_then_assign_returns channel_id on off (f : ChannelState -> ChannelState) s :
  well_formed s -> 0 <= channel_id < 16 ->
  ∃ r s',
    (result ← SetChannelTiming channel_id on off;
     (if decide (result = PWM_SUCCESS) then channel_assign channel_id f else mret tt);;
     mret result) s = Some (r, s').
Proof.
  intros Hwf Hch.
  destruct (SetChannelTiming_total channel_id on off s) as (r & s1 & Hrun & Hcs).
  rewrite (bind_run _ _ _ _ _ Hrun).
  destruct (decide (r = PWM_SUCCESS)); [|by eexists _, _].
  destruct (lookup_lt_is_Some_2 (channels_ s1) (Z.to_nat channel_id)) as [c Hc].
  { rewrite Hcs, Hwf. unfold MAX_CHANNELS. lia. }
  unfold channel_assign. run_unfold. rewrite Hc. by eexists _, _.
Qed.

Lemma SetDutyCycle_returns channel_id d s :
  well_formed s -> 0 <= channel_id ->
  Float32.valid d = true -> Float32.is_nan d = false ->
  ∃ r s', SetDutyCycle channel_id d s = Some (r, s').
Proof.
  intros Hwf Hch Hv Hn. unfold SetDutyCycle.
  rewrite (bind_run _ _ s (is_initialized_ s) s) by done.
  destruct (negb (is_initialized_ s)); [by eexists _, _|].
  unfold IsValidChannel. case_bool_decide as Hlt; [|by eexists _, _].
  change (negb true) with false. cbv iota.
  destruct (Float32.ltb d Float32.zero || Float32.ltb Float32.one d); [by eexists _, _|].
  destruct (DutyCycleToTiming_defined d Hv Hn) as (on & off & ->).
  rewrite (bind_run _ _ s (on, off) s) by done. cbv beta iota.
  apply timing_then_assign_returns; [done|]. unfold MAX_CHANNELS in Hlt. lia.
Qed.
End ChannelOutcomes.

(** X4. On an object with its sixteen channel records, [SetDutyCycle]
    returns for every duty cycle that is not NaN.  It returns
    InvalidDutyCycle exactly when the driver is initialized, the channel
    is valid and the duty cycle is below zero or above one.  A call that
    does not succeed leaves every channel record as it was; a successful
    call stores, in the record of that channel alone, the duty cycle and
    the timing pair the mapper gives for it, and keeps the record's
    active flag.  The frequency, the prescale value and the flag of the
    driver are never touched. *)
Theorem SetDutyCycle_outcomes {B : Type} `{!BaseI2c B}
    (s : Pca9685Pwm B) (channel_id : Z) (d : float) :
  well_formed s -> 0 <= channel_id ->
  Float32.valid d = true -> Float32.is_nan d = false ->
  ∃ r s',
    SetDutyCycle channel_id d s = Some (r, s')
    ∧ is_initialized_ s' = is_initialized_ s
    ∧ current_frequency_ s' = current_frequency_ s
    ∧ prescale_value_ s' = prescale_value_ s
    ∧ (r = PWM_INVALID_DUTY_CYCLE <->
       is_initialized_ s = true ∧ channel_id < MAX_CHANNELS
       ∧ (Float32.ltb d Float32.zero = true ∨ Float32.ltb Float32.one d = true))
    ∧ (r ≠ PWM_SUCCESS -> channels_ s' = channels_ s)
    ∧ (r = PWM_SUCCESS ->
       ∃ on off c,
         DutyCycleToTiming d = Some (on, off)
         ∧ channels_ s !! Z.to_nat channel_id = Some c
         ∧ channels_ s'
           = <[Z.to_nat channel_id :=
                 {| is_active := is_active c; duty_cycle := d;
                    on_time := on; off_time := off |}]> (channels_ s)).
Proof.
  intros Hwf Hch Hv Hn.
  destruct (SetDutyCycle_returns channel_id d s Hwf Hch Hv Hn) as (r & s' & Hrun).
  exists r, s'. split; [done|]. unfold MAX_CHANNELS.
  destruct (SetDutyCycle_inv _ _ _ _ _ Hrun)
    as [(Hi & -> & ->)|[(Hi & Hc & -> & ->)|[(Hi & Hc & Hd & -> & ->)
       |[(Hi & Hc & Hd & -> & Hs)|(Hi & Hc & Hd & -> & on & off & c & s1 & Hm & Hs & Hl & ->)]]]].
  - do 3 (split; [done|]). split; [|done]. split; [done|]. intros (Hi' & _). congruence.
  - do 3 (split; [done|]). split; [|done]. split; [done|]. intros (_ & Hc' & _). lia.
  - do 3 (split; [done|]). split; [|done]. split; [|done]. intros _.
    split; [done|]. split; [done|]. by apply orb_true_iff.
  - destruct Hs as (Ha & _ & Hin & Hcf & Hpv & Hcs).
    do 3 (split; [done|]). split; [|done]. split; [done|].
    intros (_ & _ & Hd'). apply orb_true_iff in Hd'. congruence.
  - destruct Hs as (Ha & _ & Hin & Hcf & Hpv & Hcs).
    do 3 (split; [done|]). split; [|split; [by intros Hne; destruct Hne|]].
    + split; [done|]. intros (_ & _ & Hd'). apply orb_true_iff in Hd'. congruence.
    + intros _. by exists on, off, c.
Qed.

Lemma SetDutyCycle_outcomes_witness :
  well_formed (initialized_driver 2) ∧ 0 <= 5
  ∧ Float32.valid quarter = true ∧ Float32.is_nan quarter = false
  ∧ ∃ r s',
      SetDutyCycle 5 quarter (initialized_driver 2) = Some (r, s')
      ∧ (r ≠ PWM_SUCCESS -> channels_ s' = channels_ (initialized_driver 2)).
Proof.
  split; [done|]. split; [lia|]. split; [by vm_compute|]. split; [by vm_compute|].
  destruct (SetDutyCycle_outcomes (initialized_driver 2) 5 quarter)
    as (r & s' & Hrun & _ & _ & _ & _ & Hfail & _);
    [done|lia|by vm_compute|by vm_compute|].
  by exists r, s'.
Defined.

Section ChannelFrames.
Context {B : Type} `{!BaseI2c B}.
Implicit Types s : Pca9685Pwm B.

(** How a call of [ConfigureChannel] can end: rejected by one of its own
    checks, stopped by a failing [SetFrequency], or with the result of
    [SetDutyCycle] after a successful [SetFrequency]. *)
Lemma ConfigureChannel_inv channel_id config s r s' :
  ConfigureChannel channel_id config s = Some (r, s') ->
  (s' = s
   ∧ (r = PWM_NOT_INITIALIZED ∨ r = PWM_INVALID_CHANNEL
      ∨ r = PWM_INVALID_FREQUENCY ∨ r = PWM_INVALID_DUTY_CYCLE))
  ∨ (is_initialized_ s = true ∧ channel_id < 16
     ∧ Float32.ltb (initial_duty_cycle config) Float32.zero
       || Float32.ltb Float32.one (initial_duty_cycle config) = false
     ∧ ((r ≠ PWM_SUCCESS
         ∧ SetFrequency channel_id (frequency_hz config) s = Some (r, s'))
        ∨ (∃ s1, SetFrequency channel_id (frequency_hz config) s = Some (PWM_SUCCESS, s1)
                 ∧ SetDutyCycle channel_id (initial_duty_cycle config) s1
                   = Some (r, s')))).
Proof.
  unfold ConfigureChannel.
  intros (initialized & s0 & [= <- <-] & Hrun)%bind_Some.
  destruct (is_initialized_ s) eqn:Hinit; simpl in Hrun;
    [|apply ret_Some in Hrun as [-> ->]; left; by eauto].
  unfold IsValidChannel in Hrun. case_bool_decide as Hch; simpl in Hrun;
    [|apply ret_Some in Hrun as [-> ->]; left; by eauto].
  unfold MAX_CHANNELS in Hch.
  destruct (bool_decide (frequency_hz config < MIN_FREQUENCY)
            || bool_decide (frequency_hz config > MAX_FREQUENCY));
    [apply ret_Some in Hrun as [-> ->]; left; by eauto|].
  destruct (Float32.ltb (initial_duty_cycle config) Float32.zero
            || Float32.ltb Float32.one (initial_duty_cycle config)) eqn:Hduty;
    [apply ret_Some in Hrun as [-> ->]; left; by eauto 6|].
  right. do 3 (split; [done|]).
  apply bind_Some in Hrun as (r1 & s1 & Hfreq & Hrun).
  destruct (decide (r1 ≠ PWM_SUCCESS)) as [Hne|Heq];
    [apply ret_Some in Hrun as [-> ->]; by left|].
  assert (r1 = PWM_SUCCESS) as -> by (by destruct r1; try done; destruct Heq).
  right. exists s1. split; [done|].
  apply bind_Some in Hrun as (r2 & s2 & Hset & Hrun).
  destruct (decide (r2 ≠ PWM_SUCCESS)) as [Hne|Heq2];
    [by apply ret_Some in Hrun as [-> ->]|].
  assert (r2 = PWM_SUCCESS) as -> by (by destruct r2; try done; destruct Heq2).
  by apply ret_Some in Hrun as [-> ->].
Qed.

Lemma SetFrequency_channels channel_id frequency s r s' :
  SetFrequency channel_id frequency s = Some (r, s') -> channels_ s' = channels_ s.
Proof.
  intros Hrun.
  destruct (SetFrequency_inv _ _ _ _ _ Hrun)
    as [(Hi & -> & ->)|[(Hi & Hch & -> & ->)|[(Hi & Hch & Hf & -> & ->)
       |[(Hi & Hch & Hf & -> & Hs)|(Hi & Hch & Hf & -> & p & s1 & Hp & Hs & ->)]]]];
    try done; by destruct Hs as (_ & _ & _ & _ & _ & Hcs).
Qed.

Lemma SetDutyCycle_other channel_id d s r s' (j : nat) :
  SetDutyCycle channel_id d s = Some (r, s') -> j ≠ Z.to_nat channel_id ->
  channels_ s' !! j = channels_ s !! j.
Proof.
  intros Hrun Hj.
  destruct (SetDutyCycle_inv _ _ _ _ _ Hrun)
    as [(Hi & -> & ->)|[(Hi & Hc & -> & ->)|[(Hi & Hc & Hd & -> & ->)
       |[(Hi & Hc & Hd & -> & Hs)|(Hi & Hc & Hd & -> & on & off & c & s1 & Hm & Hs & Hl & ->)]]]];
    try done.
  - destruct Hs as (_ & _ & _ & _ & _ & Hcs). by rewrite Hcs.
  - simpl. by rewrite list_lookup_insert_ne.
Qed.

Lemma Start_other channel_id s r s' (j : nat) :
  Start channel_id s = Some (r, s') -> j ≠ Z.to_nat channel_id ->
  channels_ s' !! j = channels_ s !! j.
Proof.
  intros Hrun Hj.
  destruct (Start_inv _ _ _ _ Hrun)
    as [(Hi & -> & ->)|[(Hi & Hc & -> & ->)
       |[(Hi & Hc & -> & Hs)|(Hi & Hc & -> & c & s1 & Hs & Hl & ->)]]];
    try done.
  - destruct Hs as (_ & _ & _ & _ & _ & Hcs). by rewrite Hcs.
  - simpl. by rewrite list_lookup_insert_ne.
Qed.

Lemma Stop_other channel_id s r s' (j : nat) :
  Stop channel_id s = Some (r, s') -> j ≠ Z.to_nat channel_id ->
  channels_ s' !! j = channels_ s !! j.
Proof.
  intros Hrun Hj.
  destruct (Stop_inv _ _ _ _ Hrun)
    as [(Hi & -> & ->)|[(Hi & Hc & -> & ->)
       |[(Hi & Hc & -> & Hs)|(Hi & Hc & -> & c & s1 & Hs & Hl & ->)]]];
    try done.
  - destruct Hs as (_ & _ & _ & _ & _ & Hcs). by rewrite Hcs.
  - simpl. by rewrite list_lookup_insert_ne.
Qed.
End ChannelFrames.

(** X5. The channel-scoped operations that write a channel record,
    [SetDutyCycle], [Start], [Stop] and [ConfigureChannel], never change
    the record of another channel, whatever they return. *)
Theorem channel_operations_isolated {B : Type} `{!BaseI2c B}
    (s s' : Pca9685Pwm B) (r : HfPwmErr) (channel_id other : Z) :
  0 <= channel_id -> 0 <= other -> other ≠ channel_id ->
  (∃ d, SetDutyCycle channel_id d s = Some (r, s'))
  ∨ Start channel_id s = Some (r, s')
  ∨ Stop channel_id s = Some (r, s')
  ∨ (∃ config, ConfigureChannel channel_id config s = Some (r, s')) ->
  channels_ s' !! Z.to_nat other = channels_ s !! Z.to_nat other.
Proof.
  intros Hch Hother Hne.
  assert (Z.to_nat other ≠ Z.to_nat channel_id) as Hj by lia.
  intros [[d Hrun]|[Hrun|[Hrun|[config Hrun]]]].
  - by eapply SetDutyCycle_other.
  - by eapply Start_other.
  - by eapply Stop_other.
  - destruct (ConfigureChannel_inv _ _ _ _ _ Hrun)
      as [[-> _]|(_ & _ & _ & [[_ Hfreq]|(s1 & Hfreq & Hduty)])].
    + done.
    + by rewrite (SetFrequency_channels _ _ _ _ _ Hfreq).
    + rewrite (SetDutyCycle_other _ _ _ _ _ _ Hduty Hj).
      by rewrite (SetFrequency_channels _ _ _ _ _ Hfreq).
Qed.

Lemma channel_operations_isolated_witness :
  0 <= 3 ∧ 0 <= 7 ∧ 7 ≠ 3
  ∧ ConfigureChannel 3 servo_config reliable_driver
    = Some (PWM_SUCCESS, state_after (ConfigureChannel 3 servo_config) reliable_driver)
  ∧ channels_ (state_after (ConfigureChannel 3 servo_config) reliable_driver)
      !! Z.to_nat 7
    = channels_ reliable_driver !! Z.to_nat 7.
Proof.
  assert (ConfigureChannel 3 servo_config reliable_driver
          = Some (PWM_SUCCESS,
                  state_after (ConfigureChannel 3 servo_config) reliable_driver)) as Hrun
    by (vm_compute; reflexivity).
  split; [lia|]. split; [lia|]. split; [lia|]. split; [exact Hrun|].
  apply (channel_operations_isolated reliable_driver _ PWM_SUCCESS 3 7); [lia|lia|lia|].
  right. right. right. exists servo_config. exact Hrun.
Defined.

Section Activity.
Context {B : Type} `{!BaseI2c B}.
Implicit Types s : Pca9685Pwm B.

Lemma stored_timing_set_is_active (cs : list ChannelState) (i : nat) c v :
  cs !! i = Some c ->
  stored_timing <$> <[i := set_is_active v c]> cs = stored_timing <$> cs.
Proof.
  intros Hc. rewrite list_fmap_insert. apply list_insert_id.
  by rewrite list_lookup_fmap, Hc.
Qed.

Lemma activity_assigned channel_id (v : bool) s s1 c :
  is_initialized_ s = true -> channel_id < 16 -> same_fields s s1 ->
  channels_ s !! Z.to_nat channel_id = Some c ->
  let s' := set_channels (<[Z.to_nat channel_id := set_is_active v c]> (channels_ s)) s1 in
  stored_timing <$> channels_ s' = stored_timing <$> channels_ s
  ∧ IsChannelActive channel_id s' = Some (v, s').
Proof.
  intros Hinit Hch (Ha & _ & Hin & _ & _ & Hcs) Hc s'. split.
  - by apply stored_timing_set_is_active.
  - unfold IsChannelActive, channel_at. run_unfold. subst s'. simpl.
    rewrite Hin, Hinit, IsValidChannel_true by done. simpl.
    rewrite list_lookup_insert_eq by (by eapply lookup_lt_Some). done.
Qed.
End Activity.

(** X6. [Start] and [Stop] assign nothing but the active flag of their
    channel: the stored duty cycle and timing pair of every channel are
    the same after the call as before it, whatever the call returns.  A
    call that does not succeed leaves the channel records as they were;
    after a successful [Start] the channel reads as active and after a
    successful [Stop] as inactive. *)
Theorem Start_Stop_assign_only_the_active_flag {B : Type} `{!BaseI2c B}
    (s s' : Pca9685Pwm B) (r : HfPwmErr) (channel_id : Z) :
  (Start channel_id s = Some (r, s') ->
   stored_timing <$> channels_ s' = stored_timing <$> channels_ s
   ∧ (r ≠ PWM_SUCCESS -> channels_ s' = channels_ s)
   ∧ (r = PWM_SUCCESS -> IsChannelActive channel_id s' = Some (true, s')))
  ∧ (Stop channel_id s = Some (r, s') ->
     stored_timing <$> channels_ s' = stored_timing <$> channels_ s
     ∧ (r ≠ PWM_SUCCESS -> channels_ s' = channels_ s)
     ∧ (r = PWM_SUCCESS -> IsChannelActive channel_id s' = Some (false, s'))).
Proof.
  split; intros Hrun.
  - destruct (Start_inv _ _ _ _ Hrun)
      as [(Hi & -> & ->)|[(Hi & Hc & -> & ->)
         |[(Hi & Hc & -> & Hs)|(Hi & Hc & -> & c & s1 & Hs & Hl & ->)]]];
      try done.
    + destruct Hs as (_ & _ & _ & _ & _ & Hcs). by rewrite Hcs.
    + destruct (activity_assigned channel_id true s s1 c Hi Hc Hs Hl) as [Ht Ha].
      split; [done|]. split; [by intros Hne; destruct Hne|done].
  - destruct (Stop_inv _ _ _ _ Hrun)
      as [(Hi & -> & ->)|[(Hi & Hc & -> & ->)
         |[(Hi & Hc & -> & Hs)|(Hi & Hc & -> & c & s1 & Hs & Hl & ->)]]];
      try done.
    + destruct Hs as (_ & _ & _ & _ & _ & Hcs). by rewrite Hcs.
    + destruct (activity_assigned channel_id false s s1 c Hi Hc Hs Hl) as [Ht Ha].
      split; [done|]. split; [by intros Hne; destruct Hne|done].
Qed.

Lemma Start_Stop_assign_only_the_active_flag_witness :
  Start 3 reliable_driver = Some (PWM_SUCCESS, state_after (Start 3) reliable_driver)
  ∧ stored_timing <$> channels_ (state_after (Start 3) reliable_driver)
    = stored_timing <$> channels_ reliable_driver
  ∧ IsChannelActive 3 (state_after (Start 3) reliable_driver)
    = Some (true, state_after (Start 3) reliable_driver).
Proof.
  assert (Start 3 reliable_driver
          = Some (PWM_SUCCESS, state_after (Start 3) reliable_driver)) as Hrun
    by (vm_compute; reflexivity).
  split; [exact Hrun|].
  destruct (Start_Stop_assign_only_the_active_flag reliable_driver
              (state_after (Start 3) reliable_driver) PWM_SUCCESS 3) as [Hstart _].
  destruct (Hstart Hrun) as (Ht & _ & Ha). split; [exact Ht|]. exact (Ha eq_refl).
Defined.

(** ** The bytes of a channel's timing registers *)

(** The two bytes [SetChannelTiming] makes of a 16-bit value hold it, low
    byte first; a value within the twelve bits of the counter leaves the
    upper four bits of the high byte clear. *)
Lemma split_bytes (v : Z) :
  0 <= v < 65536 ->
  0 <= u8 (Z.land v 0xFF) < 256
  ∧ 0 <= u8 (Z.land (Z.shiftr v 8) 0xFF) < 256
  ∧ u8 (Z.land v 0xFF) + 256 * u8 (Z.land (Z.shiftr v 8) 0xFF) = v
  ∧ (v <= MAX_PWM_VALUE -> u8 (Z.land (Z.shiftr v 8) 0xFF) < 16).
Proof.
  intros Hv. unfold u8, MAX_PWM_VALUE.
  change 255 with (Z.ones 8). rewrite !Z.land_ones by lia.
  rewrite Z.shiftr_div_pow2 by lia. change (2 ^ 8) with 256.
  rewrite !Z.mod_mod by lia.
  assert (0 <= v / 256 < 256) as Hq
    by (split; [apply Z.div_pos; lia|apply Z.div_lt_upper_bound; lia]).
  rewrite (Z.mod_small (v / 256) 256) by done.
  pose proof (Z.mod_pos_bound v 256 ltac:(lia)) as Hm.
  pose proof (Z.div_mod v 256 ltac:(lia)) as Hdm.
  split; [done|]. split; [done|]. split; [lia|].
  intros Hle. apply Z.div_lt_upper_bound; lia.
Qed.

Section TimingRegisters.
Context {B : Type} `{!BaseI2c B}.
Implicit Types s : Pca9685Pwm (list I2cEvent * B).

Lemma WriteRegister_succeeded reg value s s' :
  WriteRegister reg value s = Some (PWM_SUCCESS, s') ->
  trace s' = trace s ++ [EvWrite (i2c_address_ s) [reg; value] I2C_SUCCESS]
  ∧ i2c_address_ s' = i2c_address_ s.
Proof.
  intros Hrun. destruct (WriteRegister_recorded _ _ _ _ _ Hrun)
    as (Ha & [(_ & _ & ?)|[(_ & ?)|(Ht & _)]]); done.
Qed.

(** A successful [SetChannelTiming] has made its four writes. *)
Lemma SetChannelTiming_succeeded channel_id on off s s' :
  channel_id < 16 ->
  SetChannelTiming channel_id on off s = Some (PWM_SUCCESS, s') ->
  trace s' = trace s ++ timing_writes (i2c_address_ s) channel_id on off.
Proof.
  intros Hch. unfold SetChannelTiming.
  rewrite IsValidChannel_true by done. change (negb true) with false. cbv iota.
  set (base := u8 (Registers.LED0_ON_L + channel_id * 4)).
  intros (r1 & s1 & Hw1 & Hrun)%bind_Some.
  destruct (decide (r1 ≠ PWM_SUCCESS)) as [Hne|Heq];
    [apply ret_Some in Hrun as [Hr _]; congruence|].
  assert (r1 = PWM_SUCCESS) as -> by (by destruct r1; try done; destruct Heq).
  apply bind_Some in Hrun as (r2 & s2 & Hw2 & Hrun).
  destruct (decide (r2 ≠ PWM_SUCCESS)) as [Hne|Heq2];
    [apply ret_Some in Hrun as [Hr _]; congruence|].
  assert (r2 = PWM_SUCCESS) as -> by (by destruct r2; try done; destruct Heq2).
  apply bind_Some in Hrun as (r3 & s3 & Hw3 & Hrun).
  destruct (decide (r3 ≠ PWM_SUCCESS)) as [Hne|Heq3];
    [apply ret_Some in Hrun as [Hr _]; congruence|].
  assert (r3 = PWM_SUCCESS) as -> by (by destruct r3; try done; destruct Heq3).
  apply bind_Some in Hrun as (r4 & s4 & Hw4 & Hrun).
  destruct (decide (r4 ≠ PWM_SUCCESS)) as [Hne|Heq4];
    [apply ret_Some in Hrun as [Hr _]; congruence|].
  assert (r4 = PWM_SUCCESS) as -> by (by destruct r4; try done; destruct Heq4).
  apply ret_Some in Hrun as [_ ->].
  apply WriteRegister_succeeded in Hw1 as [Ht1 Ha1], Hw2 as [Ht2 Ha2],
    Hw3 as [Ht3 Ha3], Hw4 as [Ht4 Ha4].
  rewrite Ht4, Ht3, Ht2, Ht1, Ha3, Ha2, Ha1. unfold timing_writes. fold base.
  by rewrite <- !app_assoc.
Qed.
End TimingRegisters.

(** X7. A successful [SetChannelTiming] on a valid channel makes exactly
    four successful writes to the device, to the registers 6 + 4n,
    7 + 4n, 8 + 4n and 9 + 4n of channel n in this order; the bytes they
    carry are the on time and the off time, low byte first (low + 256 *
    high gives the value back), and for a value up to 4095 the upper four
    bits of the high byte are clear. *)
Theorem SetChannelTiming_encoding {B : Type} `{!BaseI2c B}
    (s s' : Pca9685Pwm (list I2cEvent * B)) (channel_id on off : Z) :
  0 <= channel_id < MAX_CHANNELS -> 0 <= on < 65536 -> 0 <= off < 65536 ->
  SetChannelTiming channel_id on off s = Some (PWM_SUCCESS, s') ->
  ∃ on_l on_h off_l off_h,
    trace s' = trace s
               ++ [EvWrite (i2c_address_ s) [6 + 4 * channel_id; on_l] I2C_SUCCESS;
                   EvWrite (i2c_address_ s) [7 + 4 * channel_id; on_h] I2C_SUCCESS;
                   EvWrite (i2c_address_ s) [8 + 4 * channel_id; off_l] I2C_SUCCESS;
                   EvWrite (i2c_address_ s) [9 + 4 * channel_id; off_h] I2C_SUCCESS]
    ∧ (0 <= on_l < 256 ∧ 0 <= on_h < 256 ∧ 0 <= off_l < 256 ∧ 0 <= off_h < 256)
    ∧ on_l + 256 * on_h = on
    ∧ off_l + 256 * off_h = off
    ∧ (on <= MAX_PWM_VALUE -> on_h < 16)
    ∧ (off <= MAX_PWM_VALUE -> off_h < 16).
Proof.
  unfold MAX_CHANNELS. intros Hch Hon Hoff Hrun.
  apply SetChannelTiming_succeeded in Hrun; [|lia].
  destruct (split_bytes on Hon) as (Hl1 & Hh1 & Hv1 & Hb1).
  destruct (split_bytes off Hoff) as (Hl2 & Hh2 & Hv2 & Hb2).
  exists (u8 (Z.land on 0xFF)), (u8 (Z.land (Z.shiftr on 8) 0xFF)),
         (u8 (Z.land off 0xFF)), (u8 (Z.land (Z.shiftr off 8) 0xFF)).
  split; [|done].
  rewrite Hrun. unfold timing_writes, Registers.LED0_ON_L.
  assert (u8 (6 + channel_id * 4) = 6 + 4 * channel_id) as ->
    by (unfold u8; rewrite Z.mod_small; lia).
  assert (u8 (6 + 4 * channel_id + 1) = 7 + 4 * channel_id) as ->
    by (unfold u8; rewrite Z.mod_small; lia).
  assert (u8 (6 + 4 * channel_id + 2) = 8 + 4 * channel_id) as ->
    by (unfold u8; rewrite Z.mod_small; lia).
  assert (u8 (6 + 4 * channel_id + 3) = 9 + 4 * channel_id) as ->
    by (unfold u8; rewrite Z.mod_small; lia).
  done.
Qed.

Lemma SetChannelTiming_encoding_witness :
  0 <= 15 < MAX_CHANNELS ∧ 0 <= 0 < 65536 ∧ 0 <= 1023 < 65536
  ∧ SetChannelTiming 15 0 1023 reliable_driver
    = Some (PWM_SUCCESS, state_after (SetChannelTiming 15 0 1023) reliable_driver)
  ∧ ∃ on_l on_h off_l off_h,
      trace (state_after (SetChannelTiming 15 0 1023) reliable_driver)
      = trace reliable_driver
        ++ [EvWrite (i2c_address_ reliable_driver) [6 + 4 * 15; on_l] I2C_SUCCESS;
            EvWrite (i2c_address_ reliable_driver) [7 + 4 * 15; on_h] I2C_SUCCESS;
            EvWrite (i2c_address_ reliable_driver) [8 + 4 * 15; off_l] I2C_SUCCESS;
            EvWrite (i2c_address_ reliable_driver) [9 + 4 * 15; off_h] I2C_SUCCESS]
      ∧ on_l + 256 * on_h = 0 ∧ off_l + 256 * off_h = 1023.
Proof.
  assert (SetChannelTiming 15 0 1023 reliable_driver
          = Some (PWM_SUCCESS,
                  state_after (SetChannelTiming 15 0 1023) reliable_driver)) as Hrun
    by (vm_compute; reflexivity).
  split; [done|]. split; [done|]. split; [done|]. split; [exact Hrun|].
  destruct (SetChannelTiming_encoding reliable_driver _ 15 0 1023
              ltac:(done) ltac:(done) ltac:(done) Hrun)
    as (on_l & on_h & off_l & off_h & Ht & _ & Hon & Hoff & _).
  by exists on_l, on_h, off_l, off_h.
Defined.

(** ** The mode registers *)

Section ModeRegisters.
Context {B : Type} `{!BaseI2c B}.
Implicit Types s : Pca9685Pwm (list I2cEvent * B).

(** The read of a register followed by the write of the updated byte. *)
Lemma read_modify_write_run reg mask level s :
  ∃ r s' events,
    ('(result, mode) ← ReadRegister reg;
     if decide (result ≠ PWM_SUCCESS) then mret result else
     WriteRegister reg (update_bits mask level mode)) s = Some (r, s')
    ∧ trace s' = trace s ++ events
    ∧ read_modify_write (i2c_address_ s) reg mask level events r
    ∧ same_fields s s'.
Proof.
  destruct (ReadRegister_total reg s) as ([r1 v] & s1 & Hread & _).
  rewrite (bind_run _ _ _ _ _ Hread).
  pose proof (frame_ReadRegister s reg s _ s1 (same_fields_refl s) Hread) as Hf1.
  destruct (ReadRegister_recorded _ _ _ _ _ Hread)
    as (Ha1 & [(Hnull & -> & ->)|[(raw & Ht1 & ->)|(raw & Ht1 & -> & ->)]]).
  - exists PWM_HARDWARE_ERROR, s, []. rewrite app_nil_r.
    split; [done|]. split; [done|]. split; [constructor|done].
  - exists PWM_HARDWARE_ERROR, s1, [EvWriteRead (i2c_address_ s) [reg] I2C_FAILURE raw].
    split; [done|]. split; [done|]. split; [constructor|done].
  - rewrite decide_False by (intros Hne; by apply Hne).
    destruct (WriteRegister_total reg (update_bits mask level (u8 raw)) s1)
      as (r2 & s2 & Hwrite & _).
    pose proof (frame_WriteRegister s reg _ s1 _ s2 Hf1 Hwrite) as Hf2.
    destruct (WriteRegister_recorded _ _ _ _ _ Hwrite)
      as (Ha2 & [(Hnull & _)|[(Ht2 & ->)|(Ht2 & ->)]]).
    + exfalso. by eapply recorded_not_null.
    + eexists _, s2, _. split; [done|].
      split; [by rewrite Ht2, Ht1, Ha1, <- app_assoc|]. split; [constructor|done].
    + eexists _, s2, _. split; [done|].
      split; [by rewrite Ht2, Ht1, Ha1, <- app_assoc|]. split; [constructor|done].
Qed.

(** [Wakeup] returns the result of its write in both branches of its
    last test. *)
Lemma Wakeup_run s :
  is_initialized_ s = true ->
  Wakeup s =
    ('(result, mode) ← ReadRegister Registers.MODE1;
     if decide (result ≠ PWM_SUCCESS) then mret result else
     WriteRegister Registers.MODE1 (update_bits Mode1Bits.SLEEP false mode)) s.
Proof.
  intros Hinit. unfold Wakeup.
  rewrite (bind_run _ _ s true s) by (unfold gets; by rewrite Hinit).
  change (negb true) with false. cbv iota. unfold mbind, M_bind.
  destruct (ReadRegister Registers.MODE1 s) as [[[r1 v] s1]|]; [|done].
  destruct (decide (r1 ≠ PWM_SUCCESS)); [done|]. unfold update_bits.
  destruct (WriteRegister Registers.MODE1 (u8 (Z.land v (Z.lnot Mode1Bits.SLEEP))) s1)
    as [[r2 s2]|]; [|done].
  by destruct (decide (r2 ≠ PWM_SUCCESS)).
Qed.
End ModeRegisters.

(** X8. [Sleep], [Wakeup], [ConfigureExternalClock], [SetOutputDriver]
    and [SetOutputInvert] return NotInitialized and do nothing on a
    driver that is not initialized.  On an initialized driver each of
    them always returns, touches no field of the object, and makes at
    most two transfers: one read of its mode register and, when the read
    succeeds, one write to the same register of the byte read with the
    bits of its mask set or cleared; the result is success exactly when
    both transfers succeed and HardwareError otherwise. *)
Theorem mode_operations_read_modify_write {B : Type} `{!BaseI2c B}
    (s : Pca9685Pwm (list I2cEvent * B)) (m : M (list I2cEvent * B) HfPwmErr)
    (reg mask : Z) (level : bool) :
  mode_operation m reg mask level ->
  (is_initialized_ s = false -> m s = Some (PWM_NOT_INITIALIZED, s))
  ∧ (is_initialized_ s = true ->
     ∃ r s' events,
       m s = Some (r, s')
       ∧ trace s' = trace s ++ events
       ∧ read_modify_write (i2c_address_ s) reg mask level events r
       ∧ same_fields s s').
Proof.
  intros Hop. split.
  - intros Hinit.
    destruct Hop; [unfold Sleep|unfold Wakeup|unfold ConfigureExternalClock
                  |unfold SetOutputDriver|unfold SetOutputInvert];
      run_unfold; by rewrite Hinit.
  - intros Hinit.
    destruct Hop as [| |f|b|b]; [| by rewrite Wakeup_run; [apply read_modify_write_run|] | | |].
    + unfold Sleep.
      rewrite (bind_run _ _ s true s) by (unfold gets; by rewrite Hinit).
      apply (read_modify_write_run Registers.MODE1 Mode1Bits.SLEEP true s).
    + unfold ConfigureExternalClock.
      rewrite (bind_run _ _ s true s) by (unfold gets; by rewrite Hinit).
      apply (read_modify_write_run Registers.MODE1 Mode1Bits.EXTCLK true s).
    + unfold SetOutputDriver.
      rewrite (bind_run _ _ s true s) by (unfold gets; by rewrite Hinit).
      apply (read_modify_write_run Registers.MODE2 Mode2Bits.OUTDRV b s).
    + unfold SetOutputInvert.
      rewrite (bind_run _ _ s true s) by (unfold gets; by rewrite Hinit).
      apply (read_modify_write_run Registers.MODE2 Mode2Bits.INVRT b s).
Qed.

Lemma mode_operations_read_modify_write_witness :
  mode_operation (B := list I2cEvent * (nat * gmap Z Z)) (SetOutputInvert true)
    Registers.MODE2 Mode2Bits.INVRT true
  ∧ is_initialized_ (initialized_driver 1) = true
  ∧ ∃ r s' events,
      SetOutputInvert true (initialized_driver 1) = Some (r, s')
      ∧ trace s' = trace (initialized_driver 1) ++ events
      ∧ read_modify_write (i2c_address_ (initialized_driver 1))
          Registers.MODE2 Mode2Bits.INVRT true events r
      ∧ same_fields (initialized_driver 1) s'.
Proof.
  split; [exact (mode_SetOutputInvert true)|]. split; [done|].
  destruct (mode_operations_read_modify_write (initialized_driver 1)
              (SetOutputInvert true) Registers.MODE2 Mode2Bits.INVRT true) as [_ Hrun];
    [exact (mode_SetOutputInvert true)|].
  exact (Hrun eq_refl).
Defined.

Lemma u8_testbit (x i : Z) :
  0 <= i -> Z.testbit (u8 x) i = bool_decide (i < 8) && Z.testbit x i.
Proof.
  intros Hi. unfold u8. change 256 with (2 ^ 8). case_bool_decide as Hlt.
  - by rewrite Z.mod_pow2_bits_low.
  - rewrite Z.mod_pow2_bits_high by lia. done.
Qed.

Lemma byte_testbit_high (v i : Z) : 0 <= v < 256 -> 8 <= i -> Z.testbit v i = false.
Proof.
  intros Hv Hi. rewrite <- (Z.mod_small v (2 ^ 8)) by (change (2 ^ 8) with 256; lia).
  apply Z.mod_pow2_bits_high. lia.
Qed.

Lemma update_bits_power (k : Z) (level : bool) (v i : Z) :
  0 <= k < 8 -> 0 <= v < 256 -> 0 <= i ->
  0 <= update_bits (2 ^ k) level v < 256
  ∧ Z.testbit (update_bits (2 ^ k) level v) i
    = if decide (i = k) then level else Z.testbit v i.
Proof.
  intros Hk Hv Hi. split.
  - unfold update_bits, u8. destruct level; apply Z.mod_pos_bound; lia.
  - unfold update_bits. destruct level; rewrite u8_testbit by done.
    + rewrite Z.lor_spec, Z.pow2_bits_eqb by lia.
      destruct (decide (i = k)) as [->|Hne].
      * rewrite Z.eqb_refl, orb_true_r, andb_true_r. apply bool_decide_eq_true. lia.
      * rewrite (proj2 (Z.eqb_neq k i)) by lia. rewrite orb_false_r.
        case_bool_decide; [done|]. rewrite andb_false_l.
        symmetry. apply byte_testbit_high; lia.
    + rewrite Z.land_spec, Z.lnot_spec, Z.pow2_bits_eqb by lia.
      destruct (decide (i = k)) as [->|Hne].
      * rewrite Z.eqb_refl. change (negb true) with false.
        by rewrite !andb_false_r.
      * rewrite (proj2 (Z.eqb_neq k i)) by lia. change (negb false) with true.
        rewrite andb_true_r.
        case_bool_decide; [done|]. rewrite andb_false_l.
        symmetry. apply byte_testbit_high; lia.
Qed.



(** ** [Deinitialize] *)

Section Shutdown.
Context {B : Type} `{!BaseI2c B} `{!Reliable B}.
Implicit Types s : Pca9685Pwm (list I2cEvent * B).

Lemma Sleep_frame s :
  is_initialized_ s = true -> ∃ r s', Sleep s = Some (r, s') ∧ same_fields s s'.
Proof.
  intros Hinit. unfold Sleep.
  rewrite (bind_run _ _ s true s) by (unfold gets; by rewrite Hinit).
  destruct (read_modify_write_run Registers.MODE1 Mode1Bits.SLEEP true s)
    as (r & s' & events & Hrun & _ & _ & Hf).
  by exists r, s'.
Qed.

(** With a transport that does not fail the loop of [Deinitialize] stops
    every channel it is given. *)
Lemma stop_all_reliable (ids : list Z) s :
  is_initialized_ s = true -> i2c_ s ≠ None -> well_formed s ->
  Forall (fun i => 0 <= i < 16) ids ->
  ∃ s', stop_all ids s = Some (tt, s')
        ∧ is_initialized_ s' = true ∧ i2c_ s' ≠ None ∧ well_formed s'
        ∧ ∀ j : nat,
            channels_ s' !! j
            = (fun c => if bool_decide (j ∈ Z.to_nat <$> ids)
                        then set_is_active false c else c) <$> channels_ s !! j.
Proof.
  revert s. induction ids as [|i rest IH]; intros s Hinit Hbus Hwf Hids.
  - exists s. split; [done|]. split; [done|]. split; [done|]. split; [done|].
    intros j. by destruct (channels_ s !! j).
  - apply Forall_cons in Hids as [Hi Hrest].
    destruct (lookup_lt_is_Some_2 (channels_ s) (Z.to_nat i)) as [c Hc].
    { rewrite Hwf. unfold MAX_CHANNELS. lia. }
    destruct (Stop_reliable i c s Hinit Hbus ltac:(lia) Hc)
      as (s1 & Hstop & _ & Hcs1 & _ & Hinit1 & Hbus1).
    assert (well_formed s1) as Hwf1
      by (unfold well_formed in *; by rewrite Hcs1, length_insert).
    destruct (IH s1 Hinit1 Hbus1 Hwf1 Hrest) as (s' & Hrun & Hinit' & Hbus' & Hwf' & Hcs').
    exists s'. split; [by simpl; rewrite (bind_run _ _ _ _ _ Hstop)|].
    split; [done|]. split; [done|]. split; [done|].
    intros j. rewrite Hcs', Hcs1. rewrite fmap_cons.
    destruct (decide (j = Z.to_nat i)) as [->|Hne].
    + rewrite list_lookup_insert_eq by (by eapply lookup_lt_Some). rewrite Hc. simpl.
      rewrite (bool_decide_eq_true_2 (_ ∈ _ :: _)) by (apply elem_of_cons; by left).
      by case_bool_decide.
    + rewrite list_lookup_insert_ne by done.
      destruct (channels_ s !! j) as [cj|]; [|done]. simpl.
      rewrite (bool_decide_ext (j ∈ Z.to_nat i :: (Z.to_nat <$> rest))
                 (j ∈ Z.to_nat <$> rest)); [done|].
      rewrite elem_of_cons. split; [by intros [?|?]|by right].
Qed.

Lemma Deinitialize_reliable s :
  is_initialized_ s = true -> i2c_ s ≠ None -> well_formed s ->
  ∃ s', Deinitialize s = Some (PWM_SUCCESS, s')
        ∧ is_initialized_ s' = false
        ∧ channels_ s' = set_is_active false <$> channels_ s.
Proof.
  intros Hinit Hbus Hwf. unfold Deinitialize.
  rewrite (bind_run _ _ s true s) by (unfold gets; by rewrite Hinit).
  change (negb true) with false. cbv iota.
  destruct (stop_all_reliable (seqZ 0 MAX_CHANNELS) s Hinit Hbus Hwf)
    as (s1 & Hstop & Hinit1 & Hbus1 & Hwf1 & Hcs1).
  { apply Forall_forall. intros i Hi%elem_of_seqZ. unfold MAX_CHANNELS in Hi. lia. }
  rewrite (bind_run _ _ _ _ _ Hstop).
  destruct (Sleep_frame s1 Hinit1) as (r & s2 & Hsleep & Hf).
  rewrite (bind_run _ _ _ _ _ Hsleep).
  destruct Hf as (_ & _ & _ & _ & _ & Hcs2).
  assert (channels_ s2 = set_is_active false <$> channels_ s) as Hcs.
  { rewrite Hcs2. apply list_eq. intros j. rewrite Hcs1, list_lookup_fmap.
    destruct (channels_ s !! j) as [c|] eqn:Hc; [|done].
    apply lookup_lt_Some in Hc. rewrite Hwf in Hc. unfold MAX_CHANNELS in *.
    rewrite bool_decide_eq_true_2; [done|].
    apply list_elem_of_fmap. exists (Z.of_nat j). split; [lia|].
    apply elem_of_seqZ. lia. }
  unfold i2c_is_null, i2c_call. run_unfold.
  destruct (i2c_ s2) as [[log b]|] eqn:Hb; simpl;
    [|eexists; split; [done|]; split; [done|]; exact Hcs].
  rewrite Hb. destruct (i2c_Deinitialize b) as [st b'].
  eexists. split; [done|]. split; [done|]. exact Hcs.
Qed.
End Shutdown.

(** X10. With a transport that does not fail, [Deinitialize] on an
    initialized driver returns success and leaves the driver
    uninitialized with every channel inactive and every stored duty
    cycle and timing pair as it was.  From then on the channel
    operations return NotInitialized and [Initialize] never returns
    success: the driver cannot be brought back. *)
Theorem Deinitialize_stops_every_channel {B : Type} `{!BaseI2c B} `{!Reliable B}
    (s : Pca9685Pwm (list I2cEvent * B)) :
  is_initialized_ s = true -> i2c_ s ≠ None -> well_formed s ->
  ∃ s', Deinitialize s = Some (PWM_SUCCESS, s')
        ∧ is_initialized_ s' = false
        ∧ channels_ s' = set_is_active false <$> channels_ s
        ∧ (∀ channel_id, channel_operations_return PWM_NOT_INITIALIZED s' channel_id)
        ∧ Deinitialize s' = Some (PWM_NOT_INITIALIZED, s')
        ∧ (∀ r s'', Initialize s' = Some (r, s'') -> r ≠ PWM_SUCCESS).
Proof.
  intros Hinit Hbus Hwf.
  destruct (Deinitialize_reliable s Hinit Hbus Hwf) as (s' & Hrun & Hinit' & Hcs).
  exists s'. split; [done|]. split; [done|]. split; [done|].
  split; [intros channel_id; by apply uninitialized_operations|].
  split; [unfold Deinitialize; run_unfold; by rewrite Hinit'|].
  intros r s'' Hrun'. by destruct (Initialize_never_succeeds s' r s'' Hinit' Hrun').
Qed.

Lemma Deinitialize_stops_every_channel_witness :
  is_initialized_ reliable_driver = true ∧ i2c_ reliable_driver ≠ None
  ∧ well_formed reliable_driver
  ∧ ∃ s', Deinitialize reliable_driver = Some (PWM_SUCCESS, s')
          ∧ is_initialized_ s' = false
          ∧ channels_ s' = set_is_active false <$> channels_ reliable_driver.
Proof.
  split; [done|]. split; [done|]. split; [done|].
  destruct (Deinitialize_stops_every_channel reliable_driver)
    as (s' & Hrun & Hinit & Hcs & _); [done|done|done|].
  exists s'. split; [exact Hrun|]. split; [exact Hinit|exact Hcs].
Defined.

(** ** [ConfigureChannel] *)

(** X11. [ConfigureChannel] validates before it acts: when it returns
    NotInitialized, InvalidChannel, InvalidFrequency or InvalidDutyCycle
    the object, transport included, is untouched.  When it succeeds the
    object holds the configured frequency with its prescale value, and
    the record of the channel holds the configured duty cycle with the
    timing pair of the mapper, its active flag as before.  When it does
    not succeed no channel record has changed, but the call is not all
    or nothing: the frequency and prescale value are either the old ones
    or already the configured ones. *)
Theorem ConfigureChannel_outcomes {B : Type} `{!BaseI2c B}
    (s s' : Pca9685Pwm B) (r : HfPwmErr) (channel_id : Z) (config : PwmChannelConfig) :
  ConfigureChannel channel_id config s = Some (r, s') ->
  (r = PWM_NOT_INITIALIZED ∨ r = PWM_INVALID_CHANNEL
   ∨ r = PWM_INVALID_FREQUENCY ∨ r = PWM_INVALID_DUTY_CYCLE -> s' = s)
  ∧ (r = PWM_SUCCESS ->
     current_frequency_ s' = frequency_hz config
     ∧ CalculatePrescale (frequency_hz config) = Some (prescale_value_ s')
     ∧ ∃ on off c,
         DutyCycleToTiming (initial_duty_cycle config) = Some (on, off)
         ∧ channels_ s !! Z.to_nat channel_id = Some c
         ∧ channels_ s'
           = <[Z.to_nat channel_id :=
                 {| is_active := is_active c; duty_cycle := initial_duty_cycle config;
                    on_time := on; off_time := off |}]> (channels_ s))
  ∧ (r ≠ PWM_SUCCESS -> channels_ s' = channels_ s)
  ∧ ((current_frequency_ s' = current_frequency_ s
      ∧ prescale_value_ s' = prescale_value_ s)
     ∨ (current_frequency_ s' = frequency_hz config
        ∧ CalculatePrescale (frequency_hz config) = Some (prescale_value_ s'))).
Proof.
  intros Hrun.
  destruct (ConfigureChannel_inv _ _ _ _ _ Hrun)
    as [[-> Hr]|(Hinit & Hch & Hcheck & [[Hne Hfreq]|(s1 & Hfreq & Hduty)])].
  - split; [done|]. split; [by intros ->; destruct Hr as [?|[?|[?|?]]]|].
    split; [done|]. by left.
  - destruct (SetFrequency_inv _ _ _ _ _ Hfreq)
      as [(Hi & -> & ->)|[(Hi & Hc & -> & ->)|[(Hi & Hc & Hf & -> & ->)
         |[(Hi & Hc & Hf & -> & Hs)|(Hi & Hc & Hf & -> & _)]]]];
      try (split; [done|]; split; [done|]; split; [done|]; by left).
    destruct Hs as (_ & _ & _ & Hcf & Hpv & Hcs).
    split; [by intros [?|[?|[?|?]]]|]. split; [done|]. split; [done|]. by left.
  - destruct (SetFrequency_inv _ _ _ _ _ Hfreq)
      as [(Hi & ? & ->)|[(Hi & Hc & ? & ->)|[(Hi & Hc & Hf & ? & ->)
         |[(Hi & Hc & Hf & ? & Hs)|(Hi & Hc & Hf & _ & p & s0 & Hp & Hs & ->)]]]];
      try done.
    destruct Hs as (_ & _ & Hin0 & _ & _ & Hcs0).
    destruct (SetDutyCycle_inv _ _ _ _ _ Hduty)
      as [(Hi1 & _)|[(_ & Hc1 & _)|[(_ & _ & Hd1 & _)
         |[(_ & _ & _ & -> & Hs1)|(_ & _ & _ & -> & on & off & c & s2 & Hm & Hs1 & Hl & ->)]]]].
    + simpl in Hi1. congruence.
    + lia.
    + congruence.
    + destruct Hs1 as (_ & _ & _ & Hcf & Hpv & Hcs). simpl in Hcf, Hpv, Hcs.
      split; [by intros [?|[?|[?|?]]]|]. split; [done|].
      split; [by rewrite Hcs, Hcs0|]. right. by rewrite Hcf, Hpv.
    + destruct Hs1 as (_ & _ & _ & Hcf & Hpv & Hcs). simpl in Hcf, Hpv, Hcs, Hl.
      split; [by intros [?|[?|[?|?]]]|]. simpl.
      split; [|split; [by intros Hne; destruct Hne|right; by rewrite Hcf, Hpv]].
      intros _. split; [done|]. split; [by rewrite Hpv|].
      exists on, off, c. split; [done|]. rewrite Hcs0 in Hl. split; [done|].
      by rewrite Hcs0.
Qed.

Lemma ConfigureChannel_outcomes_witness :
  ConfigureChannel 3 servo_config (initialized_driver 5)
  = Some (PWM_HARDWARE_ERROR,
          state_after (ConfigureChannel 3 servo_config) (initialized_driver 5))
  ∧ channels_ (state_after (ConfigureChannel 3 servo_config) (initialized_driver 5))
    = channels_ (initialized_driver 5)
  ∧ current_frequency_ (initialized_driver 5) = 1000
  ∧ current_frequency_
      (state_after (ConfigureChannel 3 servo_config) (initialized_driver 5)) = 50.
Proof.
  assert (ConfigureChannel 3 servo_config (initialized_driver 5)
          = Some (PWM_HARDWARE_ERROR,
                  state_after (ConfigureChannel 3 servo_config) (initialized_driver 5)))
    as Hrun by (vm_compute; reflexivity).
  split; [exact Hrun|].
  destruct (ConfigureChannel_outcomes _ _ _ _ _ Hrun) as (_ & _ & Hcs & _).
  split; [apply Hcs; discriminate|]. split; vm_compute; reflexivity.
Defined.

(** ** A driver without a transport *)

Section NoTransport.
Context {B : Type} `{!BaseI2c B}.
Implicit Types s : Pca9685Pwm B.

Lemma WriteRegister_null reg value s :
  i2c_ s = None -> WriteRegister reg value s = Some (PWM_HARDWARE_ERROR, s).
Proof. intros Hnull. unfold WriteRegister, i2c_is_null. run_unfold. by rewrite Hnull. Qed.

Lemma ReadRegister_null reg s :
  i2c_ s = None -> ReadRegister reg s = Some ((PWM_HARDWARE_ERROR, 0), s).
Proof. intros Hnull. unfold ReadRegister, i2c_is_null. run_unfold. by rewrite Hnull. Qed.

Lemma SetChannelTiming_null channel_id on off s :
  i2c_ s = None -> channel_id < 16 ->
  SetChannelTiming channel_id on off s = Some (PWM_HARDWARE_ERROR, s).
Proof.
  intros Hnull Hch. unfold SetChannelTiming.
  rewrite IsValidChannel_true by done. change (negb true) with false. cbv iota.
  by rewrite (bind_run _ _ _ _ _ (WriteRegister_null _ _ s Hnull)).
Qed.

Lemma read_modify_write_null reg (g : Z -> Z) s :
  i2c_ s = None ->
  ('(result, mode) ← ReadRegister reg;
   if decide (result ≠ PWM_SUCCESS) then mret result else
   WriteRegister reg (g mode)) s = Some (PWM_HARDWARE_ERROR, s).
Proof. intros Hnull. by rewrite (bind_run _ _ _ _ _ (ReadRegister_null reg s Hnull)). Qed.

Lemma Stop_null channel_id s :
  is_initialized_ s = true -> i2c_ s = None ->
  ∃ r, Stop channel_id s = Some (r, s).
Proof.
  intros Hinit Hnull. unfold Stop.
  rewrite (bind_run _ _ s true s) by (unfold gets; by rewrite Hinit).
  change (negb true) with false. cbv iota.
  unfold IsValidChannel. case_bool_decide as Hch; [|by eexists].
  change (negb true) with false. cbv iota.
  rewrite (bind_run _ _ _ _ _ (SetChannelTiming_null _ _ _ s Hnull Hch)).
  by eexists.
Qed.

Lemma stop_all_null channel_ids s :
  is_initialized_ s = true -> i2c_ s = None ->
  stop_all channel_ids s = Some (tt, s).
Proof.
  intros Hinit Hnull. induction channel_ids as [|i rest IH]; [done|]. simpl.
  destruct (Stop_null i s Hinit Hnull) as [r Hstop].
  by rewrite (bind_run _ _ _ _ _ Hstop).
Qed.
End NoTransport.



(** ** The uninitialized state *)

Section Uninitialized.
Context {B : Type} `{!BaseI2c B}.
Implicit Types s : Pca9685Pwm (list I2cEvent * B).
Variable sent : list I2cEvent.

(** An operation that returns at once on an uninitialized driver. *)
Lemma starting_unchanged {A : Type} (m : M (list I2cEvent * B) A) :
  (∀ s, is_initialized_ s = false -> ∃ a, m s = Some (a, s)) ->
  preserves (still_starting sent) m.
Proof.
  intros Hm s a s' [Hinit Hsent] Hrun. destruct (Hm s Hinit) as [a' Heq].
  rewrite Heq in Hrun. by simplify_eq.
Qed.

Lemma starting_batch_loop (body : nat -> M (list I2cEvent * B) HfPwmErr)
    (i remaining : nat) :
  (∀ j, preserves (still_starting sent) (body j)) ->
  preserves (still_starting sent) (batch_loop body i remaining).
Proof.
  intros Hbody. revert i. induction remaining as [|n IH]; intros i; simpl; preserve.
Qed.

Lemma starting_Initialize : preserves (still_starting sent) Initialize.
Proof.
  intros s r s' [Hinit (events & Hsent & Hall)].
  unfold Initialize, Reset, SetFrequency, i2c_is_null, i2c_call. run_unfold.
  rewrite Hinit. unfold trace in Hsent.
  destruct (i2c_ s) as [[log b]|] eqn:Hbus; simpl;
    [|intros [= <- <-]; split; [done|]; exists events; unfold trace; by rewrite Hbus].
  rewrite Hbus. destruct (i2c_Initialize b) as [st b1].
  assert (Forall startup_event (events ++ [EvInitialize st])) as Hall1
    by (apply Forall_app; split; [done|by repeat constructor]).
  destruct st; simpl;
    [|intros [= <- <-]; split; [done|]; exists (events ++ [EvInitialize I2C_FAILURE]);
      unfold trace; simpl; by rewrite Hsent, app_assoc].
  destruct (i2c_Write 0 [0; 6] b1) as [st2 b2].
  assert (Forall startup_event
            ((events ++ [EvInitialize I2C_SUCCESS]) ++ [EvWrite 0 [0; 6] st2])) as Hall2
    by (apply Forall_app; split; [done|by repeat constructor]).
  destruct st2; simpl; rewrite ?Hinit; simpl; intros [= <- <-]; (split; [done|]);
    eexists; unfold trace; simpl; (split; [|exact Hall2]);
    by rewrite Hsent, !app_assoc.
Qed.

Lemma starting_perform (c : Call) : preserves (still_starting sent) (perform c).
Proof.
  destruct c; simpl; (apply preserves_bind; [|intros ?; apply preserves_ret]);
    try apply starting_Initialize;
    try (apply starting_unchanged; intros s Hinit;
         unfold Deinitialize, ConfigureChannel, SetDutyCycle, SetFrequency, Start, Stop,
           GetDutyCycle, GetFrequency, IsChannelActive, GetMaxChannels, SetPhase,
           ConfigureFade, StartFade, ConfigureComplementary, SetDeadTime,
           RegisterCallback, UnregisterCallback, SetOutputEnable,
           ConfigureExternalClock, SetOutputDriver, SetOutputInvert, Sleep, Wakeup;
         run_unfold; rewrite ?Hinit; simpl;
         try destruct (bool_decide (output_enable_pin_ s < 0)); by eexists).
  - unfold StartMultiple. destruct channel_ids; [|apply preserves_ret].
    destruct (bool_decide (num_channels = 0)); [apply preserves_ret|].
    apply starting_batch_loop. intros j. apply preserves_defined_bind. intros ch _.
    apply starting_unchanged. intros s Hinit. unfold Start. run_unfold.
    rewrite Hinit. by eexists.
  - unfold StopMultiple. destruct channel_ids; [|apply preserves_ret].
    destruct (bool_decide (num_channels = 0)); [apply preserves_ret|].
    apply starting_batch_loop. intros j. apply preserves_defined_bind. intros ch _.
    apply starting_unchanged. intros s Hinit. unfold Stop. run_unfold.
    rewrite Hinit. by eexists.
  - unfold SetDutyCycleMultiple.
    destruct channel_ids; [|apply preserves_ret].
    destruct duty_cycles; [|apply preserves_ret].
    destruct (bool_decide (num_channels = 0)); [apply preserves_ret|].
    apply starting_batch_loop. intros j. apply preserves_defined_bind. intros ch _.
    apply preserves_defined_bind. intros d _.
    apply starting_unchanged. intros s Hinit. unfold SetDutyCycle. run_unfold.
    rewrite Hinit. by eexists.
Qed.

Lemma starting_perform_all (calls : list Call) :
  preserves (still_starting sent) (perform_all calls).
Proof.
  induction calls as [|c calls IH]; simpl; [apply preserves_ret|].
  apply preserves_bind; [apply starting_perform|by intros _].
Qed.
End Uninitialized.

(** X13. No sequence of public calls initializes a driver: starting from
    an uninitialized driver, after any calls whatsoever the driver is
    still uninitialized, and all it has sent to the transport are
    initializations of the transport and software resets on the
    general-call address; the frequency, the output mode and the channel
    registers of the device are never written. *)
Theorem uninitialized_driver_stays_uninitialized {B : Type} `{!BaseI2c B}
    (s s' : Pca9685Pwm (list I2cEvent * B)) (calls : list Call) :
  is_initialized_ s = false ->
  perform_all calls s = Some (tt, s') ->
  is_initialized_ s' = false
  ∧ ∃ events, trace s' = trace s ++ events ∧ Forall startup_event events.
Proof.
  intros Hinit Hrun.
  apply (starting_perform_all (trace s) calls s tt s'); [|done].
  split; [done|]. exists []. by rewrite app_nil_r.
Qed.

Lemma uninitialized_driver_stays_uninitialized_witness :
  is_initialized_ fresh_driver = false
  ∧ perform_all [CallInitialize; CallConfigureChannel 0 servo_config; CallStart 0;
                 CallInitialize; CallSetDutyCycle 0 half; CallInitialize] fresh_driver
    = Some (tt, state_after
                  (perform_all [CallInitialize; CallConfigureChannel 0 servo_config;
                                CallStart 0; CallInitialize; CallSetDutyCycle 0 half;
                                CallInitialize]) fresh_driver)
  ∧ is_initialized_
      (state_after
         (perform_all [CallInitialize; CallConfigureChannel 0 servo_config;
                       CallStart 0; CallInitialize; CallSetDutyCycle 0 half;
                       CallInitialize]) fresh_driver) = false.
Proof.
  split; [reflexivity|].
  assert (perform_all [CallInitialize; CallConfigureChannel 0 servo_config; CallStart 0;
                       CallInitialize; CallSetDutyCycle 0 half; CallInitialize]
            fresh_driver
          = Some (tt, state_after
                        (perform_all [CallInitialize; CallConfigureChannel 0 servo_config;
                                      CallStart 0; CallInitialize; CallSetDutyCycle 0 half;
                                      CallInitialize]) fresh_driver)) as Hrun
    by (vm_compute; reflexivity).
  split; [exact Hrun|].
  exact (proj1 (uninitialized_driver_stays_uninitialized fresh_driver _ _ eq_refl Hrun)).
Defined.

(** ** What every operation keeps of the object *)

Section Configuration.
Context {B : Type} `{!BaseI2c B}.
Variable s0 : Pca9685Pwm B.

Let J : Pca9685Pwm B -> Prop := configuration_kept s0.

Lemma kept_i2c_call {A : Type} (op : B -> A * B) : preserves J (i2c_call op).
Proof. apply preserves_i2c_call. by intros s b. Qed.

Lemma kept_set_is_initialized v : preserves J (modify (set_is_initialized v)).
Proof. apply preserves_modify. by intros s. Qed.

Lemma kept_reset :
  preserves J
    (modify (set_channels (replicate (Z.to_nat MAX_CHANNELS) ChannelState_default))).
Proof.
  apply preserves_modify. intros s (Ha & Hp & _ & Hf).
  split; [done|]. split; [done|]. split; [|done]. exact (length_replicate _ _).
Qed.

Lemma kept_channel_assign channel_id (f : ChannelState -> ChannelState) :
  preserves J (channel_assign channel_id f).
Proof.
  intros s a s' (Ha & Hp & Hl & Hf). unfold channel_assign.
  destruct (channels_ s !! Z.to_nat channel_id) as [c|]; [|done].
  simpl. intros [= _ <-].
  split; [done|]. split; [done|]. split; [|done]. simpl. by rewrite length_insert.
Qed.

#[local] Hint Resolve kept_i2c_call kept_set_is_initialized kept_reset
  kept_channel_assign : preserve.

Lemma kept_WriteRegister reg value : preserves J (WriteRegister reg value).
Proof. unfold WriteRegister. preserve. Qed.

Lemma kept_ReadRegister reg : preserves J (ReadRegister reg).
Proof. unfold ReadRegister. preserve. Qed.

#[local] Hint Resolve kept_WriteRegister kept_ReadRegister : preserve.

Lemma kept_SetChannelTiming channel_id on off :
  preserves J (SetChannelTiming channel_id on off).
Proof. unfold SetChannelTiming. preserve. Qed.

Lemma kept_Reset : preserves J Reset.
Proof. unfold Reset. preserve. Qed.

(** [SetFrequency] replaces the cache by a validated pair, and only on
    success. *)
Lemma kept_SetFrequency channel_id frequency :
  preserves J (SetFrequency channel_id frequency).
Proof.
  intros s r s' HJ Hrun.
  destruct (SetFrequency_inv _ _ _ _ _ Hrun)
    as [(Hi & -> & ->)|[(Hi & Hch & -> & ->)|[(Hi & Hch & Hf & -> & ->)
       |[(Hi & Hch & Hf & -> & Hs)|(Hi & Hch & Hf & -> & p & s1 & Hp & Hs & ->)]]]];
    try done.
  - destruct HJ as (Ha & Hpin & Hl & Hc), Hs as (Ha' & Hpin' & _ & Hcf & Hpv & Hcs).
    split; [congruence|]. split; [congruence|]. split; [congruence|].
    unfold frequency_cache_kept in *. by rewrite Hcf, Hpv.
  - destruct HJ as (Ha & Hpin & Hl & Hc), Hs as (Ha' & Hpin' & _ & Hcf & Hpv & Hcs).
    split; [simpl; congruence|]. split; [simpl; congruence|].
    split; [simpl; congruence|]. right. simpl.
    unfold MIN_FREQUENCY, MAX_FREQUENCY. by split.
Qed.

Lemma kept_Sleep : preserves J Sleep.
Proof. unfold Sleep. preserve. Qed.

Lemma kept_Wakeup : preserves J Wakeup.
Proof. unfold Wakeup. preserve. Qed.

#[local] Hint Resolve kept_SetChannelTiming kept_Reset kept_SetFrequency
  kept_Sleep kept_Wakeup : preserve.

Lemma kept_Initialize : preserves J Initialize.
Proof. unfold Initialize. preserve. Qed.

Lemma kept_SetDutyCycle channel_id d : preserves J (SetDutyCycle channel_id d).
Proof. unfold SetDutyCycle. preserve. Qed.

Lemma kept_Start channel_id : preserves J (Start channel_id).
Proof. unfold Start. preserve. Qed.

Lemma kept_Stop channel_id : preserves J (Stop channel_id).
Proof. unfold Stop. preserve. Qed.

#[local] Hint Resolve kept_Initialize kept_SetDutyCycle kept_Start kept_Stop : preserve.

Lemma kept_ConfigureChannel channel_id config :
  preserves J (ConfigureChannel channel_id config).
Proof. unfold ConfigureChannel. preserve. Qed.

Lemma kept_stop_all channel_ids : preserves J (stop_all channel_ids).
Proof. induction channel_ids; simpl; preserve. Qed.

#[local] Hint Resolve kept_stop_all : preserve.

Lemma kept_Deinitialize : preserves J Deinitialize.
Proof. unfold Deinitialize. preserve. Qed.

Lemma kept_batch_loop (body : nat -> M B HfPwmErr) (i remaining : nat) :
  (∀ j, preserves J (body j)) -> preserves J (batch_loop body i remaining).
Proof.
  intros Hbody. revert i. induction remaining as [|n IH]; intros i; simpl; preserve.
Qed.

Lemma kept_perform (c : Call) : preserves J (perform c).
Proof.
  destruct c; simpl; (apply preserves_bind; [|intros ?; apply preserves_ret]);
    eauto using kept_Initialize, kept_Deinitialize, kept_ConfigureChannel,
      kept_SetDutyCycle, kept_SetFrequency, kept_Start, kept_Stop, kept_Sleep,
      kept_Wakeup, preserves_ret.
  - unfold GetDutyCycle. preserve.
  - unfold GetFrequency. preserve.
  - unfold IsChannelActive. preserve.
  - unfold StartMultiple. preserve. apply kept_batch_loop. intros j. preserve.
  - unfold StopMultiple. preserve. apply kept_batch_loop. intros j. preserve.
  - unfold SetDutyCycleMultiple. preserve. apply kept_batch_loop. intros j. preserve.
  - unfold SetOutputEnable. preserve.
  - unfold ConfigureExternalClock. preserve.
  - unfold SetOutputDriver. preserve.
  - unfold SetOutputInvert. preserve.
Qed.

Lemma kept_perform_all (calls : list Call) : preserves J (perform_all calls).
Proof.
  induction calls as [|c calls IH]; simpl; [apply preserves_ret|].
  apply preserves_bind; [apply kept_perform|by intros _].
Qed.
End Configuration.



(* ===================================================================== *)
(** * Part IV: propagation of errors                                      *)
(* ===================================================================== *)

Section Sequenced.
Context {B : Type} `{!BaseI2c B}.
Implicit Types s : Pca9685Pwm B.

Lemma bind_ext {A C : Type} (m : M B A) (k1 k2 : A -> M B C) s :
  (∀ a s', m s = Some (a, s') -> k1 a s' = k2 a s') ->
  (m ≫= k1) s = (m ≫= k2) s.
Proof.
  intros Hk. unfold mbind, M_bind. destruct (m s) as [[a s']|]; [|done]. by apply Hk.
Qed.

(** What a run of [in_sequence] amounts to: on success every step
    succeeded; on an error the steps before the failing one succeeded,
    the failing step is the last one run, and its result and final
    object are those of the whole run. *)
Lemma in_sequence_run (steps : list Step) v s r s' :
  in_sequence steps v s = Some (r, s') ->
  (r = PWM_SUCCESS ∧ ∃ v', steps_succeed steps v s v' s')
  ∨ (r ≠ PWM_SUCCESS
     ∧ ∃ before step after v1 s1 v2,
         steps = before ++ step :: after ∧ steps_succeed before v s v1 s1
         ∧ step v1 s1 = Some ((r, v2), s')).
Proof.
  revert v s. induction steps as [|step rest IH]; intros v s; simpl.
  - intros [-> ->]%ret_Some. left. split; [done|]. exists v. constructor.
  - intros ([r1 v1] & s1 & Hstep & Hrest)%bind_Some.
    destruct (decide (r1 ≠ PWM_SUCCESS)) as [Hfail|Hok].
    + apply ret_Some in Hrest as [-> ->]. right. split; [done|].
      exists [], step, rest, v, s, v1. split; [done|]. split; [constructor|done].
    + assert (r1 = PWM_SUCCESS) as ->
        by (destruct (decide (r1 = PWM_SUCCESS)); [done|by destruct Hok]).
      destruct (IH v1 s1 Hrest)
        as [[-> [v' Hall]]|(Hr & before & st & after & v2 & s2 & v3 & -> & Hall & Hst)].
      * left. split; [done|]. exists v'. by econstructor.
      * right. split; [done|].
        exists (step :: before), st, after, v2, s2, v3. split; [done|].
        split; [by econstructor|done].
Qed.

Lemma in_sequence_call (m : M B HfPwmErr) (rest : list Step) v s :
  in_sequence (step_call m :: rest) v s
  = (result ← m;
     if decide (result ≠ PWM_SUCCESS) then mret result else in_sequence rest v) s.
Proof.
  simpl. unfold step_call, mbind, M_bind, mret, M_ret.
  by destruct (m s) as [[r s1]|].
Qed.

Lemma in_sequence_write reg (g : Z -> Z) (rest : list Step) v s :
  in_sequence (step_write reg g :: rest) v s
  = (result ← WriteRegister reg (g v);
     if decide (result ≠ PWM_SUCCESS) then mret result else in_sequence rest (g v)) s.
Proof.
  simpl. unfold step_write, mbind, M_bind, mret, M_ret.
  by destruct (WriteRegister reg (g v) s) as [[r s1]|].
Qed.

Lemma in_sequence_read reg (rest : list Step) v s :
  in_sequence (step_read reg :: rest) v s
  = ('(result, v') ← ReadRegister reg;
     if decide (result ≠ PWM_SUCCESS) then mret result else in_sequence rest v') s.
Proof. done. Qed.

(** One step further in the comparison of an operation with its steps. *)
Ltac next_step :=
  first [rewrite in_sequence_call | rewrite in_sequence_write | rewrite in_sequence_read];
  apply bind_ext; intros ? ? _;
  try (match goal with |- context [let '(_, _) := ?x in _] => destruct x end);
  match goal with
  | |- context [decide (?r ≠ PWM_SUCCESS)] =>
      destruct (decide (r ≠ PWM_SUCCESS)); [done|]
  end.

Lemma SetChannelTiming_in_sequence channel_id on off s :
  channel_id < MAX_CHANNELS ->
  SetChannelTiming channel_id on off s
  = in_sequence (SetChannelTiming_steps channel_id on off) 0 s.
Proof.
  intros Hch. unfold SetChannelTiming, SetChannelTiming_steps.
  rewrite IsValidChannel_true by done. change (negb true) with false. cbv iota zeta.
  do 4 next_step. done.
Qed.

(** The steps from the byte [v] on, followed by the bookkeeping. *)
Let then_from (steps : list Step) (v : Z) (finish : M B unit) : M B HfPwmErr :=
  result ← in_sequence steps v;
  (if decide (result = PWM_SUCCESS) then finish else mret tt);;
  mret result.

Lemma then_nil v (finish : M B unit) s :
  then_from [] v finish s = (finish;; mret PWM_SUCCESS) s.
Proof. done. Qed.

Lemma then_cons (step : Step) (rest : list Step) v (finish : M B unit) s :
  then_from (step :: rest) v finish s
  = ('(result, v') ← step v;
     if decide (result ≠ PWM_SUCCESS) then mret result else then_from rest v' finish) s.
Proof.
  unfold then_from. simpl. unfold mbind, M_bind.
  destruct (step v s) as [[[r v'] s1]|]; [|done].
  destruct (decide (r ≠ PWM_SUCCESS)) as [Hne|]; [|done].
  unfold mret, M_ret. by rewrite decide_False.
Qed.

Lemma then_call (m : M B HfPwmErr) (rest : list Step) v (finish : M B unit) s :
  then_from (step_call m :: rest) v finish s
  = (result ← m;
     if decide (result ≠ PWM_SUCCESS) then mret result else then_from rest v finish) s.
Proof.
  rewrite then_cons. unfold step_call, mbind, M_bind, mret, M_ret.
  by destruct (m s) as [[r s1]|].
Qed.

Lemma then_write reg (g : Z -> Z) (rest : list Step) v (finish : M B unit) s :
  then_from (step_write reg g :: rest) v finish s
  = (result ← WriteRegister reg (g v);
     if decide (result ≠ PWM_SUCCESS) then mret result
     else then_from rest (g v) finish) s.
Proof.
  rewrite then_cons. unfold step_write, mbind, M_bind, mret, M_ret.
  by destruct (WriteRegister reg (g v) s) as [[r s1]|].
Qed.

Lemma then_read reg (rest : list Step) v (finish : M B unit) s :
  then_from (step_read reg :: rest) v finish s
  = ('(result, v') ← ReadRegister reg;
     if decide (result ≠ PWM_SUCCESS) then mret result else then_from rest v' finish) s.
Proof. by rewrite then_cons. Qed.

Ltac next_then :=
  first [rewrite then_call | rewrite then_write | rewrite then_read];
  apply bind_ext; intros ? ? _;
  try (match goal with |- context [let '(_, _) := ?x in _] => destruct x end);
  match goal with
  | |- context [decide (?r ≠ PWM_SUCCESS)] =>
      destruct (decide (r ≠ PWM_SUCCESS)); [done|]
  end.

Lemma SetFrequency_in_sequence channel_id frequency prescale s :
  is_initialized_ s = true -> channel_id < MAX_CHANNELS ->
  MIN_FREQUENCY <= frequency <= MAX_FREQUENCY ->
  CalculatePrescale frequency = Some prescale ->
  SetFrequency channel_id frequency s
  = in_sequence_then (SetFrequency_steps prescale)
      (modify (set_frequency frequency prescale)) s.
Proof.
  intros Hinit Hch Hf Hp. unfold SetFrequency.
  rewrite (bind_run _ _ s true s) by (unfold gets; by rewrite Hinit).
  change (negb true) with false. cbv iota.
  rewrite IsValidChannel_true by done. change (negb true) with false. cbv iota.
  rewrite !bool_decide_eq_false_2 by lia. change (false || false) with false. cbv iota.
  rewrite Hp. rewrite (bind_run _ _ s prescale s) by done.
  change (in_sequence_then ?steps ?finish) with (then_from steps 0 finish).
  unfold SetFrequency_steps, update_bits. cbv zeta.
  do 4 next_then. by rewrite then_nil.
Qed.

Lemma SetDutyCycle_in_sequence channel_id d on off s :
  is_initialized_ s = true -> channel_id < MAX_CHANNELS ->
  Float32.ltb d Float32.zero || Float32.ltb Float32.one d = false ->
  DutyCycleToTiming d = Some (on, off) ->
  SetDutyCycle channel_id d s
  = in_sequence_then (SetChannelTiming_steps channel_id on off)
      (channel_assign channel_id (set_duty d on off)) s.
Proof.
  intros Hinit Hch Hd Hmap. unfold SetDutyCycle.
  rewrite (bind_run _ _ s true s) by (unfold gets; by rewrite Hinit).
  change (negb true) with false. cbv iota.
  rewrite IsValidChannel_true by done. change (negb true) with false. cbv iota.
  rewrite Hd, Hmap. rewrite (bind_run _ _ s (on, off) s) by done. cbv beta iota.
  unfold in_sequence_then, mbind, M_bind.
  by rewrite SetChannelTiming_in_sequence.
Qed.

Lemma Start_in_sequence channel_id c s :
  is_initialized_ s = true -> channel_id < MAX_CHANNELS ->
  channels_ s !! Z.to_nat channel_id = Some c ->
  Start channel_id s
  = in_sequence_then (SetChannelTiming_steps channel_id (on_time c) (off_time c))
      (channel_assign channel_id (set_is_active true)) s.
Proof.
  intros Hinit Hch Hc. unfold Start.
  rewrite (bind_run _ _ s true s) by (unfold gets; by rewrite Hinit).
  change (negb true) with false. cbv iota.
  rewrite IsValidChannel_true by done. change (negb true) with false. cbv iota.
  rewrite (bind_run _ _ s c s) by (unfold channel_at; by rewrite Hc).
  unfold in_sequence_then, mbind, M_bind.
  by rewrite SetChannelTiming_in_sequence.
Qed.

Lemma Stop_in_sequence channel_id s :
  is_initialized_ s = true -> channel_id < MAX_CHANNELS ->
  Stop channel_id s
  = in_sequence_then (SetChannelTiming_steps channel_id 0 MAX_PWM_VALUE)
      (channel_assign channel_id (set_is_active false)) s.
Proof.
  intros Hinit Hch. unfold Stop.
  rewrite (bind_run _ _ s true s) by (unfold gets; by rewrite Hinit).
  change (negb true) with false. cbv iota.
  rewrite IsValidChannel_true by done. change (negb true) with false. cbv iota.
  unfold in_sequence_then, mbind, M_bind.
  by rewrite SetChannelTiming_in_sequence.
Qed.

Lemma ConfigureChannel_in_sequence channel_id config s :
  is_initialized_ s = true -> channel_id < MAX_CHANNELS ->
  MIN_FREQUENCY <= frequency_hz config <= MAX_FREQUENCY ->
  Float32.ltb (initial_duty_cycle config) Float32.zero
  || Float32.ltb Float32.one (initial_duty_cycle config) = false ->
  ConfigureChannel channel_id config s
  = in_sequence (ConfigureChannel_steps channel_id config) 0 s.
Proof.
  intros Hinit Hch Hf Hd. unfold ConfigureChannel, ConfigureChannel_steps.
  rewrite (bind_run _ _ s true s) by (unfold gets; by rewrite Hinit).
  change (negb true) with false. cbv iota.
  rewrite IsValidChannel_true by done. change (negb true) with false. cbv iota.
  rewrite !bool_decide_eq_false_2 by lia. change (false || false) with false. cbv iota.
  rewrite Hd. do 2 next_step. done.
Qed.

Lemma result_returned (m : M B HfPwmErr) s :
  m s = (result ← m;
         if decide (result ≠ PWM_SUCCESS) then mret result else mret PWM_SUCCESS) s.
Proof.
  unfold mbind, M_bind. destruct (m s) as [[r s1]|]; [|done].
  destruct (decide (r ≠ PWM_SUCCESS)) as [|Heq]; [done|].
  unfold mret, M_ret. do 2 f_equal.
  destruct (decide (r = PWM_SUCCESS)); [done|by destruct Heq].
Qed.

Lemma mode_operation_in_sequence (m : M B HfPwmErr) (reg mask : Z) (level : bool) s :
  mode_operation m reg mask level -> is_initialized_ s = true ->
  m s = in_sequence (mode_steps reg mask level) 0 s.
Proof.
  intros Hop Hinit. unfold mode_steps.
  destruct Hop as [| |f|b|b];
    [unfold Sleep|unfold Wakeup|unfold ConfigureExternalClock
    |unfold SetOutputDriver|unfold SetOutputInvert];
    rewrite (bind_run _ _ s true s) by (unfold gets; by rewrite Hinit);
    change (negb true) with false; cbv iota;
    rewrite in_sequence_read; apply bind_ext; intros [r v] s1 _;
    (destruct (decide (r ≠ PWM_SUCCESS)); [done|]);
    rewrite in_sequence_write; cbv zeta; unfold update_bits; cbn [in_sequence].
  - apply result_returned.
  - apply bind_ext. intros r2 s2 _.
    destruct (decide (r2 ≠ PWM_SUCCESS)) as [|Heq]; [done|].
    destruct (decide (r2 = PWM_SUCCESS)) as [->|]; [done|by destruct Heq].
  - apply result_returned.
  - destruct b; apply result_returned.
  - destruct b; apply result_returned.
Qed.

Lemma bind_assoc {A C D : Type} (m : M B A) (k : A -> M B C) (k' : C -> M B D) s :
  ((m ≫= k) ≫= k') s = (m ≫= (fun a => k a ≫= k')) s.
Proof. unfold mbind, M_bind. by destruct (m s) as [[a s1]|]. Qed.

Lemma ret_bind {A C : Type} (a : A) (k : A -> M B C) s : (mret a ≫= k) s = k a s.
Proof. done. Qed.

Lemma Initialize_in_sequence s :
  is_initialized_ s = false -> i2c_ s ≠ None ->
  Initialize s
  = in_sequence_then Initialize_steps (modify (set_is_initialized true)) s.
Proof.
  intros Hinit Hbus. unfold Initialize.
  rewrite (bind_run _ _ s false s) by (unfold gets; by rewrite Hinit).
  destruct (i2c_ s) as [b|] eqn:Hb; [|done].
  rewrite (bind_run _ _ s false s) by (unfold i2c_is_null; by rewrite Hb).
  change (in_sequence_then ?steps ?finish) with (then_from steps 0 finish).
  unfold Initialize_steps. rewrite then_call, bind_assoc.
  apply bind_ext. intros st s1 _. rewrite ret_bind.
  destruct (decide (st ≠ I2C_SUCCESS)); [done|].
  rewrite decide_False by (intros Hne; by apply Hne).
  next_then. rewrite then_call, bind_assoc.
  apply bind_ext. intros frequency s3 _. apply bind_ext. intros r3 s4 _.
  destruct (decide (r3 ≠ PWM_SUCCESS)); [done|]. cbv zeta.
  do 2 next_then. by rewrite then_nil.
Qed.

(** The loop of a batch operation runs the calls in sequence. *)
Lemma first_failure_in_sequence {X : Type} (op : X -> M B HfPwmErr) (xs : list X) v s :
  first_failure op xs s = in_sequence ((fun x => step_call (op x)) <$> xs) v s.
Proof.
  revert s. induction xs as [|x xs IH]; intros s; [done|].
  rewrite fmap_cons, in_sequence_call. simpl. apply bind_ext. intros r s1 _.
  by destruct (decide (r ≠ PWM_SUCCESS)).
Qed.

Lemma stop_all_all_run (channel_ids : list Z) s s' :
  stop_all channel_ids s = Some (tt, s') -> all_run Stop channel_ids s s'.
Proof.
  revert s. induction channel_ids as [|i rest IH]; intros s; simpl.
  - intros [_ ->]%ret_Some. constructor.
  - intros (r & s1 & Hstop & Hrest)%bind_Some. econstructor; [done|by apply IH].
Qed.
(** An argument that fails a check is an error met before the first
    step: the operation returns it and does nothing. *)
Lemma rejected_before_first_step channel_id s :
  is_initialized_ s = true -> channel_id < MAX_CHANNELS ->
  (∀ f, ¬ (MIN_FREQUENCY <= f <= MAX_FREQUENCY) ->
        SetFrequency channel_id f s = Some (PWM_INVALID_FREQUENCY, s))
  ∧ (∀ config, ¬ (MIN_FREQUENCY <= frequency_hz config <= MAX_FREQUENCY) ->
        ConfigureChannel channel_id config s = Some (PWM_INVALID_FREQUENCY, s))
  ∧ (∀ d, Float32.ltb d Float32.zero || Float32.ltb Float32.one d = true ->
        SetDutyCycle channel_id d s = Some (PWM_INVALID_DUTY_CYCLE, s))
  ∧ (∀ config, MIN_FREQUENCY <= frequency_hz config <= MAX_FREQUENCY ->
        Float32.ltb (initial_duty_cycle config) Float32.zero
        || Float32.ltb Float32.one (initial_duty_cycle config) = true ->
        ConfigureChannel channel_id config s = Some (PWM_INVALID_DUTY_CYCLE, s)).
Proof.
  intros Hinit Hch.
  assert (∀ f, ¬ (MIN_FREQUENCY <= f <= MAX_FREQUENCY) ->
            bool_decide (f < MIN_FREQUENCY) || bool_decide (f > MAX_FREQUENCY) = true)
    as Hout.
  { intros f Hf. apply orb_true_iff. rewrite !bool_decide_eq_true. lia. }
  split; [|split; [|split]].
  - intros f Hf. unfold SetFrequency. run_unfold.
    by rewrite Hinit, IsValidChannel_true, (Hout f Hf).
  - intros config Hf. unfold ConfigureChannel. run_unfold.
    by rewrite Hinit, IsValidChannel_true, (Hout _ Hf).
  - intros d Hd. unfold SetDutyCycle. run_unfold.
    by rewrite Hinit, IsValidChannel_true, Hd.
  - intros config Hf Hd. unfold ConfigureChannel. run_unfold.
    rewrite Hinit, IsValidChannel_true by done.
    rewrite !bool_decide_eq_false_2 by lia. by rewrite Hd.
Qed.
End Sequenced.

(** ** [Deinitialize] carries out every step *)

Section CarriedOut.
Context {B : Type} `{!BaseI2c B}.
Implicit Types s : Pca9685Pwm (list I2cEvent * B).

Lemma in_sequence_grows (steps : list Step) v s r s' :
  Forall (fun step : Step =>
            ∀ v s x s', step v s = Some (x, s') -> ∃ events, trace s' = trace s ++ events)
         steps ->
  in_sequence steps v s = Some (r, s') ->
  ∃ events, trace s' = trace s ++ events.
Proof.
  intros Hsteps. revert v s. induction Hsteps as [|step rest Hstep _ IH]; intros v s; simpl.
  - intros [_ ->]%ret_Some. exists []. by rewrite app_nil_r.
  - intros ([r1 v1] & s1 & Hrun & Hrest)%bind_Some.
    destruct (Hstep _ _ _ _ Hrun) as (events1 & Ht1).
    destruct (decide (r1 ≠ PWM_SUCCESS)).
    + apply ret_Some in Hrest as [_ ->]. by exists events1.
    + destruct (IH _ _ Hrest) as (events2 & Ht2).
      exists (events1 ++ events2). by rewrite Ht2, Ht1, app_assoc.
Qed.

Lemma write_step_grows reg value :
  ∀ v s x s', step_call (WriteRegister reg value) v s = Some (x, s') ->
    ∃ events, trace s' = trace s ++ events.
Proof.
  intros v s x s' (r & s1 & Hw & [_ ->]%ret_Some)%bind_Some.
  destruct (aborts_WriteRegister reg value s r s1 Hw) as (events & Ht & _).
  by exists events.
Qed.

Lemma traced_not_null s t e rest : trace s = t ++ e :: rest -> i2c_ s ≠ None.
Proof. intros Ht Hnull. rewrite (trace_null s Hnull) in Ht. by destruct t. Qed.

Lemma Stop_begun channel_id s r s' :
  is_initialized_ s = true -> i2c_ s ≠ None -> channel_id < MAX_CHANNELS ->
  Stop channel_id s = Some (r, s') ->
  ∃ events,
    trace s' = trace s ++ events ∧ stop_begun (i2c_address_ s) channel_id events
    ∧ is_initialized_ s' = true ∧ i2c_ s' ≠ None ∧ i2c_address_ s' = i2c_address_ s.
Proof.
  intros Hinit Hbus Hch Hrun.
  assert (is_initialized_ s' = true ∧ i2c_address_ s' = i2c_address_ s) as [Hinit' Ha'].
  { destruct (Stop_inv _ _ _ _ Hrun)
      as [(Hi & _)|[(_ & Hc & _)|[(_ & _ & _ & Hs)|(_ & _ & _ & c & s1 & Hs & _ & ->)]]];
      [congruence|unfold MAX_CHANNELS in Hch; lia| |];
      destruct Hs as (Ha & _ & Hin & _); simpl; split; congruence. }
  rewrite Stop_in_sequence in Hrun by done.
  apply bind_Some in Hrun as (r1 & s1 & Hseq & Htail).
  assert (trace s' = trace s1) as Hsame.
  { apply bind_Some in Htail as ([] & s2 & Hassign & [_ ->]%ret_Some).
    destruct (decide (r1 = PWM_SUCCESS)).
    - by apply (silent_run _ _ _ _ (silent_channel_assign _ _) Hassign).
    - by apply ret_Some in Hassign as [_ ->]. }
  unfold SetChannelTiming_steps in Hseq. cbv zeta in Hseq.
  rewrite in_sequence_call in Hseq.
  apply bind_Some in Hseq as (rw & sw & Hw & Hrest).
  destruct (WriteRegister_recorded _ _ _ _ _ Hw) as (_ & Hcases).
  assert (∃ st, trace sw
                = trace s ++ [EvWrite (i2c_address_ s)
                                [u8 (Registers.LED0_ON_L + channel_id * 4); 0] st])
    as [st Htw].
  { destruct Hcases as [(Hnull & _)|[(Ht & _)|(Ht & _)]]; [done| |]; by eexists. }
  assert (∃ events, trace s1 = trace sw ++ events) as [events Ht1].
  { destruct (decide (rw ≠ PWM_SUCCESS)).
    - apply ret_Some in Hrest as [_ ->]. exists []. by rewrite app_nil_r.
    - eapply in_sequence_grows; [|exact Hrest].
      repeat (apply Forall_cons; split; [apply write_step_grows|]). constructor. }
  exists (EvWrite (i2c_address_ s) [u8 (Registers.LED0_ON_L + channel_id * 4); 0] st
          :: events).
  assert (trace s' = trace s ++ EvWrite (i2c_address_ s)
                       [u8 (Registers.LED0_ON_L + channel_id * 4); 0] st :: events) as Ht
    by (by rewrite Hsame, Ht1, Htw, <- app_assoc).
  split; [done|]. split; [by eexists _, _|]. split; [done|].
  split; [by eapply traced_not_null|done].
Qed.

Lemma Sleep_begun s r s' :
  is_initialized_ s = true -> i2c_ s ≠ None ->
  Sleep s = Some (r, s') ->
  ∃ events, trace s' = trace s ++ events ∧ sleep_begun (i2c_address_ s) events.
Proof.
  intros Hinit Hbus. unfold Sleep.
  rewrite (bind_run _ _ s true s) by (unfold gets; by rewrite Hinit).
  change (negb true) with false. cbv iota.
  intros ([r1 v] & s1 & Hread & Hrest)%bind_Some.
  destruct (ReadRegister_recorded _ _ _ _ _ Hread) as (_ & Hcases).
  assert (∃ st raw, trace s1
                    = trace s ++ [EvWriteRead (i2c_address_ s) [Registers.MODE1] st raw])
    as (st & raw & Ht1).
  { destruct Hcases as [(Hnull & _)|[(raw & Ht & _)|(raw & Ht & _)]]; [done| |];
      by eexists _, _. }
  assert (∃ events, trace s' = trace s1 ++ events) as [events Ht2].
  { destruct (decide (r1 ≠ PWM_SUCCESS)).
    - apply ret_Some in Hrest as [_ ->]. exists []. by rewrite app_nil_r.
    - destruct (aborts_WriteRegister _ _ _ _ _ Hrest) as (events & Ht & _).
      by exists events. }
  exists (EvWriteRead (i2c_address_ s) [Registers.MODE1] st raw :: events).
  split; [by rewrite Ht2, Ht1, <- app_assoc|by eexists _, _, _].
Qed.

Lemma all_run_begun (ids : list Z) s s' :
  all_run Stop ids s s' ->
  is_initialized_ s = true -> i2c_ s ≠ None ->
  Forall (fun i => i < MAX_CHANNELS) ids ->
  ∃ stops,
    trace s' = trace s ++ concat stops
    ∧ Forall2 (stop_begun (i2c_address_ s)) ids stops
    ∧ is_initialized_ s' = true ∧ i2c_ s' ≠ None ∧ i2c_address_ s' = i2c_address_ s.
Proof.
  induction 1 as [s|i rest s r s1 s2 Hstop _ IH]; intros Hinit Hbus Hids.
  - exists []. rewrite app_nil_r. by repeat split.
  - apply Forall_cons in Hids as [Hi Hrest].
    destruct (Stop_begun i s r s1 Hinit Hbus Hi Hstop)
      as (events & Ht1 & Hbegun & Hinit1 & Hbus1 & Ha1).
    destruct (IH Hinit1 Hbus1 Hrest) as (stops & Ht2 & Hall & Hinit2 & Hbus2 & Ha2).
    exists (events :: stops). rewrite Ha1 in Hall.
    split; [by rewrite Ht2, Ht1, <- app_assoc|].
    split; [by constructor|]. split; [done|]. split; [done|congruence].
Qed.

Lemma Deinitialize_carried_out s :
  is_initialized_ s = true -> well_formed s ->
  ∃ s1 r s2,
    all_run Stop (seqZ 0 MAX_CHANNELS) s s1
    ∧ Sleep s1 = Some (r, s2)
    ∧ Deinitialize s = Some (PWM_SUCCESS, released s2)
    ∧ is_initialized_ (released s2) = false
    ∧ (i2c_ s ≠ None ->
       ∃ stops sleeps st,
         trace (released s2)
         = trace s ++ concat stops ++ sleeps ++ [EvDeinitialize st]
         ∧ Forall2 (stop_begun (i2c_address_ s)) (seqZ 0 MAX_CHANNELS) stops
         ∧ sleep_begun (i2c_address_ s) sleeps).
Proof.
  intros Hinit Hwf.
  destruct (stop_all_total (seqZ 0 MAX_CHANNELS) s Hwf) as (s1 & Hstop).
  destruct (Sleep_total s1) as (r & s2 & Hsleep).
  pose proof (stop_all_all_run _ _ _ Hstop) as Hall.
  exists s1, r, s2. split; [done|]. split; [done|]. split; [|split; [done|]].
  - unfold Deinitialize.
    rewrite (bind_run _ _ s true s) by (unfold gets; by rewrite Hinit).
    change (negb true) with false. cbv iota.
    rewrite (bind_run _ _ _ _ _ Hstop), (bind_run _ _ _ _ _ Hsleep).
    unfold released, i2c_is_null, i2c_call. run_unfold.
    destruct (i2c_ s2) as [[log b]|] eqn:Hb; simpl; [|done]. rewrite Hb.
    by destruct (i2c_Deinitialize b) as [st b'].
  - intros Hbus.
    destruct (all_run_begun _ _ _ Hall Hinit Hbus)
      as (stops & Ht1 & Hbegun & Hinit1 & Hbus1 & Ha1).
    { apply Forall_forall. intros i Hi%elem_of_seqZ. lia. }
    destruct (Sleep_begun _ _ _ Hinit1 Hbus1 Hsleep) as (sleeps & Ht2 & Hsl).
    rewrite Ha1 in Hsl.
    assert (i2c_ s2 ≠ None) as Hbus2.
    { destruct Hsl as (st & raw & rest & ->). by eapply traced_not_null. }
    destruct (i2c_ s2) as [[log b]|] eqn:Hb; [|done].
    assert (trace s2 = log) as Hlog by (unfold trace; by rewrite Hb).
    destruct (i2c_Deinitialize b) as [st b'] eqn:Hde.
    exists stops, sleeps, st. split; [|done].
    unfold released, trace at 1. rewrite Hb. simpl. rewrite Hde. simpl.
    by rewrite <- Hlog, Ht2, Ht1, <- !app_assoc.
Qed.
End CarriedOut.

(** ** C5 *)

(** C5, as the code has it.  Every multi-step operation other than
    [Deinitialize] runs its steps in order, aborts at the first step
    that returns an error and returns that error, and returns success
    when every step has succeeded: [Initialize], [ConfigureChannel],
    [SetDutyCycle], [SetFrequency], [Start], [Stop], the private
    [SetChannelTiming], the five operations on the mode registers and
    the three batch operations are each equal to the run in sequence of
    their steps (followed, once all have succeeded, by the assignment
    that records the outcome); in terms of transfers, no transfer
    follows a failed one and a failed transfer makes the result the
    hardware error; an argument that fails a check of the operation is
    an error met before the first step, returned with nothing done.
    [Deinitialize] on an initialized driver discards
    the results of its steps and carries out all of them: it runs [Stop]
    on every channel in turn whatever each returns, then [Sleep], then
    deinitializes the transport, returns success and clears the flag;
    with a transport attached, its transfers are those of the sixteen
    [Stop] calls, each begun, those of [Sleep], begun, and the
    deinitialization of the transport. *)
Theorem operations_abort_except_Deinitialize {B : Type} `{!BaseI2c B}
    (s : Pca9685Pwm (list I2cEvent * B)) :
  is_initialized_ s = true -> well_formed s ->
  (∃ s1 r s2,
     all_run Stop (seqZ 0 MAX_CHANNELS) s s1
     ∧ Sleep s1 = Some (r, s2)
     ∧ Deinitialize s = Some (PWM_SUCCESS, released s2)
     ∧ is_initialized_ (released s2) = false
     ∧ (i2c_ s ≠ None ->
        ∃ stops sleeps st,
          trace (released s2)
          = trace s ++ concat stops ++ sleeps ++ [EvDeinitialize st]
          ∧ Forall2 (stop_begun (i2c_address_ s)) (seqZ 0 MAX_CHANNELS) stops
          ∧ sleep_begun (i2c_address_ s) sleeps))
  ∧ (∀ (steps : list Step) v (s0 : Pca9685Pwm (list I2cEvent * B)) r s',
       in_sequence steps v s0 = Some (r, s') ->
       (r = PWM_SUCCESS ∧ ∃ v', steps_succeed steps v s0 v' s')
       ∨ (r ≠ PWM_SUCCESS
          ∧ ∃ before step after v1 s1 v2,
              steps = before ++ step :: after ∧ steps_succeed before v s0 v1 s1
              ∧ step v1 s1 = Some ((r, v2), s')))
  ∧ (∀ s0 : Pca9685Pwm (list I2cEvent * B),
       is_initialized_ s0 = false -> i2c_ s0 ≠ None ->
       Initialize s0
       = in_sequence_then Initialize_steps (modify (set_is_initialized true)) s0)
  ∧ (∀ ch config,
       ch < MAX_CHANNELS -> MIN_FREQUENCY <= frequency_hz config <= MAX_FREQUENCY ->
       Float32.ltb (initial_duty_cycle config) Float32.zero
       || Float32.ltb Float32.one (initial_duty_cycle config) = false ->
       ConfigureChannel ch config s = in_sequence (ConfigureChannel_steps ch config) 0 s)
  ∧ (∀ ch d on off,
       ch < MAX_CHANNELS ->
       Float32.ltb d Float32.zero || Float32.ltb Float32.one d = false ->
       DutyCycleToTiming d = Some (on, off) ->
       SetDutyCycle ch d s
       = in_sequence_then (SetChannelTiming_steps ch on off)
           (channel_assign ch (set_duty d on off)) s)
  ∧ (∀ ch f prescale,
       ch < MAX_CHANNELS -> MIN_FREQUENCY <= f <= MAX_FREQUENCY ->
       CalculatePrescale f = Some prescale ->
       SetFrequency ch f s
       = in_sequence_then (SetFrequency_steps prescale)
           (modify (set_frequency f prescale)) s)
  ∧ (∀ ch c,
       ch < MAX_CHANNELS -> channels_ s !! Z.to_nat ch = Some c ->
       Start ch s
       = in_sequence_then (SetChannelTiming_steps ch (on_time c) (off_time c))
           (channel_assign ch (set_is_active true)) s)
  ∧ (∀ ch,
       ch < MAX_CHANNELS ->
       Stop ch s
       = in_sequence_then (SetChannelTiming_steps ch 0 MAX_PWM_VALUE)
           (channel_assign ch (set_is_active false)) s)
  ∧ (∀ ch on off,
       ch < MAX_CHANNELS ->
       SetChannelTiming ch on off s = in_sequence (SetChannelTiming_steps ch on off) 0 s)
  ∧ (∀ m reg mask level,
       mode_operation m reg mask level ->
       m s = in_sequence (mode_steps reg mask level) 0 s)
  ∧ (∀ ids duties,
       ids ≠ [] -> length duties = length ids ->
       StartMultiple (Some ids) (Z.of_nat (length ids)) s
       = in_sequence ((fun ch => step_call (Start ch)) <$> ids) 0 s
       ∧ StopMultiple (Some ids) (Z.of_nat (length ids)) s
         = in_sequence ((fun ch => step_call (Stop ch)) <$> ids) 0 s
       ∧ SetDutyCycleMultiple (Some ids) (Some duties) (Z.of_nat (length ids)) s
         = in_sequence
             ((fun p => step_call (SetDutyCycle p.1 p.2)) <$> zip ids duties) 0 s)
  ∧ (∀ ch, MAX_CHANNELS <= ch -> channel_operations_return PWM_INVALID_CHANNEL s ch)
  ∧ (∀ ch,
       ch < MAX_CHANNELS ->
       (∀ f, ¬ (MIN_FREQUENCY <= f <= MAX_FREQUENCY) ->
             SetFrequency ch f s = Some (PWM_INVALID_FREQUENCY, s))
       ∧ (∀ config, ¬ (MIN_FREQUENCY <= frequency_hz config <= MAX_FREQUENCY) ->
             ConfigureChannel ch config s = Some (PWM_INVALID_FREQUENCY, s))
       ∧ (∀ d, Float32.ltb d Float32.zero || Float32.ltb Float32.one d = true ->
             SetDutyCycle ch d s = Some (PWM_INVALID_DUTY_CYCLE, s))
       ∧ (∀ config, MIN_FREQUENCY <= frequency_hz config <= MAX_FREQUENCY ->
             Float32.ltb (initial_duty_cycle config) Float32.zero
             || Float32.ltb Float32.one (initial_duty_cycle config) = true ->
             ConfigureChannel ch config s = Some (PWM_INVALID_DUTY_CYCLE, s)))
  ∧ aborts_at_first_error (B := B) id Initialize
  ∧ (∀ ch config, aborts_at_first_error (B := B) id (ConfigureChannel ch config))
  ∧ (∀ ch d, aborts_at_first_error (B := B) id (SetDutyCycle ch d))
  ∧ (∀ ch f, aborts_at_first_error (B := B) id (SetFrequency ch f))
  ∧ (∀ ch, aborts_at_first_error (B := B) id (Start ch))
  ∧ (∀ ch, aborts_at_first_error (B := B) id (Stop ch))
  ∧ (∀ ids n, aborts_at_first_error (B := B) id (StartMultiple ids n))
  ∧ (∀ ids n, aborts_at_first_error (B := B) id (StopMultiple ids n))
  ∧ (∀ ids ds n, aborts_at_first_error (B := B) id (SetDutyCycleMultiple ids ds n))
  ∧ (∀ f, aborts_at_first_error (B := B) id (ConfigureExternalClock f))
  ∧ (∀ t, aborts_at_first_error (B := B) id (SetOutputDriver t))
  ∧ (∀ i, aborts_at_first_error (B := B) id (SetOutputInvert i))
  ∧ aborts_at_first_error (B := B) id Sleep
  ∧ aborts_at_first_error (B := B) id Wakeup.
Proof.
  intros Hinit Hwf.
  split; [by apply Deinitialize_carried_out|].
  split; [apply in_sequence_run|].
  split; [apply Initialize_in_sequence|].
  split; [intros; by apply ConfigureChannel_in_sequence|].
  split; [intros; by apply SetDutyCycle_in_sequence|].
  split; [intros; by apply SetFrequency_in_sequence|].
  split; [intros; by apply Start_in_sequence|].
  split; [intros; by apply Stop_in_sequence|].
  split; [intros; by apply SetChannelTiming_in_sequence|].
  split; [intros; by apply mode_operation_in_sequence|].
  split.
  { intros ids duties Hne Hlen.
    rewrite StartMultiple_first_failure, StopMultiple_first_failure,
      SetDutyCycleMultiple_first_failure by done.
    split; [apply first_failure_in_sequence|].
    split; [apply first_failure_in_sequence|].
    apply (first_failure_in_sequence (fun p => SetDutyCycle p.1 p.2)). }
  split; [intros; by apply invalid_channel_operations|].
  split; [intros; by apply rejected_before_first_step|].
  repeat split;
    eauto using aborts_Initialize, aborts_ConfigureChannel, aborts_SetDutyCycle,
      aborts_SetFrequency, aborts_Start, aborts_Stop, aborts_StartMultiple,
      aborts_StopMultiple, aborts_SetDutyCycleMultiple, aborts_ConfigureExternalClock,
      aborts_SetOutputDriver, aborts_SetOutputInvert, aborts_Sleep, aborts_Wakeup.
Qed.

Lemma operations_abort_except_Deinitialize_witness :
  is_initialized_ (initialized_driver 2) = true
  ∧ well_formed (initialized_driver 2)
  ∧ i2c_ (initialized_driver 2) ≠ None
  ∧ (∃ s1 r s2,
       all_run Stop (seqZ 0 MAX_CHANNELS) (initialized_driver 2) s1
       ∧ Sleep s1 = Some (r, s2)
       ∧ Deinitialize (initialized_driver 2) = Some (PWM_SUCCESS, released s2)
       ∧ is_initialized_ (released s2) = false
       ∧ ∃ stops sleeps st,
           trace (released s2)
           = trace (initialized_driver 2) ++ concat stops ++ sleeps ++ [EvDeinitialize st]
           ∧ Forall2 (stop_begun (i2c_address_ (initialized_driver 2)))
               (seqZ 0 MAX_CHANNELS) stops
           ∧ sleep_begun (i2c_address_ (initialized_driver 2)) sleeps)
  ∧ (∀ ch,
       ch < MAX_CHANNELS ->
       Stop ch (initialized_driver 2)
       = in_sequence_then (SetChannelTiming_steps ch 0 MAX_PWM_VALUE)
           (channel_assign ch (set_is_active false)) (initialized_driver 2))
  ∧ (∀ ch d, aborts_at_first_error (B := nat * gmap Z Z) id (SetDutyCycle ch d)).
Proof.
  split; [reflexivity|]. split; [reflexivity|]. split; [discriminate|].
  destruct (operations_abort_except_Deinitialize (initialized_driver 2) eq_refl eq_refl)
    as (Hde & _ & _ & _ & _ & _ & _ & Hstop & _ & _ & _ & _ & _ & _ & _ & Hduty & _).
  split; [|split; [exact Hstop|exact Hduty]].
  destruct Hde as (s1 & r & s2 & Hall & Hsleep & Hrun & Hflag & Htrace).
  exists s1, r, s2. split; [exact Hall|]. split; [exact Hsleep|].
  split; [exact Hrun|]. split; [exact Hflag|]. apply Htrace. discriminate.
Defined.

(** C5, as the spec states it, fails for [Deinitialize]: with a transport
    that fails from the third transfer on, the call still makes all of
    its twenty transfers and returns success. *)
Lemma Deinitialize_ignores_failures :
  ∃ s', Deinitialize (initialized_driver 2) = Some (PWM_SUCCESS, s')
        ∧ trace s' !! 2%nat = Some (EvWrite 0x40 [8; 255] I2C_FAILURE)
        ∧ length (trace s') = 20%nat
        ∧ ¬ aborts_at_first_error (B := nat * gmap Z Z) id Deinitialize.
Proof.
  eexists. split; [by vm_compute|]. split; [by vm_compute|]. split; [by vm_compute|].
  intros Habort.
  destruct (Deinitialize (initialized_driver 2)) as [[r s']|] eqn:Hrun; [|by vm_compute in Hrun].
  destruct (Habort _ _ _ Hrun) as (events & Htr & Hab).
  assert (r = PWM_SUCCESS) as -> by (vm_compute in Hrun; congruence).
  apply aborted_success in Hab.
  assert (trace s' !! 2%nat = Some (EvWrite 0x40 [8; 255] I2C_FAILURE)) as Hbad.
  { vm_compute in Hrun. injection Hrun as <-. by vm_compute. }
  change (trace (initialized_driver 2)) with (@nil I2cEvent) in Htr.
  rewrite Htr in Hbad. simpl in Hbad.
  rewrite Forall_lookup in Hab. by specialize (Hab _ _ Hbad).
Qed.
